(** * AutoDev orchestration core: a shallow embedding and its properties

    The development follows the TypeScript sources of the extension:
    - [services/claudeCodeRunner.ts]  (module [Runner])
    - [services/logStreamer.ts]       (modules [LogStreamer], [LogHistory])
    - [services/templateEngine.ts]    (module [TemplateEngine])
    - [services/gitManager.ts]        (module [GitManager])
    - [services/database.ts] and [services/orchestrator.ts]
                                      (modules [Store], [Orchestrator], [Slug])
    - [extension.ts], [providers/ticketDetailProvider.ts]
                                      (modules [Extension], [Recovery])

    JavaScript strings are sequences of character codes ([jsstring]); a
    Node [Buffer] is a sequence of bytes.  Identifiers (UUIDs) of tickets
    and projects are strings, job identifiers are natural numbers drawn
    fresh from the job table. *)

From Stdlib Require Import ZArith Lia DecimalString.
From stdpp Require Import gmap strings list fin_maps.

Local Open Scope Z_scope.

(** ** JavaScript strings and buffers *)

Module Js.

(** A string as the sequence of its character codes. *)
Definition jsstring := list Z.

(** A [Buffer]: raw bytes, each in [0, 255]. *)
Definition Buffer := list Z.

(** An ASCII literal as a [jsstring]. *)
Definition str (s : string) : jsstring :=
  map (fun a => Z.of_nat (Ascii.nat_of_ascii a)) (String.list_ascii_of_string s).

Definition LF : Z := 10.

(** JavaScript truthiness of a string: only [''] is falsy. *)
Definition truthy (s : jsstring) : bool :=
  match s with [] => false | _ :: _ => true end.

Definition conshead (c : Z) (ls : list jsstring) : list jsstring :=
  match ls with
  | [] => [[c]]
  | l :: ls' => (c :: l) :: ls'
  end.

(** [s.split('\n')]: never empty; the last element is what follows the
    last line feed. *)
Fixpoint split_lf (s : jsstring) : list jsstring :=
  match s with
  | [] => [[]]
  | c :: s' => if Z.eqb c LF then [] :: split_lf s' else conshead c (split_lf s')
  end.

(** The newline-terminated lines of a text, and what follows the last
    line feed. *)
Definition complete_lines (s : jsstring) : list jsstring := List.removelast (split_lf s).
Definition trailing (s : jsstring) : jsstring := List.last (split_lf s) [].

(** *** [Buffer.prototype.toString('utf8')]

    Decoding replaces every ill-formed or truncated sequence by U+FFFD
    (the WHATWG decoder: one replacement per maximal subpart). *)

Definition REPLACEMENT : Z := 65533.

Record Utf8State := mkUtf8 {
  u_needed : nat;       (* continuation bytes still expected *)
  u_cp : Z;             (* code point accumulated so far *)
  u_lower : Z;          (* admissible range of the next byte *)
  u_upper : Z
}.

Definition utf8_init : Utf8State := mkUtf8 0 0 128 191.

(** A byte read in the initial state: what is emitted, and the next state. *)
Definition utf8_lead (b : Z) : list Z * Utf8State :=
  if b <=? 127 then ([b], utf8_init)
  else if (194 <=? b) && (b <=? 223) then ([], mkUtf8 1 (Z.land b 31) 128 191)
  else if (224 <=? b) && (b <=? 239) then
    ([], mkUtf8 2 (Z.land b 15) (if b =? 224 then 160 else 128) (if b =? 237 then 159 else 191))
  else if (240 <=? b) && (b <=? 244) then
    ([], mkUtf8 3 (Z.land b 7) (if b =? 240 then 144 else 128) (if b =? 244 then 143 else 191))
  else ([REPLACEMENT], utf8_init).

Definition utf8_step (st : Utf8State) (b : Z) : list Z * Utf8State :=
  match u_needed st with
  | O => utf8_lead b
  | S n =>
      if (u_lower st <=? b) && (b <=? u_upper st) then
        let cp := Z.lor (Z.shiftl (u_cp st) 6) (Z.land b 63) in
        match n with
        | O => ([cp], utf8_init)
        | S _ => ([], mkUtf8 n cp 128 191)
        end
      else
        (* the sequence is abandoned and the byte is read again *)
        let '(out, st') := utf8_lead b in (REPLACEMENT :: out, st')
  end.

Fixpoint utf8_decode_from (st : Utf8State) (bs : Buffer) : jsstring :=
  match bs with
  | [] => match u_needed st with O => [] | S _ => [REPLACEMENT] end
  | b :: bs' => let '(out, st') := utf8_step st b in out ++ utf8_decode_from st' bs'
  end.

Definition toString (buf : Buffer) : jsstring := utf8_decode_from utf8_init buf.

(** [Buffer.byteLength(s, 'utf8')]. *)
Definition cp_bytes (c : Z) : Z :=
  if c <? 128 then 1 else if c <? 2048 then 2 else if c <? 65536 then 3 else 4.

Definition byteLength (s : jsstring) : Z :=
  fold_right (fun c n => cp_bytes c + n) 0 s.

(** Bytes that encode ASCII text. *)
Definition ascii_bytes (bs : Buffer) : Prop := Forall (fun b => 0 <= b < 128) bs.

End Js.

(** ** services/claudeCodeRunner.ts: the output handlers of [run] *)

Module Runner.
Import Js.

(** The variables captured by the handlers of [ClaudeCodeRunner.run],
    the bytes written to the log stream, and the calls of [onLine]. *)
Record RunState := mkRun {
  outputBuffer : jsstring;
  lineBuffer : jsstring;
  logStream : Buffer;
  onLine : list jsstring
}.

Definition run_start : RunState := mkRun [] [] [] [].

(** [handleData(chunk)], attached to both stdout and stderr. *)
Definition handleData (chunk : Buffer) (st : RunState) : RunState :=
  let text := toString chunk in
  let buffered := lineBuffer st ++ text in
  let lines := split_lf buffered in
  mkRun (outputBuffer st ++ text)
        (List.last lines [])                  (* lines.pop() ?? '' *)
        (logStream st ++ chunk)
        (onLine st ++ List.filter truthy (List.removelast lines)).

(** The ['close'] handler: flushes a non-empty line buffer. *)
Definition handleClose (st : RunState) : RunState :=
  if truthy (lineBuffer st)
  then mkRun (outputBuffer st) (lineBuffer st) (logStream st) (onLine st ++ [lineBuffer st])
  else st.

Definition feed (chunks : list Buffer) (st : RunState) : RunState :=
  fold_left (fun s c => handleData c s) chunks st.

(** The text of the whole stream: the chunks decoded one by one. *)
Definition stream_text (chunks : list Buffer) : jsstring :=
  concat (map toString chunks).

End Runner.

(** ** services/logStreamer.ts: [LogStreamer.poll] *)

Module LogStreamer.
Import Js.

Record WatchState := mkWatch {
  offset : Z;
  emitted : list jsstring      (* the 'line' events, oldest first *)
}.

Definition watch_start : WatchState := mkWatch 0 [].

(** One call of [poll] on a file whose content is [file].  A missing file
    and an error of the read are a skipped poll.  The offset can fall below
    0 when the text kept back holds U+FFFD: [fs.readSync] takes the
    position -1 as the current position of the descriptor, which is the
    start of the file, and leaves the last byte of the buffer, allocated
    one byte longer than the file, at 0; it refuses a position below -1
    (ERR_OUT_OF_RANGE), and the poll is skipped. *)
Definition poll (file : Buffer) (st : WatchState) : WatchState :=
  let size := Z.of_nat (length file) in
  if size <=? offset st then st
  else if offset st <? -1 then st
  else
    let buf := if offset st =? -1 then file ++ [0]
               else drop (Z.to_nat (offset st)) file in
    let chunk := toString buf in
    let lines := split_lf chunk in
    let lastPartial := List.last lines [] in
    mkWatch (if truthy lastPartial then size - byteLength lastPartial else size)
            (emitted st ++ List.filter truthy (List.removelast lines)).

(** What happens to a watched file: bytes are appended, or the timer fires. *)
Inductive FileOp := Append (bs : Buffer) | Poll.

Definition file_step (op : FileOp) (s : Buffer * WatchState) : Buffer * WatchState :=
  match op with
  | Append bs => (s.1 ++ bs, s.2)
  | Poll => (s.1, poll s.1 s.2)
  end.

Definition file_run (ops : list FileOp) (s : Buffer * WatchState) : Buffer * WatchState :=
  fold_left (fun s op => file_step op s) ops s.

Definition ascii_op (op : FileOp) : Prop :=
  match op with Append bs => ascii_bytes bs | Poll => True end.

(** The tailer between two polls of an ASCII file: the offset stands at
    the start of a line, and the lines before it have been emitted. *)
Definition tail_inv (file : Buffer) (st : WatchState) : Prop :=
  ascii_bytes file /\
  exists done rest : Buffer,
    file = done ++ rest /\ offset st = Z.of_nat (length done) /\
    trailing done = [] /\
    emitted st = List.filter truthy (complete_lines done).

End LogStreamer.

(** ** services/logStreamer.ts: [LogStreamer.getHistory], and the log file
    between the runner that writes it and the tailer that reads it *)

Module LogHistory.
Import Js LogStreamer.

Definition MAX_TAIL_BYTES : Z := 1000000.

(** [getHistory(_jobId, logPath)] on a file whose content is [file];
    [None] stands for a file that does not exist or cannot be read. *)
Definition getHistory (file : option Buffer) : list jsstring :=
  match file with
  | None => []
  | Some bytes =>
      let size := Z.of_nat (length bytes) in
      let start := Z.max 0 (size - MAX_TAIL_BYTES) in
      List.filter truthy (split_lf (toString (drop (Z.to_nat start) bytes)))
  end.

(** The chunks written to the file, in order. *)
Definition appended (ops : list FileOp) : list Buffer :=
  omap (fun op => match op with Append bs => Some bs | Poll => None end) ops.

End LogHistory.

(** ** services/templateEngine.ts: [renderTemplate] *)

Module TemplateEngine.
Import Js.

(** [strip_prefix p s]: what follows [p] when [s] starts with [p]. *)
Fixpoint strip_prefix (p s : jsstring) : option jsstring :=
  match p, s with
  | [], _ => Some s
  | _ :: _, [] => None
  | a :: p', b :: s' => if Z.eqb a b then strip_prefix p' s' else None
  end.

(** The first occurrence of [pat] in [s]: the text before it and the text
    after it. *)
Fixpoint find_first (pat s : jsstring) : option (jsstring * jsstring) :=
  match strip_prefix pat s with
  | Some rest => Some ([], rest)
  | None =>
      match s with
      | [] => None
      | c :: s' =>
          match find_first pat s' with
          | Some (before, after) => Some (c :: before, after)
          | None => None
          end
      end
  end.

Definition occurs (pat s : jsstring) : bool :=
  match find_first pat s with Some _ => true | None => false end.

(** [template.replace(regex, ...)] for the global regular expression
    [openTag([\s\S]*?)closeTag]: the leftmost opening tag that is followed
    by a closing tag is matched up to the nearest closing tag, and the
    search goes on after the match. *)
Fixpoint replaceBlocks (fuel : nat) (openTag closeTag : jsstring) (include : bool)
    (s : jsstring) : jsstring :=
  match fuel with
  | O => s
  | S fuel' =>
      match find_first openTag s with
      | None => s
      | Some (before, afterOpen) =>
          match find_first closeTag afterOpen with
          | None => s
          | Some (inner, rest) =>
              before ++ (if include then inner else [])
                     ++ replaceBlocks fuel' openTag closeTag include rest
          end
      end
  end.

Definition renderConditionalBlock (template tag : jsstring) (include : bool) : jsstring :=
  let openTag := str "{{#" ++ tag ++ str "}}" in
  let closeTag := str "{{/" ++ tag ++ str "}}" in
  replaceBlocks (length template) openTag closeTag include template.

Definition DOLLAR : Z := 36.

(** The replacement text of [String.prototype.replaceAll] for a string
    pattern (no captures): [$$], [$&], [$`] and [$'] are expanded, every
    other character stands for itself. *)
Fixpoint getSubstitution (replacement matched before after : jsstring) : jsstring :=
  match replacement with
  | [] => []
  | c :: r =>
      if Z.eqb c DOLLAR then
        match r with
        | d :: r' =>
            if Z.eqb d 36 then DOLLAR :: getSubstitution r' matched before after
            else if Z.eqb d 38 then matched ++ getSubstitution r' matched before after
            else if Z.eqb d 96 then before ++ getSubstitution r' matched before after
            else if Z.eqb d 39 then after ++ getSubstitution r' matched before after
            else c :: getSubstitution r matched before after
        | [] => [c]
        end
      else c :: getSubstitution r matched before after
  end.

(** [s.replaceAll(token, value)] for a non-empty [token]; [consumed] is the
    part of the original string already passed. *)
Fixpoint replaceAllFrom (fuel : nat) (token value consumed s : jsstring) : jsstring :=
  match fuel with
  | O => s
  | S fuel' =>
      match find_first token s with
      | None => s
      | Some (before, after) =>
          before ++ getSubstitution value token (consumed ++ before) after
                 ++ replaceAllFrom fuel' token value (consumed ++ before ++ token) after
      end
  end.

Definition replaceAll (s token value : jsstring) : jsstring :=
  replaceAllFrom (length s) token value [] s.

(** White space and line terminators, as removed by [String.prototype.trim]. *)
Definition is_ws (c : Z) : bool :=
  ((9 <=? c) && (c <=? 13)) || (c =? 32) || (c =? 160) || (c =? 5760)
  || ((8192 <=? c) && (c <=? 8202)) || (c =? 8232) || (c =? 8233)
  || (c =? 8239) || (c =? 8287) || (c =? 12288) || (c =? 65279).

Fixpoint trimStart (s : jsstring) : jsstring :=
  match s with
  | [] => []
  | c :: s' => if is_ws c then trimStart s' else s
  end.

Definition trimEnd (s : jsstring) : jsstring := rev (trimStart (rev s)).

Definition trim (s : jsstring) : jsstring := trimEnd (trimStart s).

Record TemplateContext := mkContext {
  ticketTitle : jsstring;
  ticketDescription : jsstring;
  projectName : jsstring;
  autoDetectedStack : jsstring;
  testCommand : jsstring;
  buildCommand : jsstring;
  contextFiles : option jsstring;
  attachmentDescriptions : option jsstring
}.

(** [!!x] for an optional string. *)
Definition present (x : option jsstring) : bool :=
  match x with Some v => truthy v | None => false end.

(** [x || d]. *)
Definition orElse (x d : jsstring) : jsstring := if truthy x then x else d.

(** The entries of [substitutions], in insertion order. *)
Definition substitutions (ctx : TemplateContext) : list (jsstring * jsstring) :=
  [ (str "{{TICKET_TITLE}}", ticketTitle ctx);
    (str "{{TICKET_DESCRIPTION}}", ticketDescription ctx);
    (str "{{PROJECT_NAME}}", projectName ctx);
    (str "{{AUTO_DETECTED_STACK}}", autoDetectedStack ctx);
    (str "{{TEST_COMMAND}}", orElse (testCommand ctx) (str "(not configured)"));
    (str "{{BUILD_COMMAND}}", orElse (buildCommand ctx) (str "(not configured)"));
    (str "{{CONTEXT_FILES}}", default [] (contextFiles ctx));
    (str "{{ATTACHMENT_DESCRIPTIONS}}", default [] (attachmentDescriptions ctx)) ].

Definition substitute (subs : list (jsstring * jsstring)) (s : jsstring) : jsstring :=
  fold_left (fun result tv => replaceAll result tv.1 tv.2) subs s.

Definition renderTemplate (template : jsstring) (ctx : TemplateContext) : jsstring :=
  let result := renderConditionalBlock template (str "CONTEXT_FILES") (present (contextFiles ctx)) in
  let result := renderConditionalBlock result (str "ATTACHMENTS") (present (attachmentDescriptions ctx)) in
  trim (substitute (substitutions ctx) result).

(** The markers whose presence makes a second rendering act: the eight
    tokens and the two opening tags. *)
Definition markers (ctx : TemplateContext) : list jsstring :=
  map fst (substitutions ctx) ++ [str "{{#CONTEXT_FILES}}"; str "{{#ATTACHMENTS}}"].

Definition marker_free (ctx : TemplateContext) (s : jsstring) : Prop :=
  Forall (fun m => occurs m s = false) (markers ctx).

End TemplateEngine.

(** Texts without a given character: a text without an opening brace
    holds no token and no tag, a text without a dollar sign is a
    replacement that stands for itself. *)
Module Text.
Import Js.

Definition LBRACE : Z := 123.

Definition lacks (c : Z) (s : jsstring) : Prop := Forall (fun x => x <> c) s.

(** [pat] does not match at any position of [t] in the text [t ++ rest]. *)
Fixpoint misses (pat t rest : jsstring) : Prop :=
  match t with
  | [] => True
  | _ :: t' => TemplateEngine.strip_prefix pat (t ++ rest) = None /\ misses pat t' rest
  end.

End Text.

(** ** services/orchestrator.ts: [slugify], the branch-name part made of a
    ticket title *)

Module Slug.
Import Js TemplateEngine.

Definition DASH : Z := 45.

Definition is_lower_or_digit (c : Z) : bool :=
  ((97 <=? c) && (c <=? 122)) || ((48 <=? c) && (c <=? 57)).

(** The class [[a-z0-9\s-]]: the characters the first [replace] keeps. *)
Definition kept (c : Z) : bool := is_lower_or_digit c || is_ws c || (c =? DASH).

(** [s.replace(/\s+/g, '-')]: one dash for every maximal run of white
    space; [inRun] tells that the character before was white space. *)
Fixpoint dashes (inRun : bool) (s : jsstring) : jsstring :=
  match s with
  | [] => []
  | c :: s' =>
      if is_ws c then (if inRun then dashes true s' else DASH :: dashes true s')
      else c :: dashes false s'
  end.

(** [slugify(title)]; [String.prototype.toLowerCase] follows the Unicode
    case tables and is left open. *)
Definition slugify (toLowerCase : jsstring -> jsstring) (title : jsstring) : jsstring :=
  take 50 (dashes false (trim (List.filter kept (toLowerCase title)))).

(** The characters of a slug: [a-z], [0-9] and the dash. *)
Definition slug_char (c : Z) : Prop := is_lower_or_digit c = true \/ c = DASH.

(** [toLowerCase] on ASCII text. *)
Definition lowerAscii (s : jsstring) : jsstring :=
  map (fun c => if (65 <=? c) && (c <=? 90) then c + 32 else c) s.

End Slug.

(** ** services/gitManager.ts: [GitManager.createWorktree] *)

Module GitManager.

Local Open Scope string_scope.





Definition branchName (branchPrefix ticketId slug : string) : string :=
  branchPrefix +:+ "ticket-" +:+ ticketId +:+ "-" +:+ slug.

Section CreateWorktree.

(** [path.join] of Node. *)
Variable pathJoin : string -> string -> string.



End CreateWorktree.

End GitManager.

(** ** types/ and services/database.ts: the persistent store *)

Module JobPhase.
(** ['plan' | 'execute' | 'fix'] *)
Inductive t := plan | execute | fix_.
#[global] Instance eq_dec : EqDecision t.
Proof. solve_decision. Defined.
End JobPhase.

Module JobStatus.
Inductive t := pending | running | completed | failed.
#[global] Instance eq_dec : EqDecision t.
Proof. solve_decision. Defined.
(** A job is active while it is pending or running. *)
Definition active (s : t) : bool :=
  match s with pending | running => true | completed | failed => false end.
End JobStatus.

Module TicketStatus.
Inductive t :=
  backlog | planning | plan_review | queued | in_progress | testing
  | completed | failed | merged.
#[global] Instance eq_dec : EqDecision t.
Proof. solve_decision. Defined.
End TicketStatus.

Module Store.

Local Open Scope string_scope.
Local Open Scope nat_scope.

Record TicketMetadata := mkMetadata {
  filesChanged : option (list string);
  testsPassed : option bool;
  retryCount : option nat
}.

(** The columns of the tables, without the primary key (timestamps and
    the columns no operation below reads are left out). *)
Record TicketRow := mkTicketRow {
  project_id : string;
  title : string;
  status : TicketStatus.t;
  plan : option string;
  branch : option string;
  worktree_path : option string;
  error : option string;
  metadata : TicketMetadata
}.

Record ProjectSettings := mkSettings {
  maxParallelJobs : nat;
  autoExecuteAfterPlan : bool;
  testCommand : option string;
  lintCommand : option string
}.

Record JobRow := mkJobRow {
  ticket_id : string;
  phase : JobPhase.t;
  job_status : JobStatus.t;
  exit_code : option Z;
  retry_count : nat
}.

(** The objects handed out by the store: a row with its key. *)
Record Ticket := mkTicket { t_id : string; t_row : TicketRow }.
Record Project := mkProject { p_id : string; p_settings : ProjectSettings }.
Record ExecutionJob := mkJob {
  job_id : nat;
  job_ticketId : string;
  job_phase : JobPhase.t
}.

(** The database; [statusLog] keeps every call of [tickets.updateStatus],
    oldest first. *)
Record Db := mkDb {
  tickets : gmap string TicketRow;
  projects : gmap string ProjectSettings;
  jobs : gmap nat JobRow;
  statusLog : list (string * TicketStatus.t)
}.

Definition tickets_findById (id : string) (d : Db) : option Ticket :=
  mkTicket id <$> tickets d !! id.

Definition projects_findById (id : string) (d : Db) : option Project :=
  mkProject id <$> projects d !! id.

(** [tickets.updateStatus(id, status, { error })]: the error column is
    overwritten by the given value or by NULL. *)
Definition tickets_updateStatus (id : string) (s : TicketStatus.t) (err : option string)
    (d : Db) : Db :=
  mkDb (alter (fun r => mkTicketRow (project_id r) (title r) s (plan r) (branch r)
                                    (worktree_path r) err (metadata r)) id (tickets d))
       (projects d) (jobs d) (statusLog d ++ [(id, s)]).

Definition tickets_updatePlan (id : string) (p : string) (d : Db) : Db :=
  mkDb (alter (fun r => mkTicketRow (project_id r) (title r) (status r) (Some p) (branch r)
                                    (worktree_path r) (error r) (metadata r)) id (tickets d))
       (projects d) (jobs d) (statusLog d).

Definition tickets_updateBranch (id : string) (b w : string) (d : Db) : Db :=
  mkDb (alter (fun r => mkTicketRow (project_id r) (title r) (status r) (plan r) (Some b)
                                    (Some w) (error r) (metadata r)) id (tickets d))
       (projects d) (jobs d) (statusLog d).

Definition tickets_setMetadata (id : string) (m : TicketMetadata) (d : Db) : Db :=
  mkDb (alter (fun r => mkTicketRow (project_id r) (title r) (status r) (plan r) (branch r)
                                    (worktree_path r) (error r) m) id (tickets d))
       (projects d) (jobs d) (statusLog d).

(** [jobs.create(ticketId, phase, logPath)]: a fresh identifier (the UUID),
    status 'pending', no retries.  The insertion is refused when the
    ticket does not exist (foreign key). *)
Definition jobs_create (ticketId : string) (ph : JobPhase.t) (d : Db)
    : option (ExecutionJob * Db) :=
  match tickets d !! ticketId with
  | None => None
  | Some _ =>
      let id := fresh (dom (jobs d)) in
      Some (mkJob id ticketId ph,
            mkDb (tickets d) (projects d)
                 (<[id := mkJobRow ticketId ph JobStatus.pending None 0]> (jobs d))
                 (statusLog d))
  end.

(** [jobs.updateStatus(id, status, { exitCode })]. *)
Definition jobs_updateStatus (id : nat) (s : JobStatus.t) (code : option Z) (d : Db) : Db :=
  mkDb (tickets d) (projects d)
       (alter (fun r => mkJobRow (ticket_id r) (phase r) s code (retry_count r)) id (jobs d))
       (statusLog d).

Definition jobs_incrementRetry (id : nat) (d : Db) : Db :=
  mkDb (tickets d) (projects d)
       (alter (fun r => mkJobRow (ticket_id r) (phase r) (job_status r) (exit_code r)
                                 (S (retry_count r))) id (jobs d))
       (statusLog d).

(** The identifiers of the active (pending or running) jobs of a ticket. *)
Definition activeJobs (ticketId : string) (d : Db) : list nat :=
  (List.filter (fun kr : nat * JobRow =>
                  bool_decide (ticket_id kr.2 = ticketId) && JobStatus.active (job_status kr.2))
               (map_to_list (jobs d))).*1.

Definition runningJobs (d : Db) : list nat :=
  (List.filter (fun kr : nat * JobRow => bool_decide (job_status kr.2 = JobStatus.running))
               (map_to_list (jobs d))).*1.

Definition ticketStatus (id : string) (d : Db) : option TicketStatus.t :=
  status <$> tickets d !! id.

End Store.

(** ** services/orchestrator.ts

    JavaScript runs every stretch of code between two [await]s without
    interruption.  The model has one transition per such stretch: the
    public calls, the timer tick, and the resumptions of a worker when
    what it awaits (the agent process, the worktree, the test command, ...)
    settles.  The results of the outside world are arguments of the
    transitions.  Analytics records, 'job:progress' and 'log:line' events,
    log paths and timestamps are left out. *)

Module Orchestrator.
Import Store.

Local Open Scope string_scope.
Local Open Scope nat_scope.

Record OrchestratorConfig := mkConfig {
  maxWorkers : nat;
  maxRetries : nat;
  branchPrefix : string
}.

Record ActiveWorker := mkWorker {
  w_job : ExecutionJob;
  w_ticket : Ticket;
  w_project : Project
}.

Inductive Event :=
  | TicketStatusEvent (ticketId : string) (s : TicketStatus.t)   (* 'ticket:status' *)
  | JobCompleted (ticketId : string)                             (* 'job:completed' *)
  | JobFailed (ticketId : string) (error : string).              (* 'job:failed' *)

(** Where an invocation of [runWorker] is suspended. *)
Inductive Pc :=
  | PlanAwaitSpawn       (* runPlanPhase: runner.run called, process not yet spawned *)
  | PlanAwaitClose       (* runPlanPhase: agent process running *)
  | PlanAwaitEnqueue     (* runPlanPhase: await this.enqueueExecute(...) *)
  | ExecAwaitWorktree    (* runExecutePhase: checkGitVersion / createWorktree *)
  | ExecAwaitSpawn       (* loop: runner.run called, process not yet spawned *)
  | ExecAwaitClose       (* loop: agent process running *)
  | ExecAwaitTest        (* loop: await this.runCommand(testCommand, ...) *)
  | ExecAwaitLint        (* await this.runCommand(lintCommand, ...) *)
  | ExecAwaitSummary.    (* await gitManager.getChangeSummary(...) *)

(** The arguments and local variables of one invocation of [runWorker]. *)
Record Task := mkTask {
  tk_job : ExecutionJob;
  tk_ticket : Ticket;
  tk_project : Project;
  tk_pc : Pc;
  tk_retryCount : nat;
  tk_lastError : string;
  tk_worktreePath : string;
  tk_testCommand : option string;
  tk_lintCommand : option string
}.

(** What [detectStack] found in the repository. *)
Record StackInfo := mkStack {
  stack_testCommand : option string;
  stack_lintCommand : option string
}.

Record State := mkState {
  db : Db;
  queue : list ExecutionJob;
  activeWorkers : gmap string ActiveWorker;     (* keyed by ticket id *)
  tasks : gmap nat Task;                        (* suspended workers, by job id *)
  processes : gmap string nat;                  (* runner.processes; the job a process serves *)
  signals : list nat;                           (* SIGTERM sent to the process serving a job *)
  runnerCalls : list (string * nat);            (* calls of runner.run: tracking id, job *)
  watchers : gset nat;                          (* logStreamer.watchers, by job id *)
  events : list Event                           (* emitted events, oldest first *)
}.

Definition initial (d : Db) : State := mkState d [] ∅ ∅ ∅ [] [] ∅ [].

Definition upd_db (f : Db -> Db) (st : State) : State :=
  mkState (f (db st)) (queue st) (activeWorkers st) (tasks st) (processes st)
          (signals st) (runnerCalls st) (watchers st) (events st).
Definition set_queue (q : list ExecutionJob) (st : State) : State :=
  mkState (db st) q (activeWorkers st) (tasks st) (processes st)
          (signals st) (runnerCalls st) (watchers st) (events st).
Definition set_activeWorkers (a : gmap string ActiveWorker) (st : State) : State :=
  mkState (db st) (queue st) a (tasks st) (processes st)
          (signals st) (runnerCalls st) (watchers st) (events st).
Definition set_tasks (t : gmap nat Task) (st : State) : State :=
  mkState (db st) (queue st) (activeWorkers st) t (processes st)
          (signals st) (runnerCalls st) (watchers st) (events st).
Definition set_processes (p : gmap string nat) (st : State) : State :=
  mkState (db st) (queue st) (activeWorkers st) (tasks st) p
          (signals st) (runnerCalls st) (watchers st) (events st).
Definition set_signals (g : list nat) (st : State) : State :=
  mkState (db st) (queue st) (activeWorkers st) (tasks st) (processes st)
          g (runnerCalls st) (watchers st) (events st).
Definition set_runnerCalls (c : list (string * nat)) (st : State) : State :=
  mkState (db st) (queue st) (activeWorkers st) (tasks st) (processes st)
          (signals st) c (watchers st) (events st).
Definition set_watchers (w : gset nat) (st : State) : State :=
  mkState (db st) (queue st) (activeWorkers st) (tasks st) (processes st)
          (signals st) (runnerCalls st) w (events st).
Definition set_events (e : list Event) (st : State) : State :=
  mkState (db st) (queue st) (activeWorkers st) (tasks st) (processes st)
          (signals st) (runnerCalls st) (watchers st) e.

Definition set_pc (j : nat) (tk : Task) (pc : Pc) (st : State) : State :=
  set_tasks (<[j := mkTask (tk_job tk) (tk_ticket tk) (tk_project tk) pc (tk_retryCount tk)
                          (tk_lastError tk) (tk_worktreePath tk) (tk_testCommand tk)
                          (tk_lintCommand tk)]> (tasks st)) st.

Definition emit (e : Event) (st : State) : State := set_events (events st ++ [e]) st.

(** [logStreamer.watch] and [logStreamer.stop]. *)
Definition logStreamer_watch (j : nat) (st : State) : State :=
  set_watchers ({[j]} ∪ watchers st) st.
Definition logStreamer_stop (j : nat) (st : State) : State :=
  set_watchers (watchers st ∖ {[j]}) st.

(** [runner.run(trackingId, ...)] is called by the worker of job [j]. *)
Definition runner_run (trackingId : string) (j : nat) (st : State) : State :=
  set_runnerCalls (runnerCalls st ++ [(trackingId, j)]) st.

(** [runner.cancel(trackingId)]. *)
Definition runner_cancel (trackingId : string) (st : State) : State :=
  match processes st !! trackingId with
  | Some p => set_processes (delete trackingId (processes st)) (set_signals (signals st ++ [p]) st)
  | None => st
  end.

(** [if (command)]: set and not the empty string. *)
Definition configured (c : option string) : bool :=
  match c with
  | Some s => negb (String.eqb s "")
  | None => false
  end.

(** [a ?? b]. *)
Definition nullish (a b : option string) : option string :=
  match a with Some x => Some x | None => b end.

Definition nl : string := String (Ascii.ascii_of_nat 10) "".
Definition string_of_nat (n : nat) : string := NilZero.string_of_uint (Nat.to_uint n).
Definition string_of_Z (z : Z) : string := NilZero.string_of_int (Z.to_int z).

Definition cancelledMessage : string := "Cancelled by user.".

Definition testsFailingMessage (retries : nat) (lastError : string) : string :=
  "Tests still failing after " +:+ string_of_nat retries +:+ " retries."
    +:+ nl +:+ nl +:+ "Last error:" +:+ nl +:+ lastError.

(** The workers of a project in [activeWorkers]. *)
Definition projectWorkerCount (projectId : string) (a : gmap string ActiveWorker) : nat :=
  size (filter (fun kw : string * ActiveWorker => p_id (w_project kw.2) = projectId) a).

(** The number of calls of [runner.run] made for job [j]. *)
Definition agentInvocations (j : nat) (st : State) : nat :=
  length (List.filter (fun c : string * nat => bool_decide (c.2 = j)) (runnerCalls st)).

Section WithConfig.

Variable config : OrchestratorConfig.
(** The pure helpers [slugify] and [extractPlanFromOutput]. *)
Variable slugify : string -> string.
Variable extractPlanFromOutput : string -> string.

(** [runWorker] up to its first suspension.  For a plan job this reaches
    the call of [runner.run]; a template that cannot be rendered makes the
    worker throw before that call, which the model takes as a call that
    rejects. *)
Definition runWorker (job : ExecutionJob) (ticket : Ticket) (project : Project)
    (st : State) : State :=
  let st := upd_db (jobs_updateStatus (job_id job) JobStatus.running None) st in
  match job_phase job with
  | JobPhase.plan =>
      let st := logStreamer_watch (job_id job) st in
      let st := runner_run (t_id ticket) (job_id job) st in
      set_tasks (<[job_id job := mkTask job ticket project PlanAwaitSpawn 0 "" "" None None]>
                   (tasks st)) st
  | JobPhase.execute | JobPhase.fix_ =>
      set_tasks (<[job_id job := mkTask job ticket project ExecAwaitWorktree 0 "" "" None None]>
                   (tasks st)) st
  end.

(** A job leaves the queue: [activeWorkers.set(ticket.id, ...)] and
    [void this.runWorker(...)]. *)
Definition dispatch (job : ExecutionJob) (ticket : Ticket) (project : Project)
    (st : State) : State :=
  runWorker job ticket project
    (set_activeWorkers (<[t_id ticket := mkWorker job ticket project]> (activeWorkers st)) st).

(** The [for] loop of [tick] over the queue: the result is what is left
    of the queue, in order. *)
Fixpoint tick_loop (q : list ExecutionJob) (st : State) : list ExecutionJob * State :=
  match q with
  | [] => ([], st)
  | job :: rest =>
      if maxWorkers config <=? size (activeWorkers st) then (q, st)          (* break *)
      else
        match tickets_findById (job_ticketId job) (db st) with
        | None => tick_loop rest st                                            (* dropped *)
        | Some ticket =>
            match projects_findById (project_id (t_row ticket)) (db st) with
            | None => tick_loop rest st                                        (* dropped *)
            | Some project =>
                if maxParallelJobs (p_settings project)
                     <=? projectWorkerCount (p_id project) (activeWorkers st)
                then let '(q', st') := tick_loop rest st in (job :: q', st')   (* try next job *)
                else tick_loop rest (dispatch job ticket project st)
            end
        end
  end.

Definition tick (st : State) : State :=
  match queue st with
  | [] => st
  | _ :: _ =>
      if maxWorkers config <=? size (activeWorkers st) then st
      else let '(q', st') := tick_loop (queue st) st in set_queue q' st'
  end.

Definition enqueue (ph : JobPhase.t) (s : TicketStatus.t) (ticketId : string)
    (st : State) : State :=
  match jobs_create ticketId ph (db st) with
  | None => st                                   (* the store write throws *)
  | Some (job, d) =>
      let st := upd_db (fun _ => tickets_updateStatus ticketId s None d) st in
      let st := emit (TicketStatusEvent ticketId s) st in
      let st := set_queue (queue st ++ [job]) st in
      tick st
  end.

Definition enqueuePlan : string -> State -> State :=
  enqueue JobPhase.plan TicketStatus.planning.

Definition enqueueExecute : string -> State -> State :=
  enqueue JobPhase.execute TicketStatus.queued.

(** [queue.findIndex(j => j.ticketId === ticketId)] and [queue.splice]. *)
Fixpoint removeFirst (ticketId : string) (q : list ExecutionJob)
    : option (ExecutionJob * list ExecutionJob) :=
  match q with
  | [] => None
  | job :: rest =>
      if bool_decide (job_ticketId job = ticketId) then Some (job, rest)
      else match removeFirst ticketId rest with
           | Some (found, rest') => Some (found, job :: rest')
           | None => None
           end
  end.

Definition cancel (ticketId : string) (st : State) : State :=
  let st :=
    match removeFirst ticketId (queue st) with
    | Some (job, q') =>
        upd_db (jobs_updateStatus (job_id job) JobStatus.failed (Some (-1)%Z)) (set_queue q' st)
    | None => st
    end in
  let st := runner_cancel ticketId st in
  let st :=
    match activeWorkers st !! ticketId with
    | Some worker =>
        let st := set_activeWorkers (delete ticketId (activeWorkers st)) st in
        let st := logStreamer_stop (job_id (w_job worker)) st in
        upd_db (jobs_updateStatus (job_id (w_job worker)) JobStatus.failed (Some (-1)%Z)) st
    | None => st
    end in
  let st := upd_db (tickets_updateStatus ticketId TicketStatus.failed (Some cancelledMessage)) st in
  emit (TicketStatusEvent ticketId TicketStatus.failed) st.

Definition finishWorker (job : ExecutionJob) (ticket : Ticket) (project : Project)
    (succeeded : bool) (errorMessage : option string) (st : State) : State :=
  let st := logStreamer_stop (job_id job) st in
  let st := set_activeWorkers (delete (t_id ticket) (activeWorkers st)) st in
  let st :=
    if succeeded then
      let st := upd_db (jobs_updateStatus (job_id job) JobStatus.completed (Some 0%Z)) st in
      let st := upd_db (tickets_updateStatus (t_id ticket) TicketStatus.completed None) st in
      let st := emit (TicketStatusEvent (t_id ticket) TicketStatus.completed) st in
      emit (JobCompleted (t_id ticket)) st
    else
      let msg := default "Unknown error" errorMessage in
      let st := upd_db (jobs_updateStatus (job_id job) JobStatus.failed (Some 1%Z)) st in
      let st := upd_db (tickets_updateStatus (t_id ticket) TicketStatus.failed (Some msg)) st in
      let st := emit (TicketStatusEvent (t_id ticket) TicketStatus.failed) st in
      emit (JobFailed (t_id ticket) msg) st in
  tick st.

(** The [catch] of [runWorker]: the invocation ends in [finishWorker]. *)
Definition workerFailed (j : nat) (tk : Task) (message : string) (st : State) : State :=
  finishWorker (tk_job tk) (tk_ticket tk) (tk_project tk) false (Some message)
               (set_tasks (delete j (tasks st)) st).

(** The end of [runPlanPhase], after the next state of the ticket is decided. *)
Definition planCompleted (j : nat) (tk : Task) (st : State) : State :=
  let st := set_tasks (delete j (tasks st)) st in
  let st := upd_db (jobs_updateStatus (job_id (tk_job tk)) JobStatus.completed (Some 0%Z)) st in
  let st := set_activeWorkers (delete (t_id (tk_ticket tk)) (activeWorkers st)) st in
  tick st.

(** The head of the [while] loop of [runExecutePhase]. *)
Definition execLoopHead (j : nat) (tk : Task) (st : State) : State :=
  if tk_retryCount tk <=? maxRetries config then
    let st := runner_run (t_id (tk_ticket tk)) j st in
    set_pc j tk ExecAwaitSpawn st
  else workerFailed j tk "Execution failed after exhausting retries." st.

(** After the loop has ended with [success]. *)
Definition execSucceeded (j : nat) (tk : Task) (st : State) : State :=
  if configured (tk_lintCommand tk) then set_pc j tk ExecAwaitLint st
  else set_pc j tk ExecAwaitSummary (logStreamer_stop (job_id (tk_job tk)) st).

(** The child process of [runner.run] has been spawned. *)
Definition agentSpawned (j : nat) (tk : Task) (st : State) : State :=
  match tk_pc tk with
  | PlanAwaitSpawn =>
      set_pc j tk PlanAwaitClose
             (set_processes (<[t_id (tk_ticket tk) := j]> (processes st)) st)
  | ExecAwaitSpawn =>
      set_pc j tk ExecAwaitClose
             (set_processes (<[t_id (tk_ticket tk) := j]> (processes st)) st)
  | _ => st
  end.

(** The agent process has closed: [runner.run] resolves. *)
Definition agentClosed (j : nat) (tk : Task) (exitCode : Z) (output : string)
    (st : State) : State :=
  let ticketId := t_id (tk_ticket tk) in
  match tk_pc tk with
  | PlanAwaitClose =>
      let st := set_processes (delete ticketId (processes st)) st in
      let st := logStreamer_stop (job_id (tk_job tk)) st in
      if bool_decide (exitCode ≠ 0%Z) then
        workerFailed j tk ("Plan generation failed with exit code " +:+ string_of_Z exitCode) st
      else
        let st := upd_db (tickets_updatePlan ticketId (extractPlanFromOutput output)) st in
        if autoExecuteAfterPlan (p_settings (tk_project tk)) then
          match tickets_findById ticketId (db st) with
          | Some refreshed =>
              set_pc j tk PlanAwaitEnqueue (enqueueExecute (t_id refreshed) st)
          | None =>
              workerFailed j tk "Cannot read properties of undefined (reading 'id')" st
          end
        else
          let st := upd_db (tickets_updateStatus ticketId TicketStatus.plan_review None) st in
          let st := emit (TicketStatusEvent ticketId TicketStatus.plan_review) st in
          planCompleted j tk st
  | ExecAwaitClose =>
      let st := set_processes (delete ticketId (processes st)) st in
      if bool_decide (exitCode ≠ 0%Z) then
        workerFailed j tk ("Claude Code exited with code " +:+ string_of_Z exitCode) st
      else if configured (tk_testCommand tk) then
        let st := upd_db (tickets_updateStatus ticketId TicketStatus.testing None) st in
        let st := emit (TicketStatusEvent ticketId TicketStatus.testing) st in
        set_pc j tk ExecAwaitTest st
      else execSucceeded j tk st
  | _ => st
  end.

(** [await this.enqueueExecute(refreshed, project)] returns. *)
Definition planResumed (j : nat) (tk : Task) (st : State) : State :=
  match tk_pc tk with
  | PlanAwaitEnqueue => planCompleted j tk st
  | _ => st
  end.

(** [createWorktree] has resolved with [worktreePath]. *)
Definition worktreeReady (j : nat) (tk : Task) (worktreePath : string) (stack : StackInfo)
    (st : State) : State :=
  match tk_pc tk with
  | ExecAwaitWorktree =>
      let ticket := tk_ticket tk in
      let project := tk_project tk in
      let slug := slugify (title (t_row ticket)) in
      let branch := GitManager.branchName (branchPrefix config) (t_id ticket) slug in
      let st := upd_db (tickets_updateBranch (t_id ticket) branch worktreePath) st in
      let st := upd_db (tickets_updateStatus (t_id ticket) TicketStatus.in_progress None) st in
      let st := emit (TicketStatusEvent (t_id ticket) TicketStatus.in_progress) st in
      let st := logStreamer_watch (job_id (tk_job tk)) st in
      let tk := mkTask (tk_job tk) ticket project ExecAwaitWorktree 0 "" worktreePath
                       (nullish (testCommand (p_settings project)) (stack_testCommand stack))
                       (nullish (lintCommand (p_settings project)) (stack_lintCommand stack)) in
      execLoopHead j tk st
  | _ => st
  end.

(** The test command has exited. *)
Definition testExited (j : nat) (tk : Task) (exitCode : Z) (output : string)
    (st : State) : State :=
  match tk_pc tk with
  | ExecAwaitTest =>
      if bool_decide (exitCode = 0%Z) then execSucceeded j tk st
      else
        let retryCount := S (tk_retryCount tk) in
        let tk := mkTask (tk_job tk) (tk_ticket tk) (tk_project tk) ExecAwaitTest retryCount
                         output (tk_worktreePath tk) (tk_testCommand tk) (tk_lintCommand tk) in
        let st := upd_db (jobs_incrementRetry (job_id (tk_job tk))) st in
        if maxRetries config <? retryCount then
          workerFailed j tk (testsFailingMessage (maxRetries config) output) st
        else execLoopHead j tk st
  | _ => st
  end.

(** The lint command has exited or could not be run. *)
Definition lintDone (j : nat) (tk : Task) (st : State) : State :=
  match tk_pc tk with
  | ExecAwaitLint => set_pc j tk ExecAwaitSummary (logStreamer_stop (job_id (tk_job tk)) st)
  | _ => st
  end.

(** [getChangeSummary] has settled: with the changed files, or by throwing. *)
Definition summaryDone (j : nat) (tk : Task) (files : option (list string))
    (st : State) : State :=
  match tk_pc tk with
  | ExecAwaitSummary =>
      let st :=
        match files with
        | Some filesChanged =>
            upd_db (tickets_setMetadata (t_id (tk_ticket tk))
                      (mkMetadata (Some filesChanged) (Some (configured (tk_testCommand tk)))
                                  (Some (tk_retryCount tk)))) st
        | None => st
        end in
      finishWorker (tk_job tk) (tk_ticket tk) (tk_project tk) true None
                   (set_tasks (delete j (tasks st)) st)
  | _ => st
  end.

(** An awaited promise rejects: the binary is missing, the process cannot
    be spawned, git fails. *)
Definition workerThrew (j : nat) (tk : Task) (message : string) (st : State) : State :=
  match tk_pc tk with
  | PlanAwaitSpawn | ExecAwaitSpawn | ExecAwaitWorktree => workerFailed j tk message st
  | PlanAwaitClose | ExecAwaitClose =>
      workerFailed j tk message
                   (set_processes (delete (t_id (tk_ticket tk)) (processes st)) st)
  | _ => st
  end.

Inductive Action :=
  | EnqueuePlan (ticketId : string)
  | EnqueueExecute (ticketId : string)
  | Cancel (ticketId : string)
  | Tick
  | AgentSpawned (j : nat)
  | AgentClosed (j : nat) (exitCode : Z) (output : string)
  | PlanResumed (j : nat)
  | WorktreeReady (j : nat) (worktreePath : string) (stack : StackInfo)
  | TestExited (j : nat) (exitCode : Z) (output : string)
  | LintDone (j : nat)
  | SummaryDone (j : nat) (files : option (list string))
  | WorkerThrew (j : nat) (message : string).

Definition withTask (j : nat) (f : Task -> State -> State) (st : State) : State :=
  match tasks st !! j with
  | Some tk => f tk st
  | None => st
  end.

Definition step (a : Action) (st : State) : State :=
  match a with
  | EnqueuePlan t => enqueuePlan t st
  | EnqueueExecute t => enqueueExecute t st
  | Cancel t => cancel t st
  | Tick => tick st
  | AgentSpawned j => withTask j (agentSpawned j) st
  | AgentClosed j c o => withTask j (fun tk => agentClosed j tk c o) st
  | PlanResumed j => withTask j (planResumed j) st
  | WorktreeReady j p s => withTask j (fun tk => worktreeReady j tk p s) st
  | TestExited j c o => withTask j (fun tk => testExited j tk c o) st
  | LintDone j => withTask j (lintDone j) st
  | SummaryDone j f => withTask j (fun tk => summaryDone j tk f) st
  | WorkerThrew j m => withTask j (fun tk => workerThrew j tk m) st
  end.

Definition run (acts : list Action) (st : State) : State :=
  fold_left (fun s a => step a s) acts st.

(** The public calls and the timer alone. *)
Definition isCall (a : Action) : bool :=
  match a with
  | EnqueuePlan _ | EnqueueExecute _ | Cancel _ | Tick => true
  | _ => false
  end.

(** The worker a transition resumes. *)
Definition actsOn (a : Action) : option nat :=
  match a with
  | EnqueuePlan _ | EnqueueExecute _ | Cancel _ | Tick => None
  | AgentSpawned j | AgentClosed j _ _ | PlanResumed j | WorktreeReady j _ _
  | TestExited j _ _ | LintDone j | SummaryDone j _ | WorkerThrew j _ => Some j
  end.

End WithConfig.

(** The 'ticket:status' events of a stream. *)
Definition statusEvents (es : list Event) : list (string * TicketStatus.t) :=
  omap (fun e => match e with
                 | TicketStatusEvent t s => Some (t, s)
                 | _ => None
                 end) es.

End Orchestrator.

(** ** extension.ts and providers/ticketDetailProvider.ts: status writes
    outside the orchestrator *)

Module Extension.
Import Store.

Local Open Scope string_scope.

Definition interruptedMessage : string :=
  "Job interrupted by editor restart. Re-execute to try again.".

Definition interrupted (s : TicketStatus.t) : bool :=
  match s with
  | TicketStatus.in_progress | TicketStatus.planning | TicketStatus.testing => true
  | _ => false
  end.

(** [recoverInterruptedJobs(database, output)], run at activation. *)
Definition recoverInterruptedJobs (d : Db) : Db :=
  fold_left (fun d (kr : string * TicketRow) =>
               if interrupted (status kr.2)
               then tickets_updateStatus kr.1 TicketStatus.failed (Some interruptedMessage) d
               else d)
            (map_to_list (tickets d)) d.

(** The store write of [handleMerge] once the merge has succeeded. *)
Definition handleMerge_merged (ticketId : string) (d : Db) : Db :=
  tickets_updateStatus ticketId TicketStatus.merged None d.

(** The store write of [handleRegeneratePlan] before it enqueues. *)
Definition handleRegeneratePlan_reset (ticketId : string) (d : Db) : Db :=
  tickets_updateStatus ticketId TicketStatus.backlog None d.

End Extension.

(** [recoverInterruptedJobs] ticket by ticket. *)
Module Recovery.
Import Store Extension.

(** The body of the loop for one ticket of [findAll()]. *)
Definition recoverStep (d : Db) (kr : string * TicketRow) : Db :=
  if interrupted (status kr.2)
  then tickets_updateStatus kr.1 TicketStatus.failed (Some interruptedMessage) d
  else d.

(** A ticket row after the recovery. *)
Definition recovered (r : TicketRow) : TicketRow :=
  if interrupted (status r)
  then mkTicketRow (project_id r) (title r) TicketStatus.failed (plan r) (branch r)
                   (worktree_path r) (Some interruptedMessage) (metadata r)
  else r.

End Recovery.

(** ** Invariants of the orchestrator *)

Module OrchestratorInv.
Import Store Orchestrator.

Local Open Scope nat_scope.

(** The status writes and the 'ticket:status' events are the same sequence. *)
Definition Paired (st : State) : Prop :=
  statusLog (db st) = statusEvents (events st).

(** [activeWorkers] respects the global cap and the cap of every project. *)
Definition WithinCaps (config : OrchestratorConfig) (st : State) : Prop :=
  size (activeWorkers st) <= maxWorkers config
  /\ forall pid s, projects (db st) !! pid = Some s ->
       projectWorkerCount pid (activeWorkers st) <= maxParallelJobs s.

(** Two job tables with the same jobs, up to status and exit code. *)
Definition sameJob (r r' : JobRow) : Prop :=
  ticket_id r = ticket_id r' /\ phase r = phase r' /\ retry_count r = retry_count r'.

Definition sameJobs (m m' : gmap nat JobRow) : Prop :=
  forall j, match m !! j, m' !! j with
            | Some r, Some r' => sameJob r r'
            | None, None => True
            | _, _ => False
            end.

(** Every job that was not in the table [d0] has phase 'plan' or 'execute'. *)
Definition planOrExecute (r : JobRow) : Prop :=
  phase r = JobPhase.plan \/ phase r = JobPhase.execute.

Definition CreatedPlanOrExecute (d0 d : Db) : Prop :=
  forall j r, jobs d !! j = Some r -> jobs d0 !! j = None -> planOrExecute r.

(** What [cancel] writes in the rows it touches. *)
Definition cancelledRow (r : TicketRow) : TicketRow :=
  mkTicketRow (project_id r) (title r) TicketStatus.failed (plan r) (branch r)
              (worktree_path r) (Some cancelledMessage) (metadata r).

Definition cancelledJob (r : JobRow) : JobRow :=
  mkJobRow (ticket_id r) (phase r) JobStatus.failed (Some (-1)%Z) (retry_count r).

(** The queued job and the worker [cancel] finds for a ticket. *)
Definition queuedJob (t : string) (st : State) : option ExecutionJob :=
  fst <$> removeFirst t (queue st).

Definition cancelJobs (t : string) (st : State) : gmap nat JobRow :=
  let m := match queuedJob t st with
           | Some job => alter cancelledJob (job_id job) (jobs (db st))
           | None => jobs (db st)
           end in
  match activeWorkers st !! t with
  | Some w => alter cancelledJob (job_id (w_job w)) m
  | None => m
  end.

(** *** One active job per ticket *)

Definition activeRow (r : JobRow) : bool := JobStatus.active (job_status r).

Definition AtMostOneActive (m : gmap nat JobRow) : Prop :=
  forall j1 j2 r1 r2,
    m !! j1 = Some r1 -> m !! j2 = Some r2 -> ticket_id r1 = ticket_id r2 ->
    activeRow r1 = true -> activeRow r2 = true -> j1 = j2.

(** The queued jobs are the pending rows they stand for. *)
Definition QueuePending (q : list ExecutionJob) (m : gmap nat JobRow) : Prop :=
  forall job, job ∈ q ->
    exists r, m !! job_id job = Some r /\ ticket_id r = job_ticketId job
              /\ job_status r = JobStatus.pending.

(** A job that has left the 'pending' state (no operation brings it back). *)
Definition started (m : gmap nat JobRow) (j : nat) : Prop :=
  exists r, m !! j = Some r /\ job_status r <> JobStatus.pending.

(** The registered workers and the suspended invocations of [runWorker]
    serve started jobs; an invocation is filed under the identifier of its
    job. *)
Definition WorkersStarted (a : gmap string ActiveWorker) (m : gmap nat JobRow) : Prop :=
  forall k w, a !! k = Some w -> started m (job_id (w_job w)).

Definition TasksStarted (ts : gmap nat Task) (m : gmap nat JobRow) : Prop :=
  forall j tk, ts !! j = Some tk -> job_id (tk_job tk) = j /\ started m j.

(** No project asks for the execute job to be enqueued by the plan worker. *)
Definition manualExecute (s : ProjectSettings) : Prop := autoExecuteAfterPlan s = false.

Definition NoAutoExecute (st : State) : Prop :=
  map_Forall (fun _ s => manualExecute s) (projects (db st))
  /\ map_Forall (fun _ tk => manualExecute (p_settings (tk_project tk))) (tasks st).

Definition SchedInv (q : list ExecutionJob) (st : State) : Prop :=
  NoDup (job_id <$> q)
  /\ QueuePending q (jobs (db st))
  /\ WorkersStarted (activeWorkers st) (jobs (db st))
  /\ TasksStarted (tasks st) (jobs (db st))
  /\ NoAutoExecute st
  /\ AtMostOneActive (jobs (db st)).

(** The invariant at a moment when the worker of the started job [j] runs. *)
Definition WorkerInv (j : nat) (st : State) : Prop :=
  started (jobs (db st)) j /\ SchedInv (queue st) st.

(** A run of public calls, ticks and worker resumptions in which no
    ticket is enqueued while it has a pending or running job. *)
Definition callAllowed (a : Action) (st : State) : Prop :=
  match a with
  | EnqueuePlan t | EnqueueExecute t => activeJobs t (db st) = []
  | _ => True
  end.

Fixpoint guarded (config : OrchestratorConfig) (slugify extractPlanFromOutput : string -> string)
    (acts : list Action) (st : State) : Prop :=
  match acts with
  | [] => True
  | a :: acts' =>
      callAllowed a st
      /\ guarded config slugify extractPlanFromOutput acts'
                 (step config slugify extractPlanFromOutput a st)
  end.

(** *** The retry loop of one execute worker *)

(** What is known of job [j] at a moment: it is in the job table, it is
    not queued, its worker (if it has one) is [task], and [runner.run] has
    been called [n] times for it. *)
Definition JobFrame (j : nat) (task : option Task) (n : nat) (st : State) : Prop :=
  j ∈ dom (jobs (db st)) /\ (j ∉ (job_id <$> queue st))
  /\ tasks st !! j = task /\ agentInvocations j st = n.

(** The calls made so far, by the place the worker is at. *)
Definition retryBound (maxRetries : nat) (task : option Task) (n : nat) : Prop :=
  match task with
  | None => n <= S maxRetries
  | Some tk =>
      match tk_pc tk with
      | ExecAwaitWorktree => n = 0
      | ExecAwaitSpawn | ExecAwaitClose | ExecAwaitTest =>
          n = S (tk_retryCount tk) /\ tk_retryCount tk <= maxRetries
      | _ => n <= S maxRetries
      end
  end.

Definition RetryInv (maxRetries : nat) (j : nat) (st : State) : Prop :=
  exists task n, JobFrame j task n st /\ retryBound maxRetries task n.

(** What a run of the retry loop leaves in the stores: the metadata and
    the final state of the ticket, the retry counter of the job row. *)
Definition ticketMeta (tid : string) (m : TicketMetadata) (d : Db) : Prop :=
  exists row, tickets d !! tid = Some row /\ metadata row = m.

Definition ticketFailed (tid : string) (msg : string) (m : TicketMetadata) (d : Db) : Prop :=
  exists row, tickets d !! tid = Some row /\ status row = TicketStatus.failed
              /\ error row = Some msg /\ metadata row = m.

Definition jobRetries (j n : nat) (d : Db) : Prop :=
  exists r, jobs d !! j = Some r /\ retry_count r = n.

(** The worker of job [j] is inside the [while] loop at [pc] with
    [retryCount = k] and a test command: it is in attempt [k + 1]. *)
Definition InLoop (pc : Pc) (j k : nat) (tid : string) (m : TicketMetadata) (rc : nat)
    (st : State) : Prop :=
  exists tk, JobFrame j (Some tk) (S k) st
    /\ tk_pc tk = pc /\ tk_retryCount tk = k
    /\ job_id (tk_job tk) = j /\ t_id (tk_ticket tk) = tid
    /\ configured (tk_testCommand tk) = true
    /\ ticketMeta tid m (db st) /\ jobRetries j (rc + k) (db st).

(** The agent succeeds and the test command fails, [n] times from
    attempt [i] on. *)
Fixpoint failingAttempts (j : nat) (codes : nat -> Z) (outs : nat -> string) (i n : nat)
    : list Action :=
  match n with
  | O => []
  | S n' =>
      AgentSpawned j :: AgentClosed j 0%Z "" :: TestExited j (codes i) (outs i)
        :: failingAttempts j codes outs (S i) n'
  end.

(** *** What a run keeps *)

(** The rows of [d] are still in [d'], with their ticket and phase, and
    retry counters that have not gone down. *)
Definition JobsKept (d d' : Db) : Prop :=
  forall j r, jobs d !! j = Some r ->
    exists r', jobs d' !! j = Some r' /\ ticket_id r' = ticket_id r /\ phase r' = phase r
               /\ retry_count r <= retry_count r'.

(** The same tickets, each in its project and with its title, and the
    same projects. *)
Definition TicketsKept (d d' : Db) : Prop :=
  projects d' = projects d
  /\ forall t, match tickets d !! t, tickets d' !! t with
                | Some row, Some row' => project_id row' = project_id row /\ title row' = title row
                | None, None => True
                | _, _ => False
                end.

(** The queue [q'] holds jobs of [q], in the order of [q], followed by
    jobs created since [d]. *)
Definition QueueKept (q : list ExecutionJob) (d : Db) (q' : list ExecutionJob) (d' : Db)
    : Prop :=
  dom (jobs d) ⊆ dom (jobs d')
  /\ exists kept newer, q' = kept ++ newer /\ kept `sublist_of` q
                        /\ Forall (fun job => job_id job ∉ dom (jobs d)) newer.

(** *** How a worker ends *)

Definition ticketCompleted (tid : string) (m : TicketMetadata) (d : Db) : Prop :=
  exists row, tickets d !! tid = Some row /\ status row = TicketStatus.completed
              /\ error row = None /\ metadata row = m.

Definition ticketInReview (tid : string) (p : string) (d : Db) : Prop :=
  exists row, tickets d !! tid = Some row /\ status row = TicketStatus.plan_review
              /\ error row = None /\ plan row = Some p.

Definition jobEnded (j : nat) (s : JobStatus.t) (code : Z) (retries : nat) (d : Db) : Prop :=
  exists r, jobs d !! j = Some r /\ job_status r = s /\ exit_code r = Some code
            /\ retry_count r = retries.

(** The worker of job [j] is at [pc] of the execute phase with
    [retryCount = k]; [tests] tells whether it has a test command. *)
Definition AtPc (pc : Pc) (tests : bool) (j k : nat) (tid : string) (rc : nat)
    (st : State) : Prop :=
  exists tk, JobFrame j (Some tk) (S k) st
    /\ tk_pc tk = pc /\ tk_retryCount tk = k
    /\ job_id (tk_job tk) = j /\ t_id (tk_ticket tk) = tid
    /\ configured (tk_testCommand tk) = tests
    /\ is_Some (tickets (db st) !! tid) /\ jobRetries j (rc + k) (db st).

(** The agent exits 0, the test command (if there is one) exits 0, the
    lint command (if there is one) settles and the change summary lists
    [files].  Without a test command the worker never waits for
    [TestExited], without a lint command never for [LintDone]: those
    transitions then find the worker elsewhere and do nothing. *)
Definition passingAttempt (j : nat) (out : string) (files : list string) : list Action :=
  [AgentSpawned j; AgentClosed j 0%Z ""; TestExited j 0%Z out; LintDone j;
   SummaryDone j (Some files)].

End OrchestratorInv.

(** ** What an observer of the events sees *)

Module Observer.
Import Store Orchestrator.

(** The status of every ticket as an observer tracks it: the statuses at
    the start, overwritten by each 'ticket:status' event in turn. *)
Definition observe (es : list (string * TicketStatus.t))
    (view : gmap string TicketStatus.t) : gmap string TicketStatus.t :=
  fold_left (fun v e => alter (fun _ => e.2) e.1 v) es view.

Definition statuses (d : Db) : gmap string TicketStatus.t := status <$> tickets d.

End Observer.

(** ** Sample data for the examples *)

Module Sample.
Import Store Orchestrator.

Local Open Scope string_scope.
Local Open Scope nat_scope.

Definition ticketRow (projectId ticketTitle : string) (s : TicketStatus.t) : TicketRow :=
  mkTicketRow projectId ticketTitle s None None None None (mkMetadata None None None).

(** One project with three tickets in the backlog. *)
Definition sampleDb (cap : nat) (auto : bool) (test : option string) : Db :=
  mkDb (<["A" := ticketRow "P" "first" TicketStatus.backlog]>
        (<["B" := ticketRow "P" "second" TicketStatus.backlog]>
         (<["C" := ticketRow "P" "third" TicketStatus.backlog]> ∅)))
       (<["P" := mkSettings cap auto test None]> ∅)
       ∅ [].


Definition noStack : StackInfo := mkStack None None.


(** The helpers are of no consequence where only the scheduling matters. *)
Definition plainText (s : string) : string := s.

End Sample.

(** * Properties *)

(** ** Lines of a text *)

Section Lines.
Import Js.

Lemma split_lf_nonempty (s : jsstring) : split_lf s ≠ [].
Proof.
  destruct s as [|c s]; simpl; [done|].
  destruct (c =? LF)%Z; [done|]. by destruct (split_lf s).
Qed.

Lemma split_lf_last (s : jsstring) : split_lf s = complete_lines s ++ [trailing s].
Proof. apply app_removelast_last, split_lf_nonempty. Qed.

Lemma conshead_app (c : Z) (l1 l2 : list jsstring) :
  l1 ≠ [] -> conshead c (l1 ++ l2) = conshead c l1 ++ l2.
Proof. by destruct l1. Qed.

Lemma removelast_cons_ne {A} (x : A) (l : list A) :
  l ≠ [] -> List.removelast (x :: l) = x :: List.removelast l.
Proof. by destruct l. Qed.

Lemma last_cons_ne {A} (x d : A) (l : list A) :
  l ≠ [] -> List.last (x :: l) d = List.last l d.
Proof. by destruct l. Qed.

Lemma last_app_ne {A} (l1 l2 : list A) (d : A) :
  l2 ≠ [] -> List.last (l1 ++ l2) d = List.last l2 d.
Proof.
  intros Hne. induction l1 as [|x l1 IH]; [done|].
  change ((x :: l1) ++ l2) with (x :: (l1 ++ l2)).
  rewrite last_cons_ne; [done|]. by destruct l1, l2.
Qed.

(** Splitting a concatenation: the lines closed inside [a], then the
    split of what [a] left open followed by [b].  This is the buffering
    step of both line readers. *)
Lemma split_lf_app (a b : jsstring) :
  split_lf (a ++ b) = complete_lines a ++ split_lf (trailing a ++ b).
Proof.
  unfold complete_lines, trailing.
  induction a as [|c a IH]; simpl; [done|].
  pose proof (split_lf_nonempty a) as Hne.
  destruct (c =? LF)%Z eqn:Ec.
  - rewrite removelast_cons_ne, last_cons_ne by done. simpl. by rewrite IH.
  - rewrite IH. destruct (split_lf a) as [|h t] eqn:E; [done|]. simpl.
    destruct t as [|h' t]; simpl; [by rewrite Ec|done].
Qed.

Lemma complete_lines_app (a b : jsstring) :
  complete_lines (a ++ b) = complete_lines a ++ complete_lines (trailing a ++ b).
Proof.
  unfold complete_lines at 1. rewrite split_lf_app.
  rewrite removelast_app by apply split_lf_nonempty. done.
Qed.

Lemma trailing_app (a b : jsstring) : trailing (a ++ b) = trailing (trailing a ++ b).
Proof.
  unfold trailing at 1. rewrite split_lf_app.
  rewrite last_app_ne by apply split_lf_nonempty. done.
Qed.

End Lines.

(** ** The subprocess runner (claudeCodeRunner.ts) *)

Section RunnerProps.
Import Js Runner.

Lemma handleData_spec (text : jsstring) (c : Buffer) (st : RunState) :
  outputBuffer st = text ->
  lineBuffer st = trailing text ->
  onLine st = List.filter truthy (complete_lines text) ->
  outputBuffer (handleData c st) = text ++ toString c
  /\ lineBuffer (handleData c st) = trailing (text ++ toString c)
  /\ onLine (handleData c st) = List.filter truthy (complete_lines (text ++ toString c)).
Proof.
  intros Ho Hl Hn. unfold handleData; simpl. rewrite Ho, Hl, Hn.
  split; [done|]. split.
  - symmetry. apply trailing_app.
  - rewrite complete_lines_app, List.filter_app. done.
Qed.

Lemma feed_spec (chunks : list Buffer) (text : jsstring) (st : RunState) :
  outputBuffer st = text ->
  lineBuffer st = trailing text ->
  onLine st = List.filter truthy (complete_lines text) ->
  outputBuffer (feed chunks st) = text ++ stream_text chunks
  /\ lineBuffer (feed chunks st) = trailing (text ++ stream_text chunks)
  /\ onLine (feed chunks st)
     = List.filter truthy (complete_lines (text ++ stream_text chunks)).
Proof.
  revert text st. induction chunks as [|c chunks IH]; intros text st Ho Hl Hn.
  - unfold stream_text; simpl. by rewrite app_nil_r.
  - destruct (handleData_spec text c st Ho Hl Hn) as (Ho' & Hl' & Hn').
    destruct (IH _ _ Ho' Hl' Hn') as (H1 & H2 & H3).
    unfold stream_text in *; simpl. rewrite app_assoc. done.
Qed.

Lemma feed_logStream (chunks : list Buffer) (st : RunState) :
  logStream (feed chunks st) = logStream st ++ concat chunks.
Proof.
  revert st. induction chunks as [|c chunks IH]; intros st; simpl.
  - by rewrite app_nil_r.
  - unfold feed in IH. rewrite IH. simpl. by rewrite app_assoc.
Qed.

(** The handlers over the text the chunks decode to one by one. *)
Lemma runner_lines_of_decoded_chunks (chunks : list Buffer) :
  let text := stream_text chunks in
  let st := feed chunks run_start in
  onLine st = List.filter truthy (complete_lines text)
  /\ lineBuffer st = trailing text
  /\ onLine (handleClose st)
     = List.filter truthy (complete_lines text)
       ++ (if truthy (trailing text) then [trailing text] else [])
  /\ outputBuffer (handleClose st) = text
  /\ logStream (handleClose st) = concat chunks.
Proof.
  intros text st.
  destruct (feed_spec chunks [] run_start eq_refl eq_refl eq_refl) as (Ho & Hl & Hn).
  simpl in Ho, Hl, Hn. fold text in Ho, Hl, Hn. fold st in Ho, Hl, Hn.
  pose proof (feed_logStream chunks run_start) as Hg. simpl in Hg. fold st in Hg.
  unfold handleClose. rewrite Hl.
  destruct (truthy (trailing text)); simpl; rewrite ?Hn, ?Hl, ?app_nil_r; done.
Qed.

(** C7, counterexample: one chunk holding the bytes of "a\n\nb\n".  The
    stream has three complete lines, the second one empty; [onLine] is
    called twice. *)
Lemma runner_skips_blank_line :
  let chunks := [[97; 10; 10; 98; 10]%Z] in
  onLine (handleClose (feed chunks run_start)) = [[97%Z]; [98%Z]]
  /\ complete_lines (toString (concat chunks)) = [[97%Z]; []; [98%Z]]
  /\ onLine (handleClose (feed chunks run_start))
     <> complete_lines (toString (concat chunks)).
Proof. vm_compute. repeat split; congruence. Qed.

End RunnerProps.

(** ** The log tailer (logStreamer.ts) *)

Section LogStreamerProps.
Import Js LogStreamer.

Lemma toString_ascii (bs : Buffer) : ascii_bytes bs -> toString bs = bs.
Proof.
  unfold toString. induction 1 as [|b bs Hb _ IH]; [done|].
  cbn [utf8_decode_from]. unfold utf8_step, utf8_lead. cbn [u_needed utf8_init].
  destruct (b <=? 127)%Z eqn:E; [|lia]. simpl. by rewrite IH.
Qed.

Lemma byteLength_ascii (s : jsstring) : ascii_bytes s -> byteLength s = Z.of_nat (length s).
Proof.
  induction 1 as [|c s Hc _ IH]; [done|].
  simpl length. rewrite Nat2Z.inj_succ. simpl. rewrite IH. unfold cp_bytes.
  destruct (c <? 128)%Z eqn:E; lia.
Qed.

Lemma split_lf_single (s : jsstring) : split_lf s = [[]] -> s = [].
Proof.
  destruct s as [|c s]; [done|]. simpl.
  pose proof (split_lf_nonempty s).
  destruct (c =? LF)%Z; destruct (split_lf s); simpl; congruence.
Qed.

(** A text is the lines it closes followed by what it leaves open. *)
Lemma split_decompose (s : jsstring) :
  exists closed, s = closed ++ trailing s /\ split_lf closed = complete_lines s ++ [[]].
Proof.
  induction s as [|c s (closed & Hs & Hc)].
  - by exists [].
  - pose proof (split_lf_nonempty s) as Hne.
    pose proof (split_lf_last s) as Hl.
    unfold complete_lines, trailing in *.
    remember (List.last (split_lf s) []) as x eqn:Hx.
    remember (List.removelast (split_lf s)) as ls eqn:Hls.
    cbn [split_lf]. destruct (c =? LF)%Z eqn:Ec.
    + exists (c :: closed). rewrite removelast_cons_ne, last_cons_ne by done.
      rewrite <- Hx, <- Hls. simpl. rewrite Ec, Hc. split; [by f_equal|done].
    + rewrite Hl. destruct ls as [|h t].
      * exists []. simpl in Hc. apply split_lf_single in Hc. subst closed.
        simpl. split; [|done]. simpl in Hs. by rewrite <- Hs.
      * exists (c :: closed). simpl. rewrite Ec, Hc. simpl.
        assert (t ++ [x] ≠ []) as Hne' by (by destruct t).
        destruct (t ++ [x]) as [|y l] eqn:Et; [done|]. rewrite <- Et.
        rewrite removelast_last, last_last. split; [by f_equal|done].
Qed.

Lemma tail_inv_append (file bs : Buffer) (st : WatchState) :
  ascii_bytes bs -> tail_inv file st -> tail_inv (file ++ bs) st.
Proof.
  intros Hb (Ha & closed & rest & Hf & Ho & Ht & He). split.
  - by apply Forall_app.
  - exists closed, (rest ++ bs). rewrite Hf, app_assoc. done.
Qed.

Lemma poll_spec (file : Buffer) (st : WatchState) :
  tail_inv file st ->
  emitted (poll file st) = List.filter truthy (complete_lines file)
  /\ offset (poll file st) = (Z.of_nat (length file) - Z.of_nat (length (trailing file)))%Z
  /\ tail_inv file (poll file st).
Proof.
  intros (Ha & closed & rest & -> & Ho & Ht & He).
  assert (complete_lines (closed ++ rest) = complete_lines closed ++ complete_lines rest
          /\ trailing (closed ++ rest) = trailing rest) as [Hcl Htr].
  { rewrite complete_lines_app, trailing_app, Ht. done. }
  apply Forall_app in Ha as [Hac Hr].
  unfold poll. rewrite Ho, length_app, Nat2Z.inj_add.
  destruct (Z.leb_spec (Z.of_nat (length closed) + Z.of_nat (length rest))
                       (Z.of_nat (length closed))) as [E1|E1].
  - assert (rest = []) as -> by (destruct rest; [done|simpl length in E1; lia]).
    rewrite app_nil_r in *. rewrite Ht, He. simpl.
    split; [done|]. split; [lia|].
    split; [done|]. exists closed, []. by rewrite app_nil_r.
  - destruct (Z.ltb_spec (Z.of_nat (length closed)) (-1)) as [E2|E2]; [lia|].
    destruct (Z.eqb_spec (Z.of_nat (length closed)) (-1)) as [E3|E3]; [lia|].
    rewrite Nat2Z.id, drop_app_length.
    rewrite (toString_ascii rest Hr).
    destruct (split_decompose rest) as (closed' & Hr' & Hc').
    fold (trailing rest). fold (complete_lines rest).
    assert (ascii_bytes (trailing rest)) as Hat.
    { rewrite Hr' in Hr. by apply Forall_app in Hr as [_ ?]. }
    assert ((if truthy (trailing rest)
             then Z.of_nat (length closed) + Z.of_nat (length rest) - byteLength (trailing rest)
             else Z.of_nat (length closed) + Z.of_nat (length rest))%Z
            = (Z.of_nat (length closed) + Z.of_nat (length rest)
               - Z.of_nat (length (trailing rest)))%Z) as Hoff.
    { rewrite (byteLength_ascii _ Hat). destruct (trailing rest); simpl; lia. }
    cbn [emitted offset]. rewrite Hoff, He, Hcl, Htr, List.filter_app.
    split; [done|]. split; [done|].
    split; [by apply Forall_app|].
    exists (closed ++ closed'), (trailing rest). cbn [emitted offset].
    split; [by rewrite <- app_assoc, <- Hr'|].
    split.
    { rewrite length_app, Nat2Z.inj_add. rewrite Hr' at 1.
      rewrite length_app, Nat2Z.inj_add. lia. }
    split.
    { rewrite trailing_app, Ht. simpl. unfold trailing. rewrite Hc'.
      by rewrite last_app_ne. }
    rewrite complete_lines_app, Ht. simpl.
    unfold complete_lines at 4. rewrite Hc', removelast_app by done.
    simpl. by rewrite app_nil_r, List.filter_app.
Qed.

Lemma file_run_inv (ops : list FileOp) (s : Buffer * WatchState) :
  Forall ascii_op ops -> tail_inv s.1 s.2 -> tail_inv (file_run ops s).1 (file_run ops s).2.
Proof.
  intros Hops. revert s. induction Hops as [|op ops Hop _ IH]; intros s Hs; [done|].
  simpl. apply IH. destruct op as [bs|]; simpl.
  - by apply tail_inv_append.
  - by apply poll_spec.
Qed.

(** C6 (as the code has it): whatever ASCII bytes are appended to the
    watched file and whenever the timer fires, after a poll the lines
    emitted so far are exactly the non-empty newline-terminated lines of
    the file, in order (none partial, none twice), and the offset is rolled
    back to the start of the trailing partial line. *)
Theorem poll_emits_nonempty_complete_lines (ops : list FileOp) :
  Forall ascii_op ops ->
  let s := file_run (ops ++ [Poll]) ([], watch_start) in
  emitted s.2 = List.filter truthy (complete_lines (toString s.1))
  /\ offset s.2
     = (Z.of_nat (length s.1) - Z.of_nat (length (trailing (toString s.1))))%Z.
Proof.
  intros Hops s. subst s. unfold file_run. rewrite fold_left_app. simpl.
  fold (file_run ops ([], watch_start)).
  assert (tail_inv (file_run ops ([], watch_start)).1 (file_run ops ([], watch_start)).2) as Hinv.
  { apply file_run_inv; [done|]. split; [constructor|]. by exists [], []. }
  destruct (poll_spec _ _ Hinv) as (He & Ho & _).
  rewrite toString_ascii by apply Hinv. done.
Qed.

(** The theorem at a concrete history: a line cut in two by the writer. *)
Lemma poll_emits_nonempty_complete_lines_witness :
  let ops := [Append [97; 98; 10; 99]%Z; Poll; Append [100; 10; 101]%Z] in
  Forall ascii_op ops
  /\ emitted (file_run (ops ++ [Poll]) ([], watch_start)).2 = [[97; 98]%Z; [99; 100]%Z].
Proof.
  intros ops.
  assert (Forall ascii_op ops) as H.
  { repeat constructor; lia. }
  split; [exact H|].
  exact (proj1 (poll_emits_nonempty_complete_lines ops H)).
Defined.

(** C6, counterexample: the bytes of "a\n\nb\n" are appended and polled.
    The file has three complete lines; two 'line' events are emitted. *)
Lemma poll_skips_blank_line :
  let s := file_run [Append [97; 10; 10; 98; 10]%Z; Poll] ([], watch_start) in
  emitted s.2 = [[97%Z]; [98%Z]]
  /\ complete_lines (toString s.1) = [[97%Z]; []; [98%Z]]
  /\ emitted s.2 <> complete_lines (toString s.1).
Proof. vm_compute. repeat split; congruence. Qed.

(** A two-byte character cut by a poll: the decoded chunk ends in U+FFFD,
    whose encoding is longer than the byte that was read, the offset falls
    back to 0 and the line "a" is emitted a second time. *)
Example poll_split_character_repeats_line :
  let s := file_run [Append [97; 10; 195]%Z; Poll; Append [169; 10]%Z; Poll]
                    ([], watch_start) in
  emitted s.2 = [[97%Z]; [97%Z]; [233%Z]].
Proof. reflexivity. Qed.

(** Two of the three bytes of U+20AC are polled: the text kept back is
    one U+FFFD, three bytes long, and the offset falls to -1.  The next
    poll reads the file from its start, with a byte 0 behind it. *)
Example poll_from_offset_minus_one :
  let s1 := file_run [Append [226; 130]%Z; Poll] ([], watch_start) in
  let s2 := file_run [Append [172; 10]%Z; Poll] s1 in
  offset s1.2 = (-1)%Z
  /\ emitted s2.2 = [[8364%Z]]
  /\ offset s2.2 = 3%Z.
Proof. vm_compute. repeat split; reflexivity. Qed.

End LogStreamerProps.

(** ** The runner on ASCII output *)

Section RunnerAscii.
Import Js Runner.

Lemma stream_text_ascii (chunks : list Buffer) :
  Forall ascii_bytes chunks -> stream_text chunks = concat chunks.
Proof.
  unfold stream_text. induction 1 as [|c chunks Hc _ IH]; [done|].
  simpl. by rewrite toString_ascii, IH.
Qed.

Lemma concat_ascii (chunks : list Buffer) :
  Forall ascii_bytes chunks -> ascii_bytes (concat chunks).
Proof.
  induction 1 as [|c chunks Hc _ IH]; [constructor|]. simpl. by apply Forall_app.
Qed.

(** C7 (as the code has it): for every sequence of chunks of ASCII bytes,
    [onLine] receives, in order, exactly the non-empty newline-terminated
    lines of the concatenated stream; what follows the last line feed is
    buffered, and delivered once at close when it is not empty; the
    resolved output is the concatenation of the chunks and the log file
    receives the same bytes. *)
Theorem runner_delivers_nonempty_lines (chunks : list Buffer) :
  Forall ascii_bytes chunks ->
  let text := toString (concat chunks) in
  let st := feed chunks run_start in
  onLine st = List.filter truthy (complete_lines text)
  /\ lineBuffer st = trailing text
  /\ onLine (handleClose st)
     = List.filter truthy (complete_lines text)
       ++ (if truthy (trailing text) then [trailing text] else [])
  /\ outputBuffer (handleClose st) = text
  /\ logStream (handleClose st) = concat chunks.
Proof.
  intros Ha text st.
  assert (text = stream_text chunks) as ->.
  { unfold text. rewrite toString_ascii by (by apply concat_ascii).
    symmetry. by apply stream_text_ascii. }
  apply runner_lines_of_decoded_chunks.
Qed.

(** The theorem at two chunks that cut the second line: "ab\nc" and
    "d\n\ne". *)
Lemma runner_delivers_nonempty_lines_witness :
  let chunks := [[97; 98; 10; 99]; [100; 10; 10; 101]]%Z in
  Forall ascii_bytes chunks
  /\ onLine (feed chunks run_start) = [[97; 98]; [99; 100]]%Z
  /\ lineBuffer (feed chunks run_start) = [101%Z]
  /\ onLine (handleClose (feed chunks run_start)) = [[97; 98]; [99; 100]; [101]]%Z
  /\ outputBuffer (handleClose (feed chunks run_start)) = concat chunks.
Proof.
  intros chunks.
  assert (Forall ascii_bytes chunks) as Ha.
  { unfold chunks, ascii_bytes. repeat (apply Forall_cons; split); try apply Forall_nil; lia. }
  split; [exact Ha|].
  destruct (runner_delivers_nonempty_lines chunks Ha) as (H1 & H2 & H3 & H4 & _).
  rewrite H1, H2, H3, H4. vm_compute. repeat split; reflexivity.
Defined.

(** Each chunk is decoded on its own: the two bytes of U+00E9, cut by a
    chunk boundary, reach [onLine] and the output as two U+FFFD, while the
    log file holds the bytes of the character. *)
Example runner_split_character_is_replaced :
  let chunks := [[195]; [169; 10]]%Z in
  let st := handleClose (feed chunks run_start) in
  onLine st = [[65533; 65533]]%Z
  /\ outputBuffer st = [65533; 65533; 10]%Z
  /\ toString (logStream st) = [233; 10]%Z.
Proof. vm_compute. repeat split; reflexivity. Qed.

End RunnerAscii.

(** ** The template renderer (templateEngine.ts) *)

Section TemplateProps.
Import Js TemplateEngine.

Lemma replaceBlocks_absent (fuel : nat) (o c : jsstring) (inc : bool) (s : jsstring) :
  occurs o s = false -> replaceBlocks fuel o c inc s = s.
Proof.
  unfold occurs. intros H. destruct fuel; simpl; [done|].
  by destruct (find_first o s).
Qed.

Lemma replaceAll_absent (s token value : jsstring) :
  occurs token s = false -> replaceAll s token value = s.
Proof.
  unfold occurs, replaceAll. intros H. destruct (length s); simpl; [done|].
  by destruct (find_first token s).
Qed.

Lemma trimStart_idem (s : jsstring) : trimStart (trimStart s) = trimStart s.
Proof.
  induction s as [|c s IH]; simpl; [done|].
  destruct (is_ws c) eqn:E; [done|]. simpl. by rewrite E.
Qed.

Lemma trimStart_snoc (s : jsstring) (c : Z) :
  is_ws c = false -> trimStart (s ++ [c]) = trimStart s ++ [c].
Proof.
  intros Hc. induction s as [|a s IH]; simpl; [by rewrite Hc|].
  by destruct (is_ws a).
Qed.

Lemma trimStart_head (s : jsstring) :
  trimStart s = [] \/ exists c r, trimStart s = c :: r /\ is_ws c = false.
Proof.
  induction s as [|c s IH]; simpl; [by left|].
  destruct (is_ws c) eqn:E; [done|]. right. by exists c, s.
Qed.

Lemma trimEnd_idem (s : jsstring) : trimEnd (trimEnd s) = trimEnd s.
Proof. unfold trimEnd. by rewrite rev_involutive, trimStart_idem. Qed.

Lemma trim_idem (s : jsstring) : trim (trim s) = trim s.
Proof.
  unfold trim. destruct (trimStart_head s) as [->|(c & r & -> & Hc)]; [done|].
  assert (trimEnd (c :: r) = c :: rev (trimStart (rev r))) as ->.
  { unfold trimEnd. simpl. rewrite trimStart_snoc by done.
    by rewrite rev_app_distr. }
  simpl. rewrite Hc.
  change (c :: rev (trimStart (rev r))) with ([c] ++ rev (trimStart (rev r))).
  unfold trimEnd. rewrite rev_app_distr, rev_involutive. simpl.
  rewrite trimStart_snoc by done. rewrite trimStart_idem.
  by rewrite rev_app_distr.
Qed.

(** C9 (as the code has it): when the rendered text holds none of the
    eight tokens and neither opening tag, rendering it again with the same
    context gives the same text. *)
Theorem renderTemplate_idempotent_without_markers
    (template : jsstring) (ctx : TemplateContext) :
  marker_free ctx (renderTemplate template ctx) ->
  renderTemplate (renderTemplate template ctx) ctx = renderTemplate template ctx.
Proof.
  intros Hfree.
  assert (trim (renderTemplate template ctx) = renderTemplate template ctx) as Htrim.
  { unfold renderTemplate. apply trim_idem. }
  set (r := renderTemplate template ctx) in *.
  unfold marker_free, markers, substitutions in Hfree. cbn [map fst app] in Hfree.
  repeat match goal with
         | H : Forall _ (_ :: _) |- _ => apply Forall_cons in H as [? H]
         end.
  unfold renderTemplate at 1. unfold renderConditionalBlock.
  rewrite (replaceBlocks_absent _ _ _ _ r) by assumption.
  rewrite (replaceBlocks_absent _ _ _ _ r) by assumption.
  unfold substitute, substitutions. cbn [fold_left fst snd].
  do 8 (rewrite (replaceAll_absent r) by assumption). exact Htrim.
Qed.

(** The theorem at a concrete template with a conditional block. *)
Lemma renderTemplate_idempotent_without_markers_witness :
  let template :=
    str "  Fix {{TICKET_TITLE}} in {{PROJECT_NAME}}{{#ATTACHMENTS}} see {{ATTACHMENT_DESCRIPTIONS}}{{/ATTACHMENTS}} run {{TEST_COMMAND}} " in
  let ctx := mkContext (str "login") (str "d") (str "shop") [] [] [] None None in
  marker_free ctx (renderTemplate template ctx)
  /\ renderTemplate (renderTemplate template ctx) ctx = str "Fix login in shop run (not configured)".
Proof.
  intros template ctx.
  assert (marker_free ctx (renderTemplate template ctx)) as H.
  { vm_compute. repeat constructor. }
  split; [exact H|].
  rewrite (renderTemplate_idempotent_without_markers template ctx H).
  reflexivity.
Defined.

(** C9, counterexample: the description holds a token that the first
    rendering has already passed; the second rendering replaces it.  No
    conditional section is present. *)
Lemma renderTemplate_not_idempotent :
  let template := str "{{TICKET_DESCRIPTION}}" in
  let ctx := mkContext (str "T") (str "{{TICKET_TITLE}}") [] [] [] [] None None in
  renderTemplate template ctx = str "{{TICKET_TITLE}}"
  /\ renderTemplate (renderTemplate template ctx) ctx = str "T"
  /\ renderTemplate (renderTemplate template ctx) ctx <> renderTemplate template ctx.
Proof. vm_compute. repeat split; congruence. Qed.

End TemplateProps.

(** ** The orchestrator (orchestrator.ts) *)

(** Projections of a state or database built by the setters. *)
Ltac orch_proj :=
  cbn [Orchestrator.db Orchestrator.queue Orchestrator.activeWorkers Orchestrator.tasks
       Orchestrator.processes Orchestrator.signals Orchestrator.runnerCalls
       Orchestrator.watchers Orchestrator.events Store.tickets Store.projects Store.jobs
       Store.statusLog
       Orchestrator.emit Orchestrator.upd_db Orchestrator.set_queue
       Orchestrator.set_activeWorkers Orchestrator.set_tasks Orchestrator.set_processes
       Orchestrator.set_signals Orchestrator.set_runnerCalls Orchestrator.set_watchers
       Orchestrator.set_events Orchestrator.set_pc Orchestrator.runner_run
       Orchestrator.logStreamer_stop Orchestrator.logStreamer_watch
       Store.tickets_updateStatus Store.tickets_updatePlan
       Store.tickets_updateBranch Store.tickets_setMetadata Store.jobs_updateStatus
       Store.jobs_incrementRetry fst snd] in *.

Section TickLoop.
Import Store Orchestrator OrchestratorInv.
Local Open Scope nat_scope.

Variable config : OrchestratorConfig.

(** The loop of [tick], with the jobs already passed over kept in front:
    a property of queue and state that survives dropping a job and
    starting one survives the loop. *)
Lemma tick_loop_acc (I : list ExecutionJob -> State -> Prop) :
  (forall kept job rest st, I (kept ++ job :: rest) st -> I (kept ++ rest) st) ->
  (forall kept job rest st ticket project,
      I (kept ++ job :: rest) st ->
      tickets_findById (job_ticketId job) (db st) = Some ticket ->
      projects_findById (project_id (t_row ticket)) (db st) = Some project ->
      size (activeWorkers st) < maxWorkers config ->
      projectWorkerCount (p_id project) (activeWorkers st)
        < maxParallelJobs (p_settings project) ->
      I (kept ++ rest) (dispatch job ticket project st)) ->
  forall q kept st,
    I (kept ++ q) st ->
    I (kept ++ (tick_loop config q st).1) (tick_loop config q st).2.
Proof.
  intros Hdrop Hstart. induction q as [|job rest IH]; intros kept st HI; [done|].
  cbn [tick_loop].
  destruct (Nat.leb_spec (maxWorkers config) (size (activeWorkers st))) as [Hw|Hw]; [done|].
  destruct (tickets_findById (job_ticketId job) (db st)) as [ticket|] eqn:Et;
    [|by eapply IH, Hdrop].
  destruct (projects_findById (project_id (t_row ticket)) (db st)) as [project|] eqn:Ep;
    [|by eapply IH, Hdrop].
  destruct (Nat.leb_spec (maxParallelJobs (p_settings project))
              (projectWorkerCount (p_id project) (activeWorkers st))) as [Hp|Hp].
  - specialize (IH (kept ++ [job]) st). rewrite <- !app_assoc in IH. simpl in IH.
    destruct (tick_loop config rest st) as [q' st']. simpl in *. by apply IH.
  - by eapply IH, Hstart.
Qed.

Lemma tick_acc (I : list ExecutionJob -> State -> Prop) :
  (forall q q0 st, I q st -> I q (set_queue q0 st)) ->
  (forall kept job rest st, I (kept ++ job :: rest) st -> I (kept ++ rest) st) ->
  (forall kept job rest st ticket project,
      I (kept ++ job :: rest) st ->
      tickets_findById (job_ticketId job) (db st) = Some ticket ->
      projects_findById (project_id (t_row ticket)) (db st) = Some project ->
      size (activeWorkers st) < maxWorkers config ->
      projectWorkerCount (p_id project) (activeWorkers st)
        < maxParallelJobs (p_settings project) ->
      I (kept ++ rest) (dispatch job ticket project st)) ->
  forall st, I (queue st) st -> I (queue (tick config st)) (tick config st).
Proof.
  intros Hq Hdrop Hstart st HI. unfold tick.
  destruct (queue st) as [|job rest] eqn:Eq; [by rewrite Eq|].
  destruct (maxWorkers config <=? size (activeWorkers st)); [by rewrite Eq|].
  pose proof (tick_loop_acc I Hdrop Hstart (job :: rest) [] st HI) as H.
  destruct (tick_loop config (job :: rest) st) as [q' st']. simpl in *.
  by apply Hq.
Qed.

(** A property of the state that every start of a worker preserves survives
    [tick]. *)
Lemma tick_state (P : State -> Prop) :
  (forall q0 st, P st -> P (set_queue q0 st)) ->
  (forall job ticket project st,
      P st ->
      tickets_findById (job_ticketId job) (db st) = Some ticket ->
      projects_findById (project_id (t_row ticket)) (db st) = Some project ->
      size (activeWorkers st) < maxWorkers config ->
      projectWorkerCount (p_id project) (activeWorkers st)
        < maxParallelJobs (p_settings project) ->
      P (dispatch job ticket project st)) ->
  forall st, P st -> P (tick config st).
Proof.
  intros Hq Hstart st HP.
  apply (tick_acc (fun _ st => P st)); eauto.
Qed.

End TickLoop.

Section StepPreserves.
Import Store Orchestrator OrchestratorInv.
Local Open Scope nat_scope.

Variable config : OrchestratorConfig.
Variables slugify extractPlanFromOutput : string -> string.

(** A property of the state kept by each elementary effect of the
    orchestrator is kept by every transition; [ok] tells the workers
    whose transitions are considered. *)
Variable P : State -> Prop.
Variable ok : nat -> Prop.

Hypothesis P_unqueue : forall t job q' st,
  removeFirst t (queue st) = Some (job, q') -> P st -> P (set_queue q' st).
Hypothesis P_task_set : forall j tk st,
  ok j -> P st -> P (set_tasks (<[j := tk]> (tasks st)) st).
Hypothesis P_task_delete : forall j st,
  ok j -> P st -> P (set_tasks (delete j (tasks st)) st).
Hypothesis P_run : forall t j st, ok j -> P st -> P (runner_run t j st).
Hypothesis P_processes : forall p st, P st -> P (set_processes p st).
Hypothesis P_signals : forall g st, P st -> P (set_signals g st).
Hypothesis P_watchers : forall w st, P st -> P (set_watchers w st).
Hypothesis P_delete : forall k st,
  P st -> P (set_activeWorkers (delete k (activeWorkers st)) st).
Hypothesis P_completed : forall t st, P st -> P (emit (JobCompleted t) st).
Hypothesis P_failed : forall t m st, P st -> P (emit (JobFailed t m) st).
Hypothesis P_jobStatus : forall j s c st,
  P st -> P (upd_db (jobs_updateStatus j s c) st).
Hypothesis P_retry : forall j st, P st -> P (upd_db (jobs_incrementRetry j) st).
Hypothesis P_plan : forall t p st, P st -> P (upd_db (tickets_updatePlan t p) st).
Hypothesis P_branch : forall t b w st, P st -> P (upd_db (tickets_updateBranch t b w) st).
Hypothesis P_metadata : forall t m st, P st -> P (upd_db (tickets_setMetadata t m) st).
Hypothesis P_status : forall t s e st,
  P st -> P (emit (TicketStatusEvent t s) (upd_db (tickets_updateStatus t s e) st)).
Hypothesis P_create : forall ph s t job d st,
  ph = JobPhase.plan \/ ph = JobPhase.execute ->
  jobs_create t ph (db st) = Some (job, d) ->
  P st ->
  P (set_queue (queue st ++ [job])
       (emit (TicketStatusEvent t s) (upd_db (fun _ => tickets_updateStatus t s None d) st))).
Hypothesis P_tick : forall st, P st -> P (tick config st).

Lemma preserved_enqueue ph s t st :
  ph = JobPhase.plan \/ ph = JobPhase.execute -> P st -> P (enqueue config ph s t st).
Proof.
  intros Hph HP. unfold enqueue.
  destruct (jobs_create t ph (db st)) as [[job d]|] eqn:E; [|done].
  cbv zeta. apply P_tick.
  change (queue (emit (TicketStatusEvent t s)
                      (upd_db (fun _ => tickets_updateStatus t s None d) st)))
    with (queue st).
  by eapply P_create.
Qed.

Lemma preserved_finishWorker job ticket project succeeded msg st :
  P st -> P (finishWorker config job ticket project succeeded msg st).
Proof.
  intros HP. unfold finishWorker, logStreamer_stop. cbv zeta.
  apply P_tick. destruct succeeded; eauto 10.
Qed.

Lemma preserved_workerFailed j tk msg st :
  ok j -> P st -> P (workerFailed config j tk msg st).
Proof. intros Hj HP. unfold workerFailed. by apply preserved_finishWorker, P_task_delete. Qed.

Lemma preserved_planCompleted j tk st : ok j -> P st -> P (planCompleted config j tk st).
Proof. intros Hj HP. unfold planCompleted. cbv zeta. eauto 10. Qed.

Lemma preserved_execLoopHead j tk st : ok j -> P st -> P (execLoopHead config j tk st).
Proof.
  intros Hj HP. unfold execLoopHead, set_pc. cbv zeta.
  destruct (tk_retryCount tk <=? maxRetries config); [eauto|by apply preserved_workerFailed].
Qed.

Lemma preserved_execSucceeded j tk st : ok j -> P st -> P (execSucceeded j tk st).
Proof.
  intros Hj HP. unfold execSucceeded, logStreamer_stop, set_pc.
  destruct (configured (tk_lintCommand tk)); eauto.
Qed.

Lemma preserved_cancel t st : P st -> P (cancel t st).
Proof.
  intros HP. unfold cancel, runner_cancel, logStreamer_stop. cbv zeta.
  apply P_status.
  destruct (removeFirst t (queue st)) as [[job q']|] eqn:Eq;
    repeat case_match; eauto 10.
Qed.

Lemma step_preserves_ok a st :
  (forall j, actsOn a = Some j -> ok j) ->
  P st -> P (step config slugify extractPlanFromOutput a st).
Proof.
  intros Hok HP. destruct a; cbn [step]; unfold withTask;
    try (specialize (Hok j eq_refl); destruct (tasks st !! j) as [tk|]; [|done]).
  - by apply preserved_enqueue; [left|].
  - by apply preserved_enqueue; [right|].
  - by apply preserved_cancel.
  - by apply P_tick.
  - unfold agentSpawned, set_pc. destruct (tk_pc tk); eauto.
  - unfold agentClosed, logStreamer_stop. cbv zeta.
    destruct (tk_pc tk); try done.
    + case_bool_decide; [apply preserved_workerFailed; eauto|].
      destruct (autoExecuteAfterPlan (p_settings (tk_project tk))).
      * case_match.
        -- unfold set_pc. apply P_task_set; [done|].
           apply preserved_enqueue; [by right|]. eauto.
        -- apply preserved_workerFailed; eauto.
      * apply preserved_planCompleted; eauto.
    + case_bool_decide; [apply preserved_workerFailed; eauto|].
      destruct (configured (tk_testCommand tk)).
      * unfold set_pc. eauto.
      * apply preserved_execSucceeded; eauto.
  - unfold planResumed. destruct (tk_pc tk); try done. by apply preserved_planCompleted.
  - unfold worktreeReady, logStreamer_watch. cbv zeta.
    destruct (tk_pc tk); try done. apply preserved_execLoopHead; eauto 10.
  - unfold testExited. cbv zeta. destruct (tk_pc tk); try done.
    case_bool_decide; [by apply preserved_execSucceeded|].
    destruct (maxRetries config <? S (tk_retryCount tk)).
    + apply preserved_workerFailed; eauto.
    + apply preserved_execLoopHead; eauto.
  - unfold lintDone, logStreamer_stop, set_pc. destruct (tk_pc tk); eauto.
  - unfold summaryDone. cbv zeta. destruct (tk_pc tk); try done.
    apply preserved_finishWorker, P_task_delete; [done|]. destruct files; eauto.
  - unfold workerThrew. destruct (tk_pc tk); try done;
      apply preserved_workerFailed; eauto.
Qed.

End StepPreserves.

Section StepPreservesAll.
Import Store Orchestrator OrchestratorInv.
Local Open Scope nat_scope.

Variable config : OrchestratorConfig.
Variables slugify extractPlanFromOutput : string -> string.

(** The same for a property that does not look at which worker acts. *)
Variable P : State -> Prop.

Hypothesis P_queue : forall q st, P st -> P (set_queue q st).
Hypothesis P_tasks : forall t st, P st -> P (set_tasks t st).
Hypothesis P_processes : forall p st, P st -> P (set_processes p st).
Hypothesis P_signals : forall g st, P st -> P (set_signals g st).
Hypothesis P_runnerCalls : forall c st, P st -> P (set_runnerCalls c st).
Hypothesis P_watchers : forall w st, P st -> P (set_watchers w st).
Hypothesis P_delete : forall k st,
  P st -> P (set_activeWorkers (delete k (activeWorkers st)) st).
Hypothesis P_completed : forall t st, P st -> P (emit (JobCompleted t) st).
Hypothesis P_failed : forall t m st, P st -> P (emit (JobFailed t m) st).
Hypothesis P_jobStatus : forall j s c st,
  P st -> P (upd_db (jobs_updateStatus j s c) st).
Hypothesis P_retry : forall j st, P st -> P (upd_db (jobs_incrementRetry j) st).
Hypothesis P_plan : forall t p st, P st -> P (upd_db (tickets_updatePlan t p) st).
Hypothesis P_branch : forall t b w st, P st -> P (upd_db (tickets_updateBranch t b w) st).
Hypothesis P_metadata : forall t m st, P st -> P (upd_db (tickets_setMetadata t m) st).
Hypothesis P_status : forall t s e st,
  P st -> P (emit (TicketStatusEvent t s) (upd_db (tickets_updateStatus t s e) st)).
Hypothesis P_create : forall ph s t job d st,
  ph = JobPhase.plan \/ ph = JobPhase.execute ->
  jobs_create t ph (db st) = Some (job, d) ->
  P st ->
  P (emit (TicketStatusEvent t s) (upd_db (fun _ => tickets_updateStatus t s None d) st)).
Hypothesis P_tick : forall st, P st -> P (tick config st).

Lemma step_preserves a st : P st -> P (step config slugify extractPlanFromOutput a st).
Proof.
  apply (step_preserves_ok config slugify extractPlanFromOutput P (fun _ => True));
    unfold runner_run; eauto.
Qed.

Lemma run_preserves acts st :
  P st -> P (run config slugify extractPlanFromOutput acts st).
Proof.
  revert st. induction acts as [|a acts IH]; intros st HP; [done|].
  simpl. by apply IH, step_preserves.
Qed.

End StepPreservesAll.

Section StatusEvents.
Import Store Orchestrator OrchestratorInv Observer.
Local Open Scope nat_scope.

Variable config : OrchestratorConfig.
Variables slugify extractPlanFromOutput : string -> string.

Lemma statusEvents_app es es' : statusEvents (es ++ es') = statusEvents es ++ statusEvents es'.
Proof. unfold statusEvents. apply omap_app. Qed.

Lemma dispatch_db job ticket project st :
  db (dispatch job ticket project st)
  = jobs_updateStatus (job_id job) JobStatus.running None (db st).
Proof. unfold dispatch, runWorker. by destruct (job_phase job). Qed.

Lemma dispatch_events job ticket project st : events (dispatch job ticket project st) = events st.
Proof. unfold dispatch, runWorker. by destruct (job_phase job). Qed.

Lemma dispatch_activeWorkers job ticket project st :
  activeWorkers (dispatch job ticket project st)
  = <[t_id ticket := mkWorker job ticket project]> (activeWorkers st).
Proof. unfold dispatch, runWorker. by destruct (job_phase job). Qed.

Lemma dispatch_tasks job ticket project st :
  tasks (dispatch job ticket project st)
  = <[job_id job := mkTask job ticket project
                      match job_phase job with
                      | JobPhase.plan => PlanAwaitSpawn
                      | _ => ExecAwaitWorktree
                      end 0 "" "" None None]> (tasks st).
Proof. unfold dispatch, runWorker. by destruct (job_phase job). Qed.

Lemma jobs_create_tickets t ph d job d' :
  jobs_create t ph d = Some (job, d') ->
  tickets d' = tickets d /\ projects d' = projects d /\ statusLog d' = statusLog d
  /\ job = mkJob (fresh (dom (jobs d))) t ph
  /\ jobs d' = <[fresh (dom (jobs d)) := mkJobRow t ph JobStatus.pending None 0]> (jobs d)
  /\ is_Some (tickets d !! t).
Proof.
  unfold jobs_create. destruct (tickets d !! t) eqn:E; [|done].
  intros [= <- <-]. simpl. eauto 10.
Qed.

(** The status writes and the 'ticket:status' events stay the same sequence. *)
Lemma paired_step a st :
  Paired st -> Paired (step config slugify extractPlanFromOutput a st).
Proof.
  apply step_preserves; clear a st; unfold Paired.
  1-15: intros; cbn -[statusEvents] in *; rewrite ?statusEvents_app; cbn;
        rewrite ?app_nil_r; congruence.
  - intros ph s t job d st _ Hc HP. cbn -[statusEvents]. rewrite statusEvents_app. cbn.
    destruct (jobs_create_tickets _ _ _ _ _ Hc) as (_ & _ & -> & _). congruence.
  - intros st HP. apply (tick_state config Paired); [done| |exact HP].
    clear st HP. unfold Paired. intros job ticket project st HP _ _ _ _.
    by rewrite dispatch_db, dispatch_events.
Qed.

Lemma fmap_alter_status (f : TicketRow -> TicketRow) s t (m : gmap string TicketRow) :
  (forall r, status (f r) = s) ->
  status <$> alter f t m = alter (fun _ => s) t (status <$> m).
Proof.
  intros Hf. apply map_eq. intros k. rewrite lookup_fmap.
  destruct (decide (t = k)) as [->|Hne].
  - rewrite !lookup_alter_eq, lookup_fmap. destruct (m !! k); simpl; [by rewrite Hf|done].
  - by rewrite !lookup_alter_ne, lookup_fmap.
Qed.

Lemma fmap_alter_keep (f : TicketRow -> TicketRow) t (m : gmap string TicketRow) :
  (forall r, status (f r) = status r) ->
  status <$> alter f t m = status <$> m.
Proof.
  intros Hf. apply map_eq. intros k. rewrite !lookup_fmap.
  destruct (decide (t = k)) as [->|Hne].
  - rewrite lookup_alter_eq. destruct (m !! k); simpl; [by rewrite Hf|done].
  - by rewrite lookup_alter_ne.
Qed.

Lemma observe_snoc es e v : observe (es ++ [e]) v = alter (fun _ => e.2) e.1 (observe es v).
Proof. unfold observe. by rewrite fold_left_app. Qed.

(** The statuses in the store are what the status writes add up to. *)
Lemma observed_step (view : gmap string TicketStatus.t) a st :
  statuses (db st) = observe (statusLog (db st)) view ->
  statuses (db (step config slugify extractPlanFromOutput a st))
  = observe (statusLog (db (step config slugify extractPlanFromOutput a st))) view.
Proof.
  apply (step_preserves config slugify extractPlanFromOutput
           (fun st => statuses (db st) = observe (statusLog (db st)) view));
    clear a st; unfold statuses.
  1-11: by intros; cbn in *.
  1-3: by intros; cbn in *; rewrite fmap_alter_keep.
  - intros t s e st HP. cbn. rewrite observe_snoc. cbn. rewrite <- HP.
    by apply fmap_alter_status.
  - intros ph s t job d st _ Hc HP. cbn.
    destruct (jobs_create_tickets _ _ _ _ _ Hc) as (-> & _ & -> & _).
    rewrite observe_snoc. cbn. rewrite <- HP. by apply fmap_alter_status.
  - intros st HP.
    apply (tick_state config
             (fun st => status <$> tickets (db st) = observe (statusLog (db st)) view));
      [done| |exact HP].
    clear st HP. intros job ticket project st HP _ _ _ _.
    by rewrite dispatch_db.
Qed.

Lemma run_paired (view : gmap string TicketStatus.t) acts st :
  Paired st ->
  statuses (db st) = observe (statusLog (db st)) view ->
  let st' := run config slugify extractPlanFromOutput acts st in
  Paired st' /\ statuses (db st') = observe (statusLog (db st')) view.
Proof.
  revert st. induction acts as [|a acts IH]; intros st Hp Ho; [done|].
  simpl. apply IH; [by apply paired_step|by apply observed_step].
Qed.

(** C5 (as the code has it): along every run of the orchestrator (calls,
    ticks and worker resumptions in any order), the status writes on the
    ticket table and the emitted 'ticket:status' events are the same
    sequence of (ticket, status) pairs, so replaying the events over the
    initial statuses yields the statuses in the store. *)
Theorem orchestrator_status_writes_paired (d : Db) (acts : list Action) :
  statusLog d = [] ->
  let st := run config slugify extractPlanFromOutput acts (initial d) in
  statusLog (db st) = statusEvents (events st)
  /\ statuses (db st) = observe (statusEvents (events st)) (statuses d).
Proof.
  intros Hd st.
  destruct (run_paired (statuses d) acts (initial d)) as [H1 H2].
  - unfold Paired. simpl. by rewrite Hd.
  - simpl. by rewrite Hd.
  - fold st in H1, H2. split; [exact H1|]. by rewrite <- H1.
Qed.

End StatusEvents.

Section Caps.
Import Store Orchestrator OrchestratorInv Sample.
Local Open Scope nat_scope.

Variable config : OrchestratorConfig.
Variables slugify extractPlanFromOutput : string -> string.

Lemma size_delete_le {K : Type} `{Countable K} {A} (k : K) (m : gmap K A) :
  size (delete k m) <= size m.
Proof. rewrite map_size_delete. destruct (m !! k); simpl; lia. Qed.

Lemma size_insert_le {K : Type} `{Countable K} {A} (k : K) (x : A) (m : gmap K A) :
  size (<[k := x]> m) <= S (size m).
Proof. rewrite map_size_insert. destruct (m !! k); simpl; lia. Qed.

Lemma projectWorkerCount_delete pid k a :
  projectWorkerCount pid (delete k a) <= projectWorkerCount pid a.
Proof. unfold projectWorkerCount. rewrite map_filter_delete. apply size_delete_le. Qed.

Lemma projectWorkerCount_insert pid k w a :
  projectWorkerCount pid (<[k := w]> a)
  <= (if decide (p_id (w_project w) = pid) then 1 else 0) + projectWorkerCount pid a.
Proof.
  unfold projectWorkerCount. rewrite map_filter_insert. simpl.
  destruct (decide (p_id (w_project w) = pid)).
  - apply size_insert_le.
  - rewrite map_filter_delete. apply size_delete_le.
Qed.

Lemma withinCaps_dispatch job ticket project st :
  WithinCaps config st ->
  projects_findById (project_id (t_row ticket)) (db st) = Some project ->
  size (activeWorkers st) < maxWorkers config ->
  projectWorkerCount (p_id project) (activeWorkers st)
    < maxParallelJobs (p_settings project) ->
  WithinCaps config (dispatch job ticket project st).
Proof.
  intros [Hg Hp] Hproj Hsize Hcount. unfold WithinCaps.
  rewrite dispatch_db, dispatch_activeWorkers. cbn [projects jobs_updateStatus]. split.
  - pose proof (size_insert_le (t_id ticket) (mkWorker job ticket project) (activeWorkers st)).
    lia.
  - intros pid s Hs.
    pose proof (projectWorkerCount_insert pid (t_id ticket) (mkWorker job ticket project)
                  (activeWorkers st)) as Hle.
    cbn [w_project] in Hle. specialize (Hp pid s Hs).
    destruct (decide (p_id project = pid)) as [<-|Hne]; [|lia].
    unfold projects_findById in Hproj.
    destruct (projects (db st) !! project_id (t_row ticket)) as [row|] eqn:E; [|done].
    injection Hproj as <-. simpl in *. rewrite E in Hs. injection Hs as <-. lia.
Qed.

(** What the scheduler itself guarantees: the entries of [activeWorkers]
    never outnumber the global cap, nor, project by project, the cap of
    the project. *)
Lemma activeWorkers_within_caps (d : Db) (acts : list Action) :
  WithinCaps config (run config slugify extractPlanFromOutput acts (initial d)).
Proof.
  apply run_preserves.
  1-15: by intros; destruct H as [Hg Hp]; split; cbn in *;
        eauto using Nat.le_trans, size_delete_le, projectWorkerCount_delete.
  - intros ph s t job d' st _ Hc [Hg Hp].
    destruct (jobs_create_tickets _ _ _ _ _ Hc) as (_ & Hpr & _).
    split; cbn; [done|]. by rewrite Hpr.
  - intros st HP. apply (tick_state config (WithinCaps config)); [done| |done].
    intros. by eapply withinCaps_dispatch.
  - split; simpl; [rewrite map_size_empty; lia|].
    intros. unfold projectWorkerCount. rewrite map_filter_empty, map_size_empty. lia.
Qed.

(** C1, at the failing run (global cap 2, project cap 2, auto-execute on):
    the plan of ticket A finishes and enqueues the execute job, which
    [tick] starts at once under the key A that the plan worker still
    holds; the plan worker then deletes that entry.  The execute worker
    runs on, unknown to [activeWorkers], and the plans of B and C are
    started beside it.  Three agent processes are tracked by the runner
    and three jobs are 'running', with two entries in [activeWorkers]. *)
Lemma untracked_worker_exceeds_caps :
  let config := mkConfig 2 3 "autodev/" in
  let st := run config plainText plainText
              [EnqueuePlan "A"; AgentSpawned 0; AgentClosed 0 0%Z "plan"; PlanResumed 0;
               WorktreeReady 1 "/repo/.worktrees/ticket-A" noStack; AgentSpawned 1;
               EnqueuePlan "B"; AgentSpawned 2; EnqueuePlan "C"; AgentSpawned 3]
              (initial (sampleDb 2 true None)) in
  size (activeWorkers st) = 2
  /\ size (processes st) = 3
  /\ length (runningJobs (db st)) = 3
  /\ maxWorkers config < size (processes st)
  /\ maxParallelJobs <$> projects (db st) !! "P" = Some 2
  /\ projectWorkerCount "P" (activeWorkers st) = 2
  /\ project_id <$> tickets (db st) !! "A" = Some "P"
  /\ project_id <$> tickets (db st) !! "B" = Some "P"
  /\ project_id <$> tickets (db st) !! "C" = Some "P".
Proof.
  cbv zeta. repeat split; vm_compute; reflexivity.
Qed.

End Caps.

Section DbPreserves.
Import Store Orchestrator OrchestratorInv.
Local Open Scope nat_scope.

Variable config : OrchestratorConfig.
Variables slugify extractPlanFromOutput : string -> string.

(** A property of the database alone. *)
Variable D : Db -> Prop.

Hypothesis D_jobStatus : forall j s c d, D d -> D (jobs_updateStatus j s c d).
Hypothesis D_status : forall t s e d, D d -> D (tickets_updateStatus t s e d).

Lemma db_tick st : D (db st) -> D (db (tick config st)).
Proof.
  apply (tick_state config (fun st => D (db st))); [done|].
  intros job ticket project st' HD _ _ _ _. rewrite dispatch_db. by apply D_jobStatus.
Qed.

Lemma db_finishWorker job ticket project ok msg st :
  D (db st) -> D (db (finishWorker config job ticket project ok msg st)).
Proof.
  apply (preserved_finishWorker config (fun st => D (db st)));
    try (by intros; cbn in *; eauto).
  apply db_tick.
Qed.

Lemma db_workerFailed j tk msg st :
  D (db st) -> D (db (workerFailed config j tk msg st)).
Proof. intros HD. unfold workerFailed. by apply db_finishWorker. Qed.

Lemma db_execLoopHead j tk st :
  D (db st) -> D (db (execLoopHead config j tk st)).
Proof.
  intros HD. unfold execLoopHead.
  destruct (tk_retryCount tk <=? maxRetries config); [done|by apply db_workerFailed].
Qed.

Hypothesis D_retry : forall j d, D d -> D (jobs_incrementRetry j d).
Hypothesis D_plan : forall t p d, D d -> D (tickets_updatePlan t p d).
Hypothesis D_branch : forall t b w d, D d -> D (tickets_updateBranch t b w d).
Hypothesis D_metadata : forall t m d, D d -> D (tickets_setMetadata t m d).
Hypothesis D_create : forall ph t job d d',
  ph = JobPhase.plan \/ ph = JobPhase.execute ->
  jobs_create t ph d = Some (job, d') -> D d -> D d'.

Lemma db_step a st :
  D (db st) -> D (db (step config slugify extractPlanFromOutput a st)).
Proof.
  apply (step_preserves config slugify extractPlanFromOutput (fun st => D (db st)));
    try (by intros; cbn in *; eauto).
  apply db_tick.
Qed.

Lemma db_run acts st :
  D (db st) -> D (db (run config slugify extractPlanFromOutput acts st)).
Proof.
  revert st. induction acts as [|a acts IH]; intros st HD; [done|].
  simpl. by apply IH, db_step.
Qed.

End DbPreserves.

Section JobPhases.
Import Store Orchestrator OrchestratorInv.
Local Open Scope nat_scope.

Variable config : OrchestratorConfig.
Variables slugify extractPlanFromOutput : string -> string.

Lemma sameJobs_refl m : sameJobs m m.
Proof. intros j. by destruct (m !! j). Qed.

Lemma sameJobs_alter (f : JobRow -> JobRow) m0 m j :
  (forall r, sameJob r (f r)) -> sameJobs m0 m -> sameJobs m0 (alter f j m).
Proof.
  intros Hf H k. specialize (H k).
  destruct (decide (j = k)) as [->|Hne].
  - rewrite lookup_alter_eq. destruct (m0 !! k), (m !! k); simpl; try done.
    destruct H as (? & ? & ?), (Hf j0) as (? & ? & ?). repeat split; congruence.
  - by rewrite lookup_alter_ne.
Qed.

Lemma sameJobs_dom m m' : sameJobs m m' -> dom m = dom m'.
Proof.
  intros H. apply set_eq. intros j. rewrite !elem_of_dom. specialize (H j).
  destruct (m !! j), (m' !! j); try done; split; intros [? ?]; done.
Qed.

Lemma sameJobs_retry m m' j :
  sameJobs m m' -> retry_count <$> m' !! j = retry_count <$> m !! j.
Proof.
  intros H. specialize (H j). destruct (m !! j), (m' !! j); try done.
  simpl. destruct H as (_ & _ & ->). done.
Qed.

Lemma sameJobs_workerFailed j tk msg st :
  sameJobs (jobs (db st)) (jobs (db (workerFailed config j tk msg st))).
Proof.
  apply (db_workerFailed config (fun d => sameJobs (jobs (db st)) (jobs d)));
    [| |apply sameJobs_refl].
  - intros j' s c d H. by apply sameJobs_alter.
  - by intros t s e d H.
Qed.

Lemma sameJobs_execLoopHead j tk st :
  sameJobs (jobs (db st)) (jobs (db (execLoopHead config j tk st))).
Proof.
  apply (db_execLoopHead config (fun d => sameJobs (jobs (db st)) (jobs d)));
    [| |apply sameJobs_refl].
  - intros j' s c d H. by apply sameJobs_alter.
  - by intros t s e d H.
Qed.

Lemma created_run d0 acts st :
  CreatedPlanOrExecute d0 (db st) ->
  CreatedPlanOrExecute d0 (db (run config slugify extractPlanFromOutput acts st)).
Proof.
  apply db_run; unfold CreatedPlanOrExecute; try (by intros; cbn in *; eauto).
  - intros j s c d H k r. cbn. intros Hk. apply lookup_alter_Some in Hk.
    destruct Hk as [(-> & r' & Hr & ->)|[_ Hr]]; [|by eauto].
    intros H0. by apply (H _ _ Hr H0).
  - intros j d H k r. cbn. intros Hk. apply lookup_alter_Some in Hk.
    destruct Hk as [(-> & r' & Hr & ->)|[_ Hr]]; [|by eauto].
    intros H0. by apply (H _ _ Hr H0).
  - intros ph t job d d' Hph Hc H k r Hk H0.
    destruct (jobs_create_tickets _ _ _ _ _ Hc) as (_ & _ & _ & _ & Hj & _).
    rewrite Hj in Hk. apply lookup_insert_Some in Hk.
    destruct Hk as [[_ <-]|[_ Hk]]; [exact Hph|by eauto].
Qed.

(** C10: whatever the orchestrator is asked and whatever its workers
    meet, every job it adds to the table has phase 'plan' or 'execute';
    and a failed test run adds no job: the table keeps its keys and the
    retry counter of the execute job of the worker goes up by one. *)
Theorem orchestrator_never_creates_fix_job (d : Db) (acts : list Action) :
  let st := run config slugify extractPlanFromOutput acts (initial d) in
  (forall j r,
      jobs (db st) !! j = Some r -> jobs d !! j = None ->
      phase r = JobPhase.plan \/ phase r = JobPhase.execute)
  /\ (forall j tk code out,
        tasks st !! j = Some tk -> tk_pc tk = ExecAwaitTest -> code <> 0%Z ->
        let st' := step config slugify extractPlanFromOutput (TestExited j code out) st in
        dom (jobs (db st')) = dom (jobs (db st))
        /\ retry_count <$> jobs (db st') !! job_id (tk_job tk)
           = S <$> (retry_count <$> jobs (db st) !! job_id (tk_job tk))).
Proof.
  intros st. split.
  - apply (created_run d acts (initial d)). intros j r Hj Hn. simpl in Hj. congruence.
  - intros j tk code out Htk Hpc Hcode st'. subst st'.
    cbn [step]. unfold withTask. rewrite Htk. unfold testExited. rewrite Hpc.
    rewrite bool_decide_eq_false_2 by done. cbv zeta.
    set (tk' := mkTask _ _ _ _ _ _ _ _ _).
    set (st1 := upd_db (jobs_incrementRetry (job_id (tk_job tk'))) st).
    assert (sameJobs (jobs (db st1))
              (jobs (db (if maxRetries config <? S (tk_retryCount tk)
                         then workerFailed config j tk'
                                (testsFailingMessage (maxRetries config) out) st1
                         else execLoopHead config j tk' st1)))) as Hs.
    { destruct (maxRetries config <? S (tk_retryCount tk));
        [apply sameJobs_workerFailed|apply sameJobs_execLoopHead]. }
    rewrite <- (sameJobs_dom _ _ Hs), (sameJobs_retry _ _ _ Hs).
    subst st1 tk'. cbn. split; [apply dom_alter_L|].
    rewrite lookup_alter_eq. by destruct (jobs (db st) !! job_id (tk_job tk)).
Qed.

End JobPhases.

(** Witness and counterexample of C5, and the witness of C10. *)

Section OrchestratorExamples.
Import Store Orchestrator OrchestratorInv Observer Sample.
Local Open Scope string_scope.
Local Open Scope nat_scope.

(** The theorem at a run that plans, reviews, executes, tests and
    completes ticket A and cancels ticket B. *)
Lemma orchestrator_status_writes_paired_witness :
  let config := mkConfig 2 1 "autodev/" in
  let d := sampleDb 2 false (Some "npm test") in
  let acts := [EnqueuePlan "A"; AgentSpawned 0; AgentClosed 0 0%Z "plan";
               EnqueueExecute "A"; WorktreeReady 1 "/repo/.worktrees/ticket-A" noStack;
               AgentSpawned 1; AgentClosed 1 0%Z ""; TestExited 1 0%Z "ok";
               SummaryDone 1 (Some ["a.ts"]); Cancel "B"] in
  let st := run config plainText plainText acts (initial d) in
  statusLog d = []
  /\ statusLog (db st)
     = [("A", TicketStatus.planning); ("A", TicketStatus.plan_review);
        ("A", TicketStatus.queued); ("A", TicketStatus.in_progress);
        ("A", TicketStatus.testing); ("A", TicketStatus.completed);
        ("B", TicketStatus.failed)]
  /\ statusLog (db st) = statusEvents (events st).
Proof.
  intros config d acts st.
  assert (statusLog d = []) as Hd by reflexivity.
  split; [exact Hd|]. split; [vm_compute; reflexivity|].
  exact (proj1 (orchestrator_status_writes_paired config plainText plainText d acts Hd)).
Defined.

(** C5, counterexample: at activation [recoverInterruptedJobs] moves a
    ticket found in 'planning' to 'failed', and a successful merge moves a
    completed ticket to 'merged'; both write to the store and no event is
    emitted. *)
Lemma recovery_and_merge_emit_no_event :
  let d := mkDb (<["A" := ticketRow "P" "first" TicketStatus.planning]>
                 (<["B" := mkTicketRow "P" "second" TicketStatus.completed None
                                       (Some "autodev/ticket-B-second")
                                       (Some "/repo/.worktrees/ticket-B") None
                                       (mkMetadata None None None)]> ∅))
                (<["P" := mkSettings 2 false None None]> ∅) ∅ [] in
  let st := upd_db Extension.recoverInterruptedJobs (initial d) in
  let st' := upd_db (Extension.handleMerge_merged "B") st in
  ticketStatus "A" d = Some TicketStatus.planning
  /\ ticketStatus "A" (db st) = Some TicketStatus.failed
  /\ ticketStatus "B" (db st) = Some TicketStatus.completed
  /\ ticketStatus "B" (db st') = Some TicketStatus.merged
  /\ statusLog (db st') = [("A", TicketStatus.failed); ("B", TicketStatus.merged)]
  /\ events st' = []
  /\ statusLog (db st') <> statusEvents (events st').
Proof. cbv zeta. repeat split; try (vm_compute; reflexivity). vm_compute. congruence. Qed.

(** The theorem at a run whose test command fails once. *)
Lemma orchestrator_never_creates_fix_job_witness :
  let config := mkConfig 2 2 "autodev/" in
  let d := sampleDb 2 false (Some "npm test") in
  let acts := [EnqueueExecute "A"; WorktreeReady 0 "/repo/.worktrees/ticket-A" noStack;
               AgentSpawned 0; AgentClosed 0 0%Z ""] in
  let st := run config plainText plainText acts (initial d) in
  let st' := step config plainText plainText (TestExited 0 1%Z "1 failed") st in
  phase <$> jobs (db st) !! 0 = Some JobPhase.execute
  /\ dom (jobs (db st')) = dom (jobs (db st))
  /\ retry_count <$> jobs (db st') !! 0 = Some 1.
Proof.
  intros config d acts st st'.
  destruct (orchestrator_never_creates_fix_job config plainText plainText d acts) as [_ H].
  fold st in H.
  assert (exists tk, tasks st !! 0 = Some tk /\ tk_pc tk = ExecAwaitTest
                     /\ job_id (tk_job tk) = 0) as (tk & Htk & Hpc & Hid).
  { eexists. split; [vm_compute; reflexivity|]. split; reflexivity. }
  assert (1%Z <> 0%Z) as Hne by lia.
  destruct (H 0 tk 1%Z "1 failed" Htk Hpc Hne) as [Hdom Hretry].
  rewrite Hid in Hretry. fold st' in Hdom, Hretry.
  split; [vm_compute; reflexivity|]. split; [exact Hdom|].
  rewrite Hretry. vm_compute. reflexivity.
Defined.

End OrchestratorExamples.

(** ** Cancellation *)

Section Cancel.
Import Store Orchestrator OrchestratorInv Sample.
Local Open Scope string_scope.
Local Open Scope list_scope.
Local Open Scope nat_scope.

Lemma cancelledRow_idem (m : gmap string TicketRow) (t : string) :
  alter cancelledRow t (alter cancelledRow t m) = alter cancelledRow t m.
Proof.
  apply map_eq. intros k. destruct (decide (t = k)) as [->|Hne].
  - rewrite !lookup_alter_eq. by destruct (m !! k).
  - by rewrite !lookup_alter_ne.
Qed.

(** The fields of the state after [cancel]. *)
Lemma cancel_fields (t : string) (s : State) :
  tickets (db (cancel t s)) = alter cancelledRow t (tickets (db s))
  /\ events (cancel t s) = events s ++ [TicketStatusEvent t TicketStatus.failed]
  /\ queue (cancel t s) = match removeFirst t (queue s) with
                          | Some (_, q') => q'
                          | None => queue s
                          end
  /\ jobs (db (cancel t s)) = cancelJobs t s
  /\ activeWorkers (cancel t s) = delete t (activeWorkers s)
  /\ watchers (cancel t s) = match activeWorkers s !! t with
                             | Some w => watchers s ∖ {[job_id (w_job w)]}
                             | None => watchers s
                             end
  /\ processes (cancel t s) = delete t (processes s)
  /\ signals (cancel t s) = signals s ++ match processes s !! t with
                                         | Some p => [p]
                                         | None => []
                                         end
  /\ tasks (cancel t s) = tasks s /\ runnerCalls (cancel t s) = runnerCalls s
  /\ projects (db (cancel t s)) = projects (db s).
Proof.
  unfold cancel, cancelJobs, queuedJob, runner_cancel.
  destruct (removeFirst t (queue s)) as [[job q']|] eqn:Eq;
    cbv zeta; orch_proj;
    destruct (processes s !! t) as [p|] eqn:Ep; orch_proj;
    destruct (activeWorkers s !! t) as [w|] eqn:Ew; orch_proj;
    rewrite ?app_nil_r; repeat split; rewrite ?delete_id by done; done.
Qed.

(** C4 (as the code has it): [cancel] always marks the ticket 'failed'
    with the message "Cancelled by user." and emits one 'ticket:status'
    event, whether or not the ticket has active work.  The first queued job
    of the ticket, if any, leaves the queue and is marked 'failed' with
    exit code -1; the worker registered for the ticket, if any, is removed,
    its log tailer is stopped and its job is marked 'failed' with exit code
    -1; the process tracked for the ticket, if any, is sent the termination
    signal and untracked.  Without a queued job and a registered worker the
    queue, the job table, the workers and the tailers are unchanged.
    Repeating the call, once no job of the ticket is queued, changes
    nothing but the event stream and the status log, which receive the
    same entry again. *)
Theorem cancel_effects (t : string) (st : State) :
  let st' := cancel t st in
  tickets (db st') = alter cancelledRow t (tickets (db st))
  /\ events st' = events st ++ [TicketStatusEvent t TicketStatus.failed]
  /\ queue st' = match removeFirst t (queue st) with
                 | Some (_, q') => q'
                 | None => queue st
                 end
  /\ jobs (db st') = cancelJobs t st
  /\ activeWorkers st' = delete t (activeWorkers st)
  /\ watchers st' = match activeWorkers st !! t with
                    | Some w => watchers st ∖ {[job_id (w_job w)]}
                    | None => watchers st
                    end
  /\ processes st' = delete t (processes st)
  /\ signals st' = signals st ++ match processes st !! t with
                                 | Some p => [p]
                                 | None => []
                                 end
  /\ (removeFirst t (queue st) = None -> activeWorkers st !! t = None ->
      queue st' = queue st /\ jobs (db st') = jobs (db st)
      /\ activeWorkers st' = activeWorkers st /\ watchers st' = watchers st
      /\ tasks st' = tasks st)
  /\ (removeFirst t (queue st') = None ->
      let st'' := cancel t st' in
      tickets (db st'') = tickets (db st') /\ jobs (db st'') = jobs (db st')
      /\ projects (db st'') = projects (db st')
      /\ queue st'' = queue st' /\ activeWorkers st'' = activeWorkers st'
      /\ tasks st'' = tasks st' /\ processes st'' = processes st'
      /\ signals st'' = signals st' /\ watchers st'' = watchers st'
      /\ runnerCalls st'' = runnerCalls st'
      /\ events st'' = events st' ++ [TicketStatusEvent t TicketStatus.failed]).
Proof.
  intros st'.
  destruct (cancel_fields t st) as (H1 & H2 & H3 & H4 & H5 & H6 & H7 & H8 & H9 & H10 & H11).
  fold st' in H1, H2, H3, H4, H5, H6, H7, H8, H9, H10, H11.
  do 8 (split; [assumption|]). split.
  all: cbv zeta.
  - intros Hq Hw. rewrite H3, H4, H5, H6, H9. unfold cancelJobs, queuedJob.
    rewrite Hq, Hw. cbn. by rewrite delete_id.
  - intros Hq. set (st'' := cancel t st').
    destruct (cancel_fields t st') as (G1 & G2 & G3 & G4 & G5 & G6 & G7 & G8 & G9 & G10 & G11).
    fold st'' in G1, G2, G3, G4, G5, G6, G7, G8, G9, G10, G11.
    clearbody st' st''.
    assert (activeWorkers st' !! t = None) as Hw by (rewrite H5; apply lookup_delete_eq).
    assert (processes st' !! t = None) as Hp by (rewrite H7; apply lookup_delete_eq).
    rewrite G1, G2, G3, G4, G5, G6, G7, G8, G9, G10, G11.
    unfold cancelJobs, queuedJob. rewrite Hq, Hw, Hp. cbn.
    rewrite H1, cancelledRow_idem, !delete_id, app_nil_r by done. done.
Qed.

(** The theorem at a ticket with a job still queued behind the cap. *)
Lemma cancel_effects_witness :
  let config := mkConfig 1 2 "autodev/" in
  let st := run config plainText plainText [EnqueuePlan "A"; EnqueuePlan "B"]
                (initial (sampleDb 2 false None)) in
  removeFirst "B" (queue (cancel "B" st)) = None
  /\ queue (cancel "B" (cancel "B" st)) = []
  /\ job_status <$> jobs (db (cancel "B" st)) !! 1 = Some JobStatus.failed
  /\ events (cancel "B" (cancel "B" st))
     = events (cancel "B" st) ++ [TicketStatusEvent "B" TicketStatus.failed].
Proof.
  intros config st.
  assert (removeFirst "B" (queue (cancel "B" st)) = None) as Hq by (vm_compute; reflexivity).
  destruct (cancel_effects "B" st) as (_ & _ & _ & _ & _ & _ & _ & _ & _ & Hidem).
  destruct (Hidem Hq) as (_ & _ & _ & Hqueue & _ & _ & _ & _ & _ & _ & Hev).
  split; [exact Hq|]. split; [rewrite Hqueue; vm_compute; reflexivity|].
  split; [vm_compute; reflexivity|exact Hev].
Defined.

(** C4, counterexample: a completed ticket with nothing queued and no
    worker is cancelled; the ticket becomes 'failed' and an event is
    emitted. *)
Lemma cancel_without_active_work_fails_ticket :
  let d := mkDb (<["A" := ticketRow "P" "first" TicketStatus.completed]> ∅)
                (<["P" := mkSettings 2 false None None]> ∅) ∅ [] in
  let st := initial d in
  removeFirst "A" (queue st) = None
  /\ activeWorkers st !! "A" = None
  /\ ticketStatus "A" (db st) = Some TicketStatus.completed
  /\ ticketStatus "A" (db (cancel "A" st)) = Some TicketStatus.failed
  /\ events st = []
  /\ events (cancel "A" st) = [TicketStatusEvent "A" TicketStatus.failed].
Proof. cbv zeta. repeat split; vm_compute; reflexivity. Qed.

(** Each call removes one queued job: with two jobs of a ticket queued
    behind the cap, the second [cancel] still finds one to remove. *)
Example cancel_twice_with_two_queued_jobs :
  let config := mkConfig 1 2 "autodev/" in
  let st := run config plainText plainText [EnqueuePlan "B"; EnqueuePlan "A"; EnqueuePlan "A"]
                (initial (sampleDb 2 false None)) in
  job_id <$> queue st = [1; 2]
  /\ job_id <$> queue (cancel "A" st) = [2]
  /\ job_status <$> jobs (db (cancel "A" st)) !! 2 = Some JobStatus.pending
  /\ job_id <$> queue (cancel "A" (cancel "A" st)) = []
  /\ job_status <$> jobs (db (cancel "A" (cancel "A" st))) !! 2 = Some JobStatus.failed.
Proof. cbv zeta. repeat split; vm_compute; reflexivity. Qed.

End Cancel.

(** ** Worktrees and branches (gitManager.ts, runExecutePhase) *)

Section Worktree.
Import Store Orchestrator OrchestratorInv GitManager Sample.
Local Open Scope string_scope.
Local Open Scope list_scope.
Local Open Scope nat_scope.

Variable pathJoin : string -> string -> string.




Variable slugify : string -> string.



End Worktree.

Section WorktreeExamples.
Import Store Orchestrator OrchestratorInv GitManager Sample.
Local Open Scope string_scope.
Local Open Scope list_scope.
Local Open Scope nat_scope.



End WorktreeExamples.

(** ** One active job per ticket *)

Section OneActive.
Import Store Orchestrator OrchestratorInv Sample.
Local Open Scope string_scope.
Local Open Scope list_scope.
Local Open Scope nat_scope.

Variable config : OrchestratorConfig.
Variables slugify extractPlanFromOutput : string -> string.

Lemma activeJobs_elem t d j :
  j ∈ activeJobs t d <->
  exists r, jobs d !! j = Some r /\ ticket_id r = t /\ activeRow r = true.
Proof.
  unfold activeJobs. rewrite list_elem_of_fmap. split.
  - intros ([j' r] & -> & Hin). apply list_elem_of_In, List.filter_In in Hin.
    destruct Hin as [Hin Hf]. apply list_elem_of_In, elem_of_map_to_list in Hin.
    apply andb_prop in Hf as [Ht Ha]. apply bool_decide_eq_true in Ht.
    exists r. simpl in *. done.
  - intros (r & Hr & Ht & Ha). exists (j, r). split; [done|].
    apply list_elem_of_In, List.filter_In. split.
    + by apply list_elem_of_In, elem_of_map_to_list.
    + simpl. apply andb_true_intro. split; [by apply bool_decide_eq_true|done].
Qed.

Lemma activeJobs_NoDup t d : NoDup (activeJobs t d).
Proof.
  unfold activeJobs.
  pose proof (NoDup_fst_map_to_list (jobs d)) as H.
  induction (map_to_list (jobs d)) as [|[j r] l IH]; simpl; [constructor|].
  apply NoDup_cons in H as [Hj Hl].
  destruct (bool_decide (ticket_id r = t) && JobStatus.active (job_status r)); simpl.
  - constructor; [|by apply IH]. intros Hin. apply Hj.
    apply list_elem_of_fmap in Hin as ([j' r'] & -> & Hin).
    apply list_elem_of_In, List.filter_In in Hin as [Hin _].
    apply list_elem_of_fmap. exists (j', r'). split; [done|by apply list_elem_of_In].
  - by apply IH.
Qed.

(** At most one active job per ticket, counted. *)
Lemma atMostOne_length d t : AtMostOneActive (jobs d) -> length (activeJobs t d) <= 1.
Proof.
  intros H. pose proof (activeJobs_NoDup t d) as Hnd.
  destruct (activeJobs t d) as [|j1 [|j2 l]] eqn:E; simpl; [lia|lia|].
  assert (j1 ∈ activeJobs t d) as H1 by (rewrite E; set_solver).
  assert (j2 ∈ activeJobs t d) as H2 by (rewrite E; set_solver).
  apply activeJobs_elem in H1 as (r1 & Hr1 & Ht1 & Ha1).
  apply activeJobs_elem in H2 as (r2 & Hr2 & Ht2 & Ha2).
  assert (j1 = j2) as -> by (eapply H; eauto; congruence).
  apply NoDup_cons in Hnd as [Hn _]. set_solver.
Qed.

Lemma removeFirst_split t q job q' :
  removeFirst t q = Some (job, q') ->
  exists pre post, q = pre ++ job :: post /\ q' = pre ++ post /\ job_ticketId job = t.
Proof.
  revert q'. induction q as [|x q IH]; intros q'; simpl; [done|].
  case_bool_decide as Hx.
  - intros [= <- <-]. by exists [], q.
  - destruct (removeFirst t q) as [[found rest]|]; [|done].
    intros [= <- <-]. destruct (IH rest eq_refl) as (pre & post & -> & -> & Ht).
    by exists (x :: pre), post.
Qed.

Lemma atMostOne_alter (f : JobRow -> JobRow) j (m : gmap nat JobRow) :
  (forall r, ticket_id (f r) = ticket_id r) ->
  (forall r, m !! j = Some r -> activeRow (f r) = true -> activeRow r = true) ->
  AtMostOneActive m -> AtMostOneActive (alter f j m).
Proof.
  intros Ht Ha H j1 j2 r1 r2 H1 H2 Heq A1 A2.
  apply lookup_alter_Some in H1, H2.
  destruct H1 as [(-> & r1' & H1 & ->)|[N1 H1]], H2 as [(-> & r2' & H2 & ->)|[N2 H2]];
    try done.
  - rewrite Ht in Heq. eapply H; eauto.
  - rewrite Ht in Heq. eapply H; eauto.
  - eapply H; eauto.
Qed.

Lemma nodup_ids_middle (kept rest : list ExecutionJob) (job job' : ExecutionJob) :
  NoDup (job_id <$> (kept ++ job :: rest)) -> job' ∈ kept ++ rest ->
  job_id job' ≠ job_id job.
Proof.
  rewrite fmap_app, fmap_cons. intros Hnd Hin Heq.
  apply NoDup_app in Hnd as (_ & Hk & Hr). apply NoDup_cons in Hr as [Hr _].
  apply elem_of_app in Hin as [Hin|Hin].
  - apply (Hk (job_id job)); [|set_solver].
    rewrite <- Heq. apply list_elem_of_fmap. eauto.
  - apply Hr. rewrite <- Heq. apply list_elem_of_fmap. eauto.
Qed.

Lemma nodup_ids_drop (kept rest : list ExecutionJob) (job : ExecutionJob) :
  NoDup (job_id <$> (kept ++ job :: rest)) -> NoDup (job_id <$> (kept ++ rest)).
Proof.
  rewrite !fmap_app, fmap_cons. intros Hnd.
  apply NoDup_app in Hnd as (Hk & Hd & Hr). apply NoDup_cons in Hr as [_ Hr].
  apply NoDup_app. split; [done|]. split; [|done].
  intros x Hx Hx'. apply (Hd x Hx). set_solver.
Qed.

Lemma started_jobStatus m j j' s c :
  s <> JobStatus.pending -> started m j ->
  started (alter (fun r => mkJobRow (ticket_id r) (phase r) s c (retry_count r)) j' m) j.
Proof.
  intros Hs (r & Hr & Hp). unfold started. destruct (decide (j' = j)) as [->|Hne].
  - rewrite lookup_alter_eq, Hr. cbn. by eexists.
  - rewrite lookup_alter_ne by done. by eexists.
Qed.

Lemma started_retry m j j' :
  started m j ->
  started (alter (fun r => mkJobRow (ticket_id r) (phase r) (job_status r) (exit_code r)
                                    (S (retry_count r))) j' m) j.
Proof.
  intros (r & Hr & Hp). unfold started. destruct (decide (j' = j)) as [->|Hne].
  - rewrite lookup_alter_eq, Hr. cbn. by eexists.
  - rewrite lookup_alter_ne by done. by eexists.
Qed.

Lemma started_insert m j f r : m !! f = None -> started m j -> started (<[f := r]> m) j.
Proof.
  intros Hf (r' & Hr' & Hp). exists r'. split; [|done].
  rewrite lookup_insert_ne; [done|]. congruence.
Qed.

(** A started job is not queued: its row can change under the queue. *)
Lemma queuePending_alter q m f j :
  started m j -> QueuePending q m -> QueuePending q (alter f j m).
Proof.
  intros (r & Hr & Hp) Hq job Hin. destruct (Hq job Hin) as (r' & Hr' & Ht & Hs).
  exists r'. split; [|done]. rewrite lookup_alter_ne; [done|].
  intros Heq. rewrite <- Heq in Hr'. congruence.
Qed.

Lemma schedInv_drop kept job rest st :
  SchedInv (kept ++ job :: rest) st -> SchedInv (kept ++ rest) st.
Proof.
  intros (Hnd & Hq & Hrest). split; [by eapply nodup_ids_drop|].
  split; [|done]. intros job' Hin. apply Hq. set_solver.
Qed.

Lemma schedInv_dispatch kept job rest st ticket project :
  SchedInv (kept ++ job :: rest) st ->
  projects_findById (project_id (t_row ticket)) (db st) = Some project ->
  SchedInv (kept ++ rest) (dispatch job ticket project st).
Proof.
  intros (Hnd & Hq & Hw & Ht & [Hp Hpt] & Ha) Hproject.
  destruct (Hq job) as (r & Hr & Hrt & Hrs); [set_solver|].
  assert (started (alter (fun r => mkJobRow (ticket_id r) (phase r) JobStatus.running None
                                            (retry_count r)) (job_id job) (jobs (db st)))
                  (job_id job)) as Hjob.
  { unfold started. rewrite lookup_alter_eq, Hr. cbn. by eexists. }
  assert (manualExecute (p_settings project)) as Hmanual.
  { unfold projects_findById in Hproject.
    destruct (projects (db st) !! project_id (t_row ticket)) as [ps|] eqn:Eps; [|done].
    injection Hproject as <-. by apply (Hp _ _ Eps). }
  unfold SchedInv, NoAutoExecute.
  rewrite dispatch_db, dispatch_activeWorkers, dispatch_tasks.
  cbn [jobs projects jobs_updateStatus].
  split; [by eapply nodup_ids_drop|]. split; [|split; [|split; [|split]]].
  - intros job' Hin. rewrite lookup_alter_ne by (symmetry; by eapply nodup_ids_middle).
    apply Hq. set_solver.
  - intros k w Hk. apply lookup_insert_Some in Hk as [[<- <-]|[Hne Hk]]; [done|].
    by apply started_jobStatus, (Hw k w).
  - intros j tk Hj. apply lookup_insert_Some in Hj as [[<- <-]|[Hne Hj]].
    + by destruct (job_phase job).
    + destruct (Ht j tk Hj) as [Hid Hs]. split; [done|]. by apply started_jobStatus.
  - split; [done|]. apply map_Forall_insert_2; [|done]. by destruct (job_phase job).
  - apply atMostOne_alter; [done| |done].
    intros r' Hr' _. unfold activeRow. by rewrite Hr in Hr'; injection Hr' as <-; rewrite Hrs.
Qed.

Lemma schedInv_tick st :
  SchedInv (queue st) st -> SchedInv (queue (tick config st)) (tick config st).
Proof.
  apply (tick_acc config SchedInv).
  - done.
  - apply schedInv_drop.
  - intros kept job rest st' ticket project HI _ Hp _ _. by eapply schedInv_dispatch.
Qed.

Lemma schedInv_enqueue ph s t st :
  activeJobs t (db st) = [] ->
  SchedInv (queue st) st ->
  SchedInv (queue (enqueue config ph s t st)) (enqueue config ph s t st).
Proof.
  intros Hnone HI. pose proof HI as (Hnd & Hq & Hw & Ht & [Hp Hpt] & Ha). unfold enqueue.
  destruct (jobs_create t ph (db st)) as [[job d]|] eqn:Hc; [|done].
  destruct (jobs_create_tickets _ _ _ _ _ Hc) as (_ & Hproj & _ & -> & Hj & _).
  cbv zeta. apply schedInv_tick. unfold SchedInv, NoAutoExecute. orch_proj. rewrite Hj, Hproj.
  set (f := fresh (dom (jobs (db st)))).
  assert (jobs (db st) !! f = None) as Hf by apply not_elem_of_dom, is_fresh.
  split; [|split; [|split; [|split; [|split]]]].
  - rewrite fmap_app. apply NoDup_app. split; [done|]. split; [|apply NoDup_singleton].
    intros x Hx Hx'. apply list_elem_of_fmap in Hx as (job' & -> & Hin).
    destruct (Hq job' Hin) as (r & Hr & _). cbn in Hx'.
    apply list_elem_of_singleton in Hx'. congruence.
  - intros job' Hin. apply elem_of_app in Hin as [Hin|Hin].
    + destruct (Hq job' Hin) as (r & Hr & Hrest). exists r.
      rewrite lookup_insert_ne by congruence. done.
    + apply list_elem_of_singleton in Hin as ->. cbn. rewrite lookup_insert_eq. eauto.
  - intros k w Hk. by apply started_insert, (Hw k w).
  - intros j tk Hj'. destruct (Ht j tk Hj') as [Hid Hs]. split; [done|].
    by apply started_insert.
  - done.
  - intros j1 j2 r1 r2 H1 H2 Heq A1 A2.
    assert (forall j r, jobs (db st) !! j = Some r -> ticket_id r = t -> activeRow r = true ->
                        False) as Hno.
    { intros j r Hr Hrt Hact.
      assert (j ∈ activeJobs t (db st)) as Hin by (apply activeJobs_elem; eauto).
      rewrite Hnone in Hin. set_solver. }
    apply lookup_insert_Some in H1, H2.
    destruct H1 as [[<- <-]|[N1 H1]], H2 as [[<- <-]|[N2 H2]]; try done.
    + exfalso. eapply Hno; eauto.
    + exfalso. eapply Hno; eauto.
    + eapply Ha; eauto.
Qed.

(** The elementary effects on the job table, the workers and the
    suspended invocations. *)
Lemma schedInv_unqueue pre job post c st :
  SchedInv (pre ++ job :: post) st ->
  SchedInv (pre ++ post)
           (upd_db (jobs_updateStatus (job_id job) JobStatus.failed c) (set_queue (pre ++ post) st)).
Proof.
  intros (Hnd & Hq & Hw & Ht & Hp & Ha). unfold SchedInv, NoAutoExecute. orch_proj.
  split; [by eapply nodup_ids_drop|]. split; [|split; [|split; [|split]]].
  - intros job' Hin. rewrite lookup_alter_ne by (symmetry; by eapply nodup_ids_middle).
    apply Hq. set_solver.
  - intros k w Hk. by apply started_jobStatus, (Hw k w).
  - intros j tk Hj. destruct (Ht j tk Hj) as [Hid Hs]. split; [done|].
    by apply started_jobStatus.
  - done.
  - by apply atMostOne_alter.
Qed.

Lemma schedInv_jobEnded q j s c st :
  JobStatus.active s = false -> started (jobs (db st)) j ->
  SchedInv q st -> SchedInv q (upd_db (jobs_updateStatus j s c) st).
Proof.
  intros Hact Hj (Hnd & Hq & Hw & Ht & Hp & Ha). unfold SchedInv, NoAutoExecute. orch_proj.
  assert (s <> JobStatus.pending) as Hs by (by intros ->).
  split; [done|]. split; [|split; [|split; [|split]]].
  - by apply queuePending_alter.
  - intros k w Hk. by apply started_jobStatus, (Hw k w).
  - intros j' tk Hj'. destruct (Ht j' tk Hj') as [Hid Hst]. split; [done|].
    by apply started_jobStatus.
  - done.
  - apply atMostOne_alter; [done| |done]. intros r _. unfold activeRow. cbn. by rewrite Hact.
Qed.

Lemma schedInv_retry q j st :
  started (jobs (db st)) j ->
  SchedInv q st -> SchedInv q (upd_db (jobs_incrementRetry j) st).
Proof.
  intros Hj (Hnd & Hq & Hw & Ht & Hp & Ha). unfold SchedInv, NoAutoExecute. orch_proj.
  split; [done|]. split; [|split; [|split; [|split]]].
  - by apply queuePending_alter.
  - intros k w Hk. by apply started_retry, (Hw k w).
  - intros j' tk Hj'. destruct (Ht j' tk Hj') as [Hid Hst]. split; [done|].
    by apply started_retry.
  - done.
  - by apply atMostOne_alter.
Qed.

Lemma schedInv_workers q k st :
  SchedInv q st -> SchedInv q (set_activeWorkers (delete k (activeWorkers st)) st).
Proof.
  intros (Hnd & Hq & Hw & Hrest). unfold SchedInv, NoAutoExecute. orch_proj.
  split; [done|]. split; [done|]. split; [|done].
  intros k' w Hk. apply lookup_delete_Some in Hk as [_ Hk]. by apply (Hw k' w).
Qed.

Lemma schedInv_ended q j st :
  SchedInv q st -> SchedInv q (set_tasks (delete j (tasks st)) st).
Proof.
  intros (Hnd & Hq & Hw & Ht & [Hp Hpt] & Ha). unfold SchedInv, NoAutoExecute. orch_proj.
  split; [done|]. split; [done|]. split; [done|]. split; [|split; [split|]]; try done.
  - intros j' tk Hj'. apply lookup_delete_Some in Hj' as [_ Hj']. by apply Ht.
  - by apply map_Forall_delete.
Qed.

Lemma schedInv_setpc q j tk pc st :
  job_id (tk_job tk) = j -> started (jobs (db st)) j ->
  manualExecute (p_settings (tk_project tk)) ->
  SchedInv q st -> SchedInv q (set_pc j tk pc st).
Proof.
  intros Hid Hj Hm (Hnd & Hq & Hw & Ht & [Hp Hpt] & Ha). unfold SchedInv, NoAutoExecute.
  orch_proj.
  split; [done|]. split; [done|]. split; [done|]. split; [|split; [split|]]; try done.
  - intros j' tk' Hj'. apply lookup_insert_Some in Hj' as [[<- <-]|[_ Hj']]; [done|].
    by apply Ht.
  - by apply map_Forall_insert_2.
Qed.

Lemma schedInv_cancel t st :
  SchedInv (queue st) st -> SchedInv (queue (cancel t st)) (cancel t st).
Proof.
  intros HI. unfold cancel. cbv zeta.
  match goal with |- context [runner_cancel t ?s] => set (st1 := s) end.
  assert (SchedInv (queue st1) st1) as H1.
  { subst st1. destruct (removeFirst t (queue st)) as [[job q']|] eqn:Eq; [|done].
    destruct (removeFirst_split _ _ _ _ Eq) as (pre & post & Hs & -> & _).
    rewrite Hs in HI. by apply schedInv_unqueue. }
  clearbody st1.
  assert (SchedInv (queue (runner_cancel t st1)) (runner_cancel t st1)) as H2.
  { unfold runner_cancel. by destruct (processes st1 !! t). }
  set (st2 := runner_cancel t st1) in *. clearbody st2.
  destruct (activeWorkers st2 !! t) as [w|] eqn:Ew; [|done].
  pose proof H2 as (_ & _ & Hw & _).
  apply (schedInv_jobEnded (queue st2) (job_id (w_job w)) JobStatus.failed); [done| |].
  - by apply (Hw t w).
  - by apply (schedInv_workers (queue st2) t st2).
Qed.

(** *** The transitions of a worker *)

Lemma started_tick j st :
  started (jobs (db st)) j -> started (jobs (db (tick config st))) j.
Proof.
  apply (tick_state config (fun st => started (jobs (db st)) j)); [done|].
  intros job ticket project st' H _ _ _ _. rewrite dispatch_db. by apply started_jobStatus.
Qed.

Lemma workerInv_tick j st : WorkerInv j st -> WorkerInv j (tick config st).
Proof. intros [Hj HI]. split; [by apply started_tick|by apply schedInv_tick]. Qed.

Lemma workerInv_processes j p st : WorkerInv j st -> WorkerInv j (set_processes p st).
Proof. done. Qed.

Lemma workerInv_stop j j' st : WorkerInv j st -> WorkerInv j (logStreamer_stop j' st).
Proof. done. Qed.

Lemma workerInv_watch j j' st : WorkerInv j st -> WorkerInv j (logStreamer_watch j' st).
Proof. done. Qed.

Lemma workerInv_emit j e st : WorkerInv j st -> WorkerInv j (emit e st).
Proof. done. Qed.

Lemma workerInv_called j t j' st : WorkerInv j st -> WorkerInv j (runner_run t j' st).
Proof. done. Qed.

Lemma workerInv_status j t s e st :
  WorkerInv j st -> WorkerInv j (upd_db (tickets_updateStatus t s e) st).
Proof. done. Qed.

Lemma workerInv_plan j t p st :
  WorkerInv j st -> WorkerInv j (upd_db (tickets_updatePlan t p) st).
Proof. done. Qed.

Lemma workerInv_branch j t b w st :
  WorkerInv j st -> WorkerInv j (upd_db (tickets_updateBranch t b w) st).
Proof. done. Qed.

Lemma workerInv_metadata j t m st :
  WorkerInv j st -> WorkerInv j (upd_db (tickets_setMetadata t m) st).
Proof. done. Qed.

Lemma workerInv_workers j k st :
  WorkerInv j st -> WorkerInv j (set_activeWorkers (delete k (activeWorkers st)) st).
Proof. intros [Hj HI]. split; [done|]. by apply (schedInv_workers (queue st)). Qed.

Lemma workerInv_ended j j' st :
  WorkerInv j st -> WorkerInv j (set_tasks (delete j' (tasks st)) st).
Proof. intros [Hj HI]. split; [done|]. by apply (schedInv_ended (queue st)). Qed.

Lemma workerInv_jobCompleted j c st :
  WorkerInv j st -> WorkerInv j (upd_db (jobs_updateStatus j JobStatus.completed c) st).
Proof.
  intros [Hj HI]. split; [by apply started_jobStatus|].
  by apply (schedInv_jobEnded (queue st)).
Qed.

Lemma workerInv_jobFailed j c st :
  WorkerInv j st -> WorkerInv j (upd_db (jobs_updateStatus j JobStatus.failed c) st).
Proof.
  intros [Hj HI]. split; [by apply started_jobStatus|].
  by apply (schedInv_jobEnded (queue st)).
Qed.

Lemma workerInv_retry j st :
  WorkerInv j st -> WorkerInv j (upd_db (jobs_incrementRetry j) st).
Proof.
  intros [Hj HI]. split; [by apply started_retry|]. by apply (schedInv_retry (queue st)).
Qed.

Lemma workerInv_setpc j tk pc st :
  job_id (tk_job tk) = j -> manualExecute (p_settings (tk_project tk)) ->
  WorkerInv j st -> WorkerInv j (set_pc j tk pc st).
Proof.
  intros Hid Hm [Hj HI]. split; [done|]. by apply (schedInv_setpc (queue st)).
Qed.

Create HintDb worker.

Local Hint Resolve workerInv_tick workerInv_processes workerInv_stop workerInv_watch
  workerInv_emit workerInv_called workerInv_status workerInv_plan workerInv_branch
  workerInv_metadata workerInv_workers workerInv_ended workerInv_jobCompleted
  workerInv_jobFailed workerInv_retry workerInv_setpc : worker.

Lemma workerInv_finishWorker job ticket project succeeded msg st :
  WorkerInv (job_id job) st ->
  WorkerInv (job_id job) (finishWorker config job ticket project succeeded msg st).
Proof.
  intros H. unfold finishWorker. cbv zeta. destruct succeeded; eauto 10 with worker.
Qed.

Lemma workerInv_workerFailed j tk msg st :
  job_id (tk_job tk) = j -> WorkerInv j st -> WorkerInv j (workerFailed config j tk msg st).
Proof.
  intros <- H. unfold workerFailed. by apply workerInv_finishWorker, workerInv_ended.
Qed.

Lemma workerInv_planCompleted j tk st :
  job_id (tk_job tk) = j -> WorkerInv j st -> WorkerInv j (planCompleted config j tk st).
Proof. intros <- H. unfold planCompleted. cbv zeta. eauto 10 with worker. Qed.

Lemma workerInv_execLoopHead j tk st :
  job_id (tk_job tk) = j -> manualExecute (p_settings (tk_project tk)) ->
  WorkerInv j st -> WorkerInv j (execLoopHead config j tk st).
Proof.
  intros Hid Hm H. unfold execLoopHead.
  destruct (tk_retryCount tk <=? maxRetries config); [eauto with worker|].
  by apply workerInv_workerFailed.
Qed.

Lemma workerInv_execSucceeded j tk st :
  job_id (tk_job tk) = j -> manualExecute (p_settings (tk_project tk)) ->
  WorkerInv j st -> WorkerInv j (execSucceeded j tk st).
Proof.
  intros Hid Hm H. unfold execSucceeded.
  destruct (configured (tk_lintCommand tk)); eauto with worker.
Qed.

Local Hint Resolve workerInv_finishWorker workerInv_workerFailed workerInv_planCompleted
  workerInv_execLoopHead workerInv_execSucceeded : worker.

(** Every resumption of a worker keeps the invariant. *)
Lemma schedInv_worker a j st :
  actsOn a = Some j ->
  SchedInv (queue st) st ->
  let st' := step config slugify extractPlanFromOutput a st in
  SchedInv (queue st') st'.
Proof.
  intros Ha HI. cbv zeta.
  destruct (tasks st !! j) as [tk|] eqn:Etk.
  2: { destruct a; try done; cbn in Ha; injection Ha as ->; cbn [step]; unfold withTask;
         by rewrite Etk. }
  pose proof HI as (_ & _ & _ & Ht & [_ Hpt] & _).
  destruct (Ht j tk Etk) as [Hid Hj]. pose proof (Hpt j tk Etk) as Hm. cbn beta in Hm.
  assert (WorkerInv j st) as HW by done.
  apply (proj2 (A := started (jobs (db (step config slugify extractPlanFromOutput a st))) j)).
  change (WorkerInv j (step config slugify extractPlanFromOutput a st)).
  destruct a; try done; cbn in Ha; injection Ha as ->; cbn [step]; unfold withTask;
    rewrite Etk.
  - unfold agentSpawned. destruct (tk_pc tk); eauto with worker.
  - unfold agentClosed. cbv zeta. destruct (tk_pc tk); try done.
    + case_bool_decide; [eauto with worker|]. rewrite Hm. eauto 10 with worker.
    + case_bool_decide; [eauto with worker|].
      destruct (configured (tk_testCommand tk)); eauto 10 with worker.
  - unfold planResumed. destruct (tk_pc tk); eauto with worker.
  - unfold worktreeReady. cbv zeta. destruct (tk_pc tk); try done.
    apply workerInv_execLoopHead; [done|done|]. eauto 10 with worker.
  - unfold testExited. cbv zeta. destruct (tk_pc tk); try done.
    case_bool_decide; [eauto with worker|]. cbn [tk_job]. rewrite Hid.
    destruct (maxRetries config <? S (tk_retryCount tk)).
    + apply workerInv_workerFailed; [done|]. eauto with worker.
    + apply workerInv_execLoopHead; [done|done|]. eauto with worker.
  - unfold lintDone. destruct (tk_pc tk); eauto with worker.
  - unfold summaryDone. cbv zeta. destruct (tk_pc tk); try done.
    rewrite <- Hid at 1. apply workerInv_finishWorker, workerInv_ended. rewrite Hid.
    destruct files; eauto with worker.
  - unfold workerThrew. destruct (tk_pc tk); eauto with worker.
Qed.

Lemma schedInv_run acts st :
  guarded config slugify extractPlanFromOutput acts st ->
  SchedInv (queue st) st ->
  let st' := run config slugify extractPlanFromOutput acts st in
  SchedInv (queue st') st'.
Proof.
  revert st. induction acts as [|a acts IH]; intros st Hg HI; [done|].
  destruct Hg as [Ha Hg]. simpl. apply IH; [done|].
  destruct (actsOn a) as [j|] eqn:Hact; [by apply (schedInv_worker a j)|].
  destruct a; try done; cbn [step callAllowed] in *.
  - by apply schedInv_enqueue.
  - by apply schedInv_enqueue.
  - by apply schedInv_cancel.
  - by apply schedInv_tick.
Qed.

(** C3 (as the code has it): from a store without active jobs and
    without a project that enqueues the execute job from the plan worker,
    along every run of enqueuePlan, enqueueExecute, cancel, ticks and
    worker resumptions in which no ticket is enqueued while it has a
    pending or running job, every ticket has at most one active job. *)
Theorem one_active_job_when_enqueues_are_guarded (d : Db) (acts : list Action) :
  map_Forall (fun _ r => activeRow r = false) (jobs d) ->
  map_Forall (fun _ s => manualExecute s) (projects d) ->
  guarded config slugify extractPlanFromOutput acts (initial d) ->
  forall t,
    length (activeJobs t (db (run config slugify extractPlanFromOutput acts (initial d)))) <= 1.
Proof.
  intros Hd Hp Hg t. apply atMostOne_length.
  apply (schedInv_run acts (initial d) Hg). unfold SchedInv, NoAutoExecute. simpl.
  split; [constructor|]. split; [by intros job Hin; set_solver|].
  split; [by intros k w Hk|]. split; [by intros j tk Hj|].
  split; [split; [done|apply map_Forall_empty]|].
  intros j1 j2 r1 r2 H1 _ _ A1 _. apply Hd in H1. simpl in H1. congruence.
Qed.

End OneActive.


Section OneActiveExamples.
Import Store Orchestrator OrchestratorInv Sample.
Local Open Scope string_scope.
Local Open Scope list_scope.
Local Open Scope nat_scope.

(** The theorem at a run with one worker slot: the plan of ticket A is
    cancelled and its killed agent closes, A is enqueued again behind B,
    and the plan of B completes. *)
Lemma one_active_job_when_enqueues_are_guarded_witness :
  let config := mkConfig 1 2 "autodev/" in
  let d := sampleDb 2 false None in
  let acts := [EnqueuePlan "A"; AgentSpawned 0; EnqueuePlan "B"; Cancel "A";
               AgentClosed 0 143%Z ""; EnqueuePlan "A"; Tick; AgentSpawned 1;
               AgentClosed 1 0%Z "plan"; AgentSpawned 2] in
  map_Forall (fun _ r => activeRow r = false) (jobs d)
  /\ map_Forall (fun _ s => manualExecute s) (projects d)
  /\ guarded config plainText plainText acts (initial d)
  /\ length (activeJobs "A" (db (run config plainText plainText acts (initial d)))) <= 1.
Proof.
  intros config d acts.
  assert (map_Forall (fun _ r => activeRow r = false) (jobs d)) as Hd.
  { apply map_Forall_empty. }
  assert (map_Forall (fun _ s => manualExecute s) (projects d)) as Hp.
  { apply map_Forall_insert_2; [reflexivity|apply map_Forall_empty]. }
  assert (guarded config plainText plainText acts (initial d)) as Hg.
  { cbn [guarded callAllowed acts]. repeat split; vm_compute; reflexivity. }
  split; [exact Hd|]. split; [exact Hp|]. split; [exact Hg|].
  exact (one_active_job_when_enqueues_are_guarded config plainText plainText d acts
           Hd Hp Hg "A").
Defined.

(** C3, counterexample: enqueuePlan is called twice for ticket A, with
    one worker slot.  The first job is running when the second call adds a
    pending one: the ticket has two active jobs. *)
Lemma second_enqueue_adds_active_job :
  let config := mkConfig 1 2 "autodev/" in
  let st := run config plainText plainText [EnqueuePlan "A"; EnqueuePlan "A"]
                (initial (sampleDb 2 false None)) in
  job_status <$> jobs (db st) !! 0 = Some JobStatus.running
  /\ job_status <$> jobs (db st) !! 1 = Some JobStatus.pending
  /\ ticket_id <$> jobs (db st) !! 0 = Some "A"
  /\ ticket_id <$> jobs (db st) !! 1 = Some "A"
  /\ length (activeJobs "A" (db st)) = 2.
Proof. cbv zeta. repeat split; vm_compute; reflexivity. Qed.

(** With [autoExecuteAfterPlan] the plan worker enqueues the execute job
    before it marks its own job 'completed': both jobs of the ticket are
    running until the plan worker resumes. *)
Example auto_execute_overlaps_plan_job :
  let config := mkConfig 2 2 "autodev/" in
  let st := run config plainText plainText
                [EnqueuePlan "A"; AgentSpawned 0; AgentClosed 0 0%Z "plan"]
                (initial (sampleDb 2 true None)) in
  let st' := step config plainText plainText (PlanResumed 0) st in
  job_status <$> jobs (db st) !! 0 = Some JobStatus.running
  /\ job_status <$> jobs (db st) !! 1 = Some JobStatus.running
  /\ length (activeJobs "A" (db st)) = 2
  /\ length (activeJobs "A" (db st')) = 1.
Proof. cbv zeta. repeat split; vm_compute; reflexivity. Qed.

End OneActiveExamples.

(** ** The retry loop *)

Section RetryLoop.
Import Store Orchestrator OrchestratorInv Sample.
Local Open Scope string_scope.
Local Open Scope list_scope.
Local Open Scope nat_scope.

Variable config : OrchestratorConfig.
Variables slugify extractPlanFromOutput : string -> string.
Variable j : nat.

Lemma agentInvocations_run t j' st :
  agentInvocations j (runner_run t j' st)
  = (if decide (j' = j) then 1 else 0) + agentInvocations j st.
Proof.
  unfold agentInvocations, runner_run. orch_proj. rewrite List.filter_app, length_app.
  simpl. case_bool_decide; case_decide; simpl; try done; lia.
Qed.

Lemma dispatch_frame job ticket project task n st :
  job_id job <> j ->
  j ∈ dom (jobs (db st)) /\ tasks st !! j = task /\ agentInvocations j st = n ->
  j ∈ dom (jobs (db (dispatch job ticket project st)))
  /\ tasks (dispatch job ticket project st) !! j = task
  /\ agentInvocations j (dispatch job ticket project st) = n.
Proof.
  intros Hne (Hd & Ht & Hn). unfold dispatch, runWorker.
  destruct (job_phase job); cbv zeta; unfold agentInvocations in *; orch_proj;
    rewrite dom_alter_L, lookup_insert_ne by done;
    rewrite ?List.filter_app, ?length_app; cbn [List.filter snd length];
    rewrite ?bool_decide_eq_false_2 by done; cbn [length]; rewrite ?Nat.add_0_r; done.
Qed.

Lemma frame_tick task n st : JobFrame j task n st -> JobFrame j task n (tick config st).
Proof.
  unfold JobFrame.
  apply (tick_acc config
           (fun q st => j ∈ dom (jobs (db st)) /\ (j ∉ (job_id <$> q))
                        /\ tasks st !! j = task /\ agentInvocations j st = n)).
  - by intros q q0 st'.
  - intros kept job rest st' (Hd & Hq & Ht). split; [done|]. split; [|done].
    rewrite fmap_app in *. rewrite fmap_cons in Hq. set_solver.
  - intros kept job rest st' ticket project (Hd & Hq & Ht & Hn) _ _ _ _.
    assert (job_id job <> j) as Hne.
    { intros <-. apply Hq. rewrite fmap_app, fmap_cons. set_solver. }
    destruct (dispatch_frame job ticket project task n st' Hne) as (H1 & H2 & H3); [done|].
    split; [done|]. split; [|done].
    rewrite fmap_app in *. rewrite fmap_cons in Hq. set_solver.
Qed.

(** The elementary effects that leave job [j] alone. *)
Lemma frame_step task n a st :
  (forall j', actsOn a = Some j' -> j' <> j) ->
  JobFrame j task n st ->
  JobFrame j task n (step config slugify extractPlanFromOutput a st).
Proof.
  apply (step_preserves_ok config slugify extractPlanFromOutput (JobFrame j task n)
           (fun j' => j' <> j)); unfold JobFrame.
  - intros t job q' st' Hr (Hd & Hq & Ht). split; [done|]. split; [|done].
    destruct (removeFirst_split _ _ _ _ Hr) as (pre & post & Hs & -> & _).
    rewrite Hs in Hq. rewrite fmap_app in *. rewrite fmap_cons in Hq. set_solver.
  - intros j' tk st' Hne H. orch_proj. by rewrite lookup_insert_ne.
  - intros j' st' Hne H. orch_proj. by rewrite lookup_delete_ne.
  - intros t j' st' Hne H. rewrite agentInvocations_run, decide_False by done. done.
  - by intros.
  - by intros.
  - by intros.
  - by intros.
  - by intros.
  - by intros.
  - intros j' s c st' H. orch_proj. by rewrite dom_alter_L.
  - intros j' st' H. orch_proj. by rewrite dom_alter_L.
  - by intros.
  - by intros.
  - by intros.
  - by intros.
  - intros ph s t job d st' _ Hc (Hd & Hq & Ht).
    destruct (jobs_create_tickets _ _ _ _ _ Hc) as (_ & _ & _ & -> & Hj & _).
    unfold agentInvocations in *. orch_proj. rewrite Hj, dom_insert_L.
    split; [set_solver|]. split; [|done].
    rewrite fmap_app. cbn. intros Hin. apply elem_of_app in Hin as [Hin|Hin]; [done|].
    apply list_elem_of_singleton in Hin. subst j. by apply (is_fresh (dom (jobs (db st')))).
  - apply frame_tick.
Qed.

Ltac frame_solve :=
  unfold JobFrame, agentInvocations in *; orch_proj; rewrite ?dom_alter_L; done.

Lemma frame_processes task n p st :
  JobFrame j task n st -> JobFrame j task n (set_processes p st).
Proof. intros. frame_solve. Qed.

Lemma frame_watchers task n w st :
  JobFrame j task n st -> JobFrame j task n (set_watchers w st).
Proof. intros. frame_solve. Qed.

Lemma frame_stop task n j' st :
  JobFrame j task n st -> JobFrame j task n (logStreamer_stop j' st).
Proof. intros. frame_solve. Qed.

Lemma frame_watch task n j' st :
  JobFrame j task n st -> JobFrame j task n (logStreamer_watch j' st).
Proof. intros. frame_solve. Qed.

Lemma frame_emit task n e st : JobFrame j task n st -> JobFrame j task n (emit e st).
Proof. intros. frame_solve. Qed.

Lemma frame_jobStatus task n j' s c st :
  JobFrame j task n st -> JobFrame j task n (upd_db (jobs_updateStatus j' s c) st).
Proof. intros. frame_solve. Qed.

Lemma frame_retry task n j' st :
  JobFrame j task n st -> JobFrame j task n (upd_db (jobs_incrementRetry j') st).
Proof. intros. frame_solve. Qed.

Lemma frame_status task n t s e st :
  JobFrame j task n st -> JobFrame j task n (upd_db (tickets_updateStatus t s e) st).
Proof. intros. frame_solve. Qed.

Lemma frame_plan task n t p st :
  JobFrame j task n st -> JobFrame j task n (upd_db (tickets_updatePlan t p) st).
Proof. intros. frame_solve. Qed.

Lemma frame_branch task n t b w st :
  JobFrame j task n st -> JobFrame j task n (upd_db (tickets_updateBranch t b w) st).
Proof. intros. frame_solve. Qed.

Lemma frame_metadata task n t m st :
  JobFrame j task n st -> JobFrame j task n (upd_db (tickets_setMetadata t m) st).
Proof. intros. frame_solve. Qed.

Lemma frame_workers task n k st :
  JobFrame j task n st ->
  JobFrame j task n (set_activeWorkers (delete k (activeWorkers st)) st).
Proof. intros. frame_solve. Qed.

Lemma frame_setpc task n tk pc st :
  JobFrame j task n st ->
  JobFrame j (Some (mkTask (tk_job tk) (tk_ticket tk) (tk_project tk) pc (tk_retryCount tk)
                           (tk_lastError tk) (tk_worktreePath tk) (tk_testCommand tk)
                           (tk_lintCommand tk))) n (set_pc j tk pc st).
Proof.
  intros (Hd & Hq & Ht & Hn). unfold JobFrame, agentInvocations in *. orch_proj.
  by rewrite lookup_insert_eq.
Qed.

Lemma frame_ended task n st :
  JobFrame j task n st -> JobFrame j None n (set_tasks (delete j (tasks st)) st).
Proof.
  intros (Hd & Hq & Ht & Hn). unfold JobFrame, agentInvocations in *. orch_proj.
  by rewrite lookup_delete_eq.
Qed.

Lemma frame_called task n t st :
  JobFrame j task n st -> JobFrame j task (S n) (runner_run t j st).
Proof.
  intros (Hd & Hq & Ht & Hn). unfold JobFrame. rewrite agentInvocations_run, decide_True by done.
  unfold agentInvocations in *. orch_proj. by rewrite Hn.
Qed.

Lemma frame_finishWorker task n job ticket project succeeded msg st :
  JobFrame j task n st ->
  JobFrame j task n (finishWorker config job ticket project succeeded msg st).
Proof.
  apply (preserved_finishWorker config (JobFrame j task n));
    eauto using frame_watchers, frame_workers, frame_emit, frame_jobStatus, frame_status,
      frame_tick.
Qed.

Lemma frame_workerFailed task n tk msg st :
  JobFrame j task n st -> JobFrame j None n (workerFailed config j tk msg st).
Proof. intros H. unfold workerFailed. by eapply frame_finishWorker, frame_ended. Qed.

Lemma frame_planCompleted task n tk st :
  JobFrame j task n st -> JobFrame j None n (planCompleted config j tk st).
Proof.
  intros H. unfold planCompleted. cbv zeta.
  by eapply frame_tick, frame_workers, frame_jobStatus, frame_ended.
Qed.

Lemma frame_enqueueExecute task n t st :
  JobFrame j task n st -> JobFrame j task n (enqueueExecute config t st).
Proof.
  intros H.
  apply (frame_step task n (EnqueueExecute t) st); [done|exact H].
Qed.

Lemma retryBound_le task n : retryBound (maxRetries config) task n -> n <= S (maxRetries config).
Proof.
  unfold retryBound. destruct task as [tk|]; [|done]. destruct (tk_pc tk); lia.
Qed.

Create HintDb frame.

Local Hint Resolve frame_processes frame_watchers frame_stop frame_watch frame_emit
  frame_jobStatus frame_retry frame_status frame_plan frame_branch frame_metadata
  frame_workers frame_setpc frame_ended frame_called frame_finishWorker frame_workerFailed
  frame_planCompleted frame_enqueueExecute : frame.

Lemma retry_execLoopHead task n tk st :
  JobFrame j task n st ->
  n = tk_retryCount tk -> n <= S (maxRetries config) ->
  RetryInv (maxRetries config) j (execLoopHead config j tk st).
Proof.
  intros F -> Hle. unfold execLoopHead.
  destruct (Nat.leb_spec (tk_retryCount tk) (maxRetries config)) as [Hr|Hr].
  - eexists _, _. split; [eapply frame_setpc, frame_called, F|]. cbn. lia.
  - exists None, (tk_retryCount tk). split; [eauto with frame|]. cbn. lia.
Qed.

Lemma retry_execSucceeded task n tk st :
  JobFrame j task n st -> n <= S (maxRetries config) ->
  RetryInv (maxRetries config) j (execSucceeded j tk st).
Proof.
  intros F Hle. unfold execSucceeded.
  destruct (configured (tk_lintCommand tk)); eexists _, _;
    (split; [eauto with frame|]); cbn; lia.
Qed.

Lemma retry_ended n st :
  JobFrame j None n st -> n <= S (maxRetries config) -> RetryInv (maxRetries config) j st.
Proof. intros F Hle. by exists None, n. Qed.

(** The bound on the calls of [runner.run] for job [j] is kept by every
    transition. *)
Lemma retryInv_step a st :
  RetryInv (maxRetries config) j st ->
  RetryInv (maxRetries config) j (step config slugify extractPlanFromOutput a st).
Proof.
  intros (task & n & F & B).
  destruct (actsOn a) as [j'|] eqn:Ha.
  2: { exists task, n. split; [|done]. apply frame_step; [|done]. intros j''. by rewrite Ha. }
  destruct (decide (j' = j)) as [->|Hne].
  2: { exists task, n. split; [|done]. apply frame_step; [|done]. intros j''. congruence. }
  pose proof F as (Hd & Hq & Ht & Hn).
  pose proof (retryBound_le _ _ B) as Hle.
  destruct a; try done; cbn in Ha; injection Ha as ->; cbn [step]; unfold withTask;
    rewrite Ht; (destruct task as [tk|]; [|by exists None, n]);
    unfold retryBound in B.
  - (* the agent process is spawned *)
    unfold agentSpawned. destruct (tk_pc tk) eqn:Hpc;
      try (by exists (Some tk), n; split; [|unfold retryBound; rewrite Hpc]);
      eexists _, _; (split; [eauto with frame|]); cbn; done.
  - (* the agent process closes *)
    unfold agentClosed. cbv zeta. destruct (tk_pc tk) eqn:Hpc;
      try (by exists (Some tk), n; split; [|unfold retryBound; rewrite Hpc]).
    + case_bool_decide; [eapply retry_ended; eauto with frame|].
      destruct (autoExecuteAfterPlan (p_settings (tk_project tk))).
      * case_match; [|eapply retry_ended; eauto 10 with frame].
        eexists _, _. split; [eauto 10 with frame|]. cbn. done.
      * eapply retry_ended; eauto 10 with frame.
    + case_bool_decide; [eapply retry_ended; eauto with frame|].
      destruct (configured (tk_testCommand tk)).
      * eexists _, _. split; [eauto 10 with frame|]. cbn. done.
      * eapply retry_execSucceeded; eauto with frame.
  - (* the plan worker resumes after enqueueExecute *)
    unfold planResumed. destruct (tk_pc tk) eqn:Hpc;
      try (by exists (Some tk), n; split; [|unfold retryBound; rewrite Hpc]).
    eapply retry_ended; eauto with frame.
  - (* the worktree is ready *)
    unfold worktreeReady. cbv zeta. destruct (tk_pc tk) eqn:Hpc;
      try (by exists (Some tk), n; split; [|unfold retryBound; rewrite Hpc]).
    eapply retry_execLoopHead; [eauto 10 with frame|cbn; lia|lia].
  - (* the test command exits *)
    unfold testExited. cbv zeta. destruct (tk_pc tk) eqn:Hpc;
      try (by exists (Some tk), n; split; [|unfold retryBound; rewrite Hpc]).
    case_bool_decide; [eapply retry_execSucceeded; eauto with frame|].
    destruct (maxRetries config <? S (tk_retryCount tk)).
    + eapply retry_ended; eauto with frame.
    + eapply retry_execLoopHead; [eauto with frame|cbn; lia|lia].
  - (* the lint command exits *)
    unfold lintDone. destruct (tk_pc tk) eqn:Hpc;
      try (by exists (Some tk), n; split; [|unfold retryBound; rewrite Hpc]).
    eexists _, _. split; [eauto with frame|]. cbn. done.
  - (* the change summary settles *)
    unfold summaryDone. cbv zeta. destruct (tk_pc tk) eqn:Hpc;
      try (by exists (Some tk), n; split; [|unfold retryBound; rewrite Hpc]).
    eapply retry_ended; [|done]. destruct files; eauto 10 with frame.
  - (* an awaited promise rejects *)
    unfold workerThrew. destruct (tk_pc tk) eqn:Hpc;
      try (by exists (Some tk), n; split; [|unfold retryBound; rewrite Hpc]);
      eapply retry_ended; eauto with frame.
Qed.

Lemma retryInv_run acts st :
  RetryInv (maxRetries config) j st ->
  RetryInv (maxRetries config) j (run config slugify extractPlanFromOutput acts st).
Proof.
  revert st. induction acts as [|a acts IH]; intros st H; [done|].
  simpl. by apply IH, retryInv_step.
Qed.

(** *** The run in which every test fails *)

Lemma ticketMeta_status tid m t s e d :
  ticketMeta tid m d -> ticketMeta tid m (tickets_updateStatus t s e d).
Proof.
  intros (row & Hr & Hm). unfold ticketMeta. cbn.
  destruct (decide (t = tid)) as [->|Hne].
  - rewrite lookup_alter_eq, Hr. cbn. by eexists.
  - rewrite lookup_alter_ne by done. by eexists.
Qed.

Lemma ticketMeta_branch tid m t b w d :
  ticketMeta tid m d -> ticketMeta tid m (tickets_updateBranch t b w d).
Proof.
  intros (row & Hr & Hm). unfold ticketMeta. cbn.
  destruct (decide (t = tid)) as [->|Hne].
  - rewrite lookup_alter_eq, Hr. cbn. by eexists.
  - rewrite lookup_alter_ne by done. by eexists.
Qed.

Lemma ticketFailed_status tid msg m d :
  ticketMeta tid m d ->
  ticketFailed tid msg m (tickets_updateStatus tid TicketStatus.failed (Some msg) d).
Proof.
  intros (row & Hr & Hm). unfold ticketFailed. cbn.
  rewrite lookup_alter_eq, Hr. cbn. by eexists.
Qed.

Lemma ticketMeta_jobStatus tid m j' s c d :
  ticketMeta tid m d -> ticketMeta tid m (jobs_updateStatus j' s c d).
Proof. done. Qed.

Lemma ticketMeta_retry tid m j' d :
  ticketMeta tid m d -> ticketMeta tid m (jobs_incrementRetry j' d).
Proof. done. Qed.

Lemma ticketFailed_jobStatus tid msg m j' s c d :
  ticketFailed tid msg m d -> ticketFailed tid msg m (jobs_updateStatus j' s c d).
Proof. done. Qed.

Lemma jobRetries_jobStatus n j' s c d :
  jobRetries j n d -> jobRetries j n (jobs_updateStatus j' s c d).
Proof.
  intros (r & Hr & Hn). unfold jobRetries. cbn.
  destruct (decide (j' = j)) as [->|Hne].
  - rewrite lookup_alter_eq, Hr. cbn. by eexists.
  - rewrite lookup_alter_ne by done. by eexists.
Qed.

Lemma jobRetries_increment n d :
  jobRetries j n d -> jobRetries j (S n) (jobs_incrementRetry j d).
Proof.
  intros (r & Hr & Hn). unfold jobRetries. cbn.
  rewrite lookup_alter_eq, Hr. cbn. eexists. split; [done|]. cbn. by rewrite Hn.
Qed.

Ltac db_proj :=
  cbn [Orchestrator.db Orchestrator.emit Orchestrator.upd_db Orchestrator.set_tasks
       Orchestrator.set_processes Orchestrator.set_runnerCalls Orchestrator.set_watchers
       Orchestrator.set_events Orchestrator.set_pc Orchestrator.runner_run
       Orchestrator.logStreamer_stop Orchestrator.logStreamer_watch].

Ltac task_proj :=
  cbn [Orchestrator.tk_pc Orchestrator.tk_retryCount Orchestrator.tk_job
       Orchestrator.tk_ticket Orchestrator.tk_project Orchestrator.tk_testCommand
       Orchestrator.tk_lintCommand Orchestrator.tk_lastError Orchestrator.tk_worktreePath].

Lemma loop_entered tk m rc path stack st :
  JobFrame j (Some tk) 0 st -> tk_pc tk = ExecAwaitWorktree -> job_id (tk_job tk) = j ->
  configured (nullish (testCommand (p_settings (tk_project tk))) (stack_testCommand stack))
    = true ->
  ticketMeta (t_id (tk_ticket tk)) m (db st) -> jobRetries j rc (db st) ->
  InLoop ExecAwaitSpawn j 0 (t_id (tk_ticket tk)) m rc
         (step config slugify extractPlanFromOutput (WorktreeReady j path stack) st).
Proof.
  intros F Hpc Hj Hc HT HJ. pose proof F as (_ & _ & Ht & _).
  cbn [step]. unfold withTask. rewrite Ht. unfold worktreeReady. rewrite Hpc. cbv zeta.
  unfold execLoopHead. task_proj. cbn [Nat.leb].
  eexists. split; [eapply frame_setpc, frame_called; eauto 10 with frame|].
  task_proj. repeat (split; [done|]). db_proj. split.
  - by apply ticketMeta_status, ticketMeta_branch.
  - rewrite Nat.add_0_r. done.
Qed.

Lemma loop_spawned k tid m rc st :
  InLoop ExecAwaitSpawn j k tid m rc st ->
  InLoop ExecAwaitClose j k tid m rc
         (step config slugify extractPlanFromOutput (AgentSpawned j) st).
Proof.
  intros (tk & F & Hpc & Hrc & Hj & Hid & Htc & HT & HJ). pose proof F as (_ & _ & Ht & _).
  cbn [step]. unfold withTask. rewrite Ht. unfold agentSpawned. rewrite Hpc.
  eexists. split; [eapply frame_setpc; eauto with frame|].
  task_proj. repeat (split; [done|]). db_proj. done.
Qed.

Lemma loop_closed k tid m rc output st :
  InLoop ExecAwaitClose j k tid m rc st ->
  InLoop ExecAwaitTest j k tid m rc
         (step config slugify extractPlanFromOutput (AgentClosed j 0%Z output) st).
Proof.
  intros (tk & F & Hpc & Hrc & Hj & Hid & Htc & HT & HJ). pose proof F as (_ & _ & Ht & _).
  cbn [step]. unfold withTask. rewrite Ht. unfold agentClosed. rewrite Hpc. cbv zeta.
  case_bool_decide; [done|]. rewrite Htc.
  eexists. split; [eapply frame_setpc; eauto with frame|].
  task_proj. repeat (split; [done|]). db_proj. split; [|done].
  by apply ticketMeta_status.
Qed.

Lemma loop_retried k tid m rc code output st :
  k < maxRetries config -> code <> 0%Z ->
  InLoop ExecAwaitTest j k tid m rc st ->
  InLoop ExecAwaitSpawn j (S k) tid m rc
         (step config slugify extractPlanFromOutput (TestExited j code output) st).
Proof.
  intros Hk Hcode (tk & F & Hpc & Hrc & Hj & Hid & Htc & HT & HJ).
  pose proof F as (_ & _ & Ht & _).
  cbn [step]. unfold withTask. rewrite Ht. unfold testExited. rewrite Hpc. cbv zeta.
  case_bool_decide; [done|]. rewrite Hrc.
  destruct (Nat.ltb_spec (maxRetries config) (S k)) as [?|_]; [lia|].
  unfold execLoopHead. task_proj.
  destruct (Nat.leb_spec (S k) (maxRetries config)) as [_|?]; [|lia].
  eexists. split; [eapply frame_setpc, frame_called; eauto with frame|].
  task_proj. repeat (split; [done|]). db_proj.
  rewrite Hj, Nat.add_succ_r. by apply jobRetries_increment.
Qed.

Lemma loop_exhausted tid m rc code output st :
  code <> 0%Z ->
  InLoop ExecAwaitTest j (maxRetries config) tid m rc st ->
  let st' := step config slugify extractPlanFromOutput (TestExited j code output) st in
  agentInvocations j st' = S (maxRetries config)
  /\ tasks st' !! j = None
  /\ ticketFailed tid (testsFailingMessage (maxRetries config) output) m (db st')
  /\ jobRetries j (rc + S (maxRetries config)) (db st').
Proof.
  intros Hcode (tk & F & Hpc & Hrc & Hj & Hid & Htc & HT & HJ).
  pose proof F as (_ & _ & Ht & _).
  cbn [step]. unfold withTask. rewrite Ht. unfold testExited. rewrite Hpc. cbv zeta.
  case_bool_decide; [done|]. rewrite Hrc.
  destruct (Nat.ltb_spec (maxRetries config) (S (maxRetries config))) as [_|?]; [|lia].
  match goal with |- context [workerFailed _ _ ?t ?msg ?s] =>
    set (tk' := t); set (st1 := s) end.
  assert (JobFrame j None (S (maxRetries config)) (workerFailed config j tk' (testsFailingMessage (maxRetries config) output) st1))
    as (_ & _ & Hnone & Hn) by (subst st1; eauto with frame).
  split; [done|]. split; [done|]. split.
  - unfold workerFailed, finishWorker. cbv zeta.
    apply (db_tick config
             (ticketFailed tid (testsFailingMessage (maxRetries config) output) m)).
    { intros. by apply ticketFailed_jobStatus. }
    subst tk' st1. task_proj. db_proj. rewrite Hid.
    by apply ticketFailed_status, ticketMeta_jobStatus, ticketMeta_retry.
  - apply (db_workerFailed config (jobRetries j (rc + S (maxRetries config)))).
    { intros. by apply jobRetries_jobStatus. }
    { intros ???? (r & Hr & Hn'). by exists r. }
    subst tk' st1. db_proj. task_proj. rewrite Hj, Nat.add_succ_r.
    by apply jobRetries_increment.
Qed.

Lemma run_failingAttempt codes outs i n st :
  run config slugify extractPlanFromOutput (failingAttempts j codes outs i (S n)) st
  = run config slugify extractPlanFromOutput (failingAttempts j codes outs (S i) n)
        (step config slugify extractPlanFromOutput (TestExited j (codes i) (outs i))
           (step config slugify extractPlanFromOutput (AgentClosed j 0%Z "")
              (step config slugify extractPlanFromOutput (AgentSpawned j) st))).
Proof. reflexivity. Qed.

Lemma loop_all_fail codes outs tid m rc n : forall i st,
  (forall i, codes i <> 0%Z) ->
  i + n = maxRetries config ->
  InLoop ExecAwaitSpawn j i tid m rc st ->
  let st' := run config slugify extractPlanFromOutput
                 (failingAttempts j codes outs i (S n)) st in
  agentInvocations j st' = S (maxRetries config)
  /\ tasks st' !! j = None
  /\ ticketFailed tid (testsFailingMessage (maxRetries config) (outs (maxRetries config))) m
                  (db st')
  /\ jobRetries j (rc + S (maxRetries config)) (db st').
Proof.
  induction n as [|n IH]; intros i st Hc Hi HL; cbv zeta; rewrite run_failingAttempt.
  - rewrite Nat.add_0_r in Hi. subst i. cbn [failingAttempts run fold_left].
    apply loop_exhausted; [done|]. by apply loop_closed, loop_spawned.
  - apply IH; [done|lia|].
    apply loop_retried; [lia|done|]. by apply loop_closed, loop_spawned.
Qed.

(** C2 (amended).  For an execute job [j] whose worker has just entered
    [runExecutePhase]: (a) whatever happens next, [runner.run] is called at
    most [maxRetries + 1] times for the job; (b) with a test command
    configured, when the agent exits 0 and the test command exits non-zero
    after every attempt, there are exactly [maxRetries + 1] calls, the
    worker ends, the ticket is 'failed' with the message that carries
    [maxRetries] and the output of the last test run, the metadata of the
    ticket is what it was before the run (no retry count is written), and
    the retry counter of the job row has grown by [maxRetries + 1]. *)
Theorem retry_loop_bounded_and_fails (tk : Task) (row : TicketRow) (jr : JobRow) (st : State) :
  tasks st !! j = Some tk ->
  tk_pc tk = ExecAwaitWorktree ->
  job_id (tk_job tk) = j ->
  j ∉ (job_id <$> queue st) ->
  agentInvocations j st = 0 ->
  tickets (db st) !! t_id (tk_ticket tk) = Some row ->
  jobs (db st) !! j = Some jr ->
  (forall acts, agentInvocations j (run config slugify extractPlanFromOutput acts st)
                <= S (maxRetries config))
  /\ (forall path stack codes outs,
        configured (nullish (testCommand (p_settings (tk_project tk)))
                            (stack_testCommand stack)) = true ->
        (forall i, codes i <> 0%Z) ->
        let st' := run config slugify extractPlanFromOutput
                       (WorktreeReady j path stack
                          :: failingAttempts j codes outs 0 (S (maxRetries config))) st in
        agentInvocations j st' = S (maxRetries config)
        /\ tasks st' !! j = None
        /\ ticketFailed (t_id (tk_ticket tk))
             (testsFailingMessage (maxRetries config) (outs (maxRetries config)))
             (metadata row) (db st')
        /\ jobRetries j (retry_count jr + S (maxRetries config)) (db st')).
Proof.
  intros Ht Hpc Hj Hq Hn Hrow Hjr.
  assert (JobFrame j (Some tk) 0 st) as F.
  { split; [by apply elem_of_dom; eexists|done]. }
  split.
  - intros acts.
    destruct (retryInv_run acts st) as (task & n & (_ & _ & _ & Hn') & B).
    { exists (Some tk), 0. split; [done|]. unfold retryBound. by rewrite Hpc. }
    rewrite Hn'. by eapply retryBound_le.
  - intros path stack codes outs Hc Hcodes. cbv zeta.
    change (run config slugify extractPlanFromOutput (WorktreeReady j path stack :: ?l) st)
      with (run config slugify extractPlanFromOutput l
              (step config slugify extractPlanFromOutput (WorktreeReady j path stack) st)).
    apply loop_all_fail; [done|done|].
    apply loop_entered; try done; by eexists.
Qed.

End RetryLoop.

Section RetryLoopExamples.
Import Store Orchestrator OrchestratorInv Sample.
Local Open Scope string_scope.
Local Open Scope list_scope.
Local Open Scope nat_scope.

(** The theorem at the scenario of the retry loop: [maxRetries = 2], the
    test command [exit 1], ticket A enqueued for execution, every test
    run exits 1. *)
Lemma retry_loop_bounded_and_fails_witness :
  let config := mkConfig 2 2 "autodev/" in
  let st := run config plainText plainText [EnqueueExecute "A"]
                (initial (sampleDb 2 false (Some "exit 1"))) in
  let st' := run config plainText plainText
                 (WorktreeReady 0 "/worktrees/ticket-A-first" noStack
                    :: failingAttempts 0 (fun _ => 1%Z) (fun _ => "1 failing") 0 3) st in
  (forall acts, agentInvocations 0 (run config plainText plainText acts st) <= 3)
  /\ agentInvocations 0 st' = 3
  /\ tasks st' !! 0 = None
  /\ ticketFailed "A" (testsFailingMessage 2 "1 failing") (mkMetadata None None None) (db st')
  /\ jobRetries 0 3 (db st').
Proof.
  intros config st st'.
  pose (row := mkTicketRow "P" "first" TicketStatus.queued None None None None
                           (mkMetadata None None None)).
  pose (tk := mkTask (mkJob 0 "A" JobPhase.execute) (mkTicket "A" row)
                     (mkProject "P" (mkSettings 2 false (Some "exit 1") None))
                     ExecAwaitWorktree 0 "" "" None None).
  pose (jr := mkJobRow "A" JobPhase.execute JobStatus.running None 0).
  destruct (retry_loop_bounded_and_fails config plainText plainText 0 tk row jr st)
    as [Ha Hb].
  - vm_compute; reflexivity.
  - reflexivity.
  - reflexivity.
  - vm_compute. intros H. inversion H.
  - vm_compute; reflexivity.
  - vm_compute; reflexivity.
  - vm_compute; reflexivity.
  - split; [exact Ha|].
    apply (Hb "/worktrees/ticket-A-first" noStack (fun _ => 1%Z) (fun _ => "1 failing")).
    + reflexivity.
    + intros _. discriminate.
Defined.

(** C2, counterexample: in that scenario no retry count is recorded in
    the metadata of the ticket ([setMetadata] is reached on success only),
    and the counter kept on the job row ends at 3, not 2. *)
Lemma failed_run_records_no_retry_count :
  let config := mkConfig 2 2 "autodev/" in
  let st := run config plainText plainText
                (EnqueueExecute "A" :: WorktreeReady 0 "/worktrees/ticket-A-first" noStack
                   :: failingAttempts 0 (fun _ => 1%Z) (fun _ => "1 failing") 0 3)
                (initial (sampleDb 2 false (Some "exit 1"))) in
  agentInvocations 0 st = 3
  /\ status <$> tickets (db st) !! "A" = Some TicketStatus.failed
  /\ retryCount <$> (metadata <$> tickets (db st) !! "A") = Some None
  /\ retryCount <$> (metadata <$> tickets (db st) !! "A") <> Some (Some 2)
  /\ retry_count <$> jobs (db st) !! 0 = Some 3.
Proof. cbv zeta. repeat split; try (vm_compute; reflexivity). vm_compute. discriminate. Qed.

End RetryLoopExamples.

(** ** How the workers end *)

Section Outcomes.
Import Store Orchestrator OrchestratorInv.
Local Open Scope string_scope.
Local Open Scope list_scope.
Local Open Scope nat_scope.

Variable config : OrchestratorConfig.
Variables slugify extractPlanFromOutput : string -> string.
Variable j : nat.

(** [tick] writes to the rows of the jobs it takes from the queue only. *)
Lemma tick_keeps_row st :
  j ∉ (job_id <$> queue st) -> jobs (db (tick config st)) !! j = jobs (db st) !! j.
Proof.
  intros Hq.
  cut (j ∉ (job_id <$> queue (tick config st))
       /\ jobs (db (tick config st)) !! j = jobs (db st) !! j); [by intros [_ H]|].
  set (x := jobs (db st) !! j).
  assert (j ∉ (job_id <$> queue st) /\ jobs (db st) !! j = x) as HI by done.
  clearbody x. revert HI.
  apply (tick_acc config (fun q st => j ∉ (job_id <$> q) /\ jobs (db st) !! j = x)).
  - by intros q q0 st'.
  - intros kept job rest st' [Hn Hr]. split; [|done].
    rewrite fmap_app in *. rewrite fmap_cons in Hn. set_solver.
  - intros kept job rest st' ticket project [Hn Hr] _ _ _ _.
    assert (job_id job <> j) as Hne.
    { intros <-. apply Hn. rewrite fmap_app, fmap_cons. set_solver. }
    split.
    + rewrite fmap_app in *. rewrite fmap_cons in Hn. set_solver.
    + rewrite dispatch_db. cbn. by rewrite lookup_alter_ne.
Qed.

(** A job without a worker stays as it is under every transition. *)
Lemma frame_ended_step n a st :
  JobFrame j None n st -> JobFrame j None n (step config slugify extractPlanFromOutput a st).
Proof.
  intros F. destruct (actsOn a) as [j'|] eqn:Ha.
  2: { apply frame_step; [|done]. intros j''. by rewrite Ha. }
  destruct (decide (j' = j)) as [->|Hne].
  2: { apply frame_step; [|done]. intros j''. congruence. }
  pose proof F as (_ & _ & Ht & _).
  destruct a; try done; cbn in Ha; injection Ha as ->; cbn [step]; unfold withTask;
    by rewrite Ht.
Qed.

Lemma frame_ended_run n acts st :
  JobFrame j None n st -> JobFrame j None n (run config slugify extractPlanFromOutput acts st).
Proof.
  revert st. induction acts as [|a acts IH]; intros st F; [done|].
  simpl. by apply IH, frame_ended_step.
Qed.

(** The [catch] of [runWorker]. *)
Lemma worker_fails tk msg row r n st :
  job_id (tk_job tk) = j ->
  JobFrame j (Some tk) n st ->
  tickets (db st) !! t_id (tk_ticket tk) = Some row ->
  jobs (db st) !! j = Some r ->
  let st' := workerFailed config j tk msg st in
  JobFrame j None n st'
  /\ ticketFailed (t_id (tk_ticket tk)) msg (metadata row) (db st')
  /\ jobEnded j JobStatus.failed 1 (retry_count r) (db st').
Proof.
  intros Hid F Hrow Hr. cbv zeta. pose proof F as (_ & Hq & _).
  split; [by eapply frame_workerFailed|]. split.
  - unfold workerFailed, finishWorker. cbv zeta.
    apply (db_tick config (ticketFailed (t_id (tk_ticket tk)) msg (metadata row))).
    { intros. by apply ticketFailed_jobStatus. }
    cbn. apply ticketFailed_status. by exists row.
  - unfold jobEnded, workerFailed, finishWorker. cbv zeta.
    rewrite tick_keeps_row by done. rewrite Hid. cbn.
    rewrite lookup_alter_eq, Hr. cbn. by eexists.
Qed.

(** The end of [runExecutePhase]. *)
Lemma worker_completes tk row r n st :
  job_id (tk_job tk) = j ->
  JobFrame j (Some tk) n st ->
  tickets (db st) !! t_id (tk_ticket tk) = Some row ->
  jobs (db st) !! j = Some r ->
  let st' := finishWorker config (tk_job tk) (tk_ticket tk) (tk_project tk) true None
               (set_tasks (delete j (tasks st)) st) in
  JobFrame j None n st'
  /\ ticketCompleted (t_id (tk_ticket tk)) (metadata row) (db st')
  /\ jobEnded j JobStatus.completed 0 (retry_count r) (db st').
Proof.
  intros Hid F Hrow Hr. cbv zeta. pose proof F as (_ & Hq & _).
  split; [by eapply frame_finishWorker, frame_ended|]. split.
  - unfold finishWorker. cbv zeta.
    apply (db_tick config (ticketCompleted (t_id (tk_ticket tk)) (metadata row))); [done|].
    cbn. unfold ticketCompleted. cbn. rewrite lookup_alter_eq, Hrow. cbn. by eexists.
  - unfold jobEnded, finishWorker. cbv zeta.
    rewrite tick_keeps_row by done. rewrite Hid. cbn.
    rewrite lookup_alter_eq, Hr. cbn. by eexists.
Qed.

Lemma exec_agent_failed (tk : Task) (row : TicketRow) (r : JobRow) (n : nat)
    (code : Z) (output : string) (st : State) :
  tasks st !! j = Some tk ->
  tk_pc tk = ExecAwaitClose ->
  job_id (tk_job tk) = j ->
  j ∉ (job_id <$> queue st) ->
  agentInvocations j st = n ->
  tickets (db st) !! t_id (tk_ticket tk) = Some row ->
  jobs (db st) !! j = Some r ->
  code <> 0%Z ->
  let st' := step config slugify extractPlanFromOutput (AgentClosed j code output) st in
  JobFrame j None n st'
  /\ ticketFailed (t_id (tk_ticket tk)) ("Claude Code exited with code " +:+ string_of_Z code)
                  (metadata row) (db st')
  /\ jobEnded j JobStatus.failed 1 (retry_count r) (db st').
Proof.
  intros Ht Hpc Hid Hq Hn Hrow Hr Hcode. cbv zeta.
  assert (JobFrame j (Some tk) n st) as F.
  { split; [by apply elem_of_dom; eexists|done]. }
  cbn [step]. unfold withTask. rewrite Ht. unfold agentClosed. rewrite Hpc. cbv zeta.
  rewrite bool_decide_eq_true_2 by done.
  match goal with |- context [workerFailed _ _ _ ?m ?s] =>
    destruct (worker_fails tk m row r n s) as (F' & HT & HJ) end; done.
Qed.

(** When the agent of an execute job exits with a code other than 0 the
    worker ends at once: the ticket is 'failed' with the message
    "Claude Code exited with code <code>", the job is 'failed' with exit
    code 1, and [runner.run] is never called for the job again, whatever
    happens next and whatever [maxRetries] is. *)
Theorem agent_failure_is_not_retried (tk : Task) (row : TicketRow) (r : JobRow) (n : nat)
    (code : Z) (output : string) (st : State) :
  tasks st !! j = Some tk ->
  tk_pc tk = ExecAwaitClose ->
  job_id (tk_job tk) = j ->
  j ∉ (job_id <$> queue st) ->
  agentInvocations j st = n ->
  tickets (db st) !! t_id (tk_ticket tk) = Some row ->
  jobs (db st) !! j = Some r ->
  code <> 0%Z ->
  let st' := step config slugify extractPlanFromOutput (AgentClosed j code output) st in
  (forall acts,
      let st'' := run config slugify extractPlanFromOutput acts st' in
      tasks st'' !! j = None /\ agentInvocations j st'' = n)
  /\ ticketFailed (t_id (tk_ticket tk)) ("Claude Code exited with code " +:+ string_of_Z code)
                  (metadata row) (db st')
  /\ jobEnded j JobStatus.failed 1 (retry_count r) (db st').
Proof.
  intros Ht Hpc Hid Hq Hn Hrow Hr Hcode.
  destruct (exec_agent_failed tk row r n code output st) as (F' & HT & HJ); try done.
  cbv zeta. split; [|done].
  intros acts. by destruct (frame_ended_run n acts _ F') as (_ & _ & H1 & H2).
Qed.

(** The killed agent of a cancelled ticket closes with a code other than
    0 (Node reports no code for a signalled process and the runner
    resolves with 1): the worker, which [cancel] does not stop, then
    writes its own failure over the message of the cancellation. *)
Theorem cancel_message_is_overwritten (tk : Task) (row : TicketRow) (r : JobRow)
    (code : Z) (output : string) (st : State) :
  tasks st !! j = Some tk ->
  tk_pc tk = ExecAwaitClose ->
  job_id (tk_job tk) = j ->
  j ∉ (job_id <$> queue st) ->
  tickets (db st) !! t_id (tk_ticket tk) = Some row ->
  jobs (db st) !! j = Some r ->
  code <> 0%Z ->
  let st1 := cancel (t_id (tk_ticket tk)) st in
  let st2 := step config slugify extractPlanFromOutput (AgentClosed j code output) st1 in
  error <$> tickets (db st1) !! t_id (tk_ticket tk) = Some (Some cancelledMessage)
  /\ tasks st1 !! j = Some tk
  /\ error <$> tickets (db st2) !! t_id (tk_ticket tk)
     = Some (Some ("Claude Code exited with code " +:+ string_of_Z code))
  /\ status <$> tickets (db st2) !! t_id (tk_ticket tk) = Some TicketStatus.failed.
Proof.
  intros Ht Hpc Hid Hq Hrow Hr Hcode st1 st2.
  destruct (cancel_fields (t_id (tk_ticket tk)) st)
    as (Htickets & _ & Hqueue & Hjobs & _ & _ & _ & _ & Htasks & _).
  fold st1 in Htickets, Hqueue, Hjobs, Htasks.
  assert (tickets (db st1) !! t_id (tk_ticket tk) = Some (cancelledRow row)) as Hrow1.
  { by rewrite Htickets, lookup_alter_eq, Hrow. }
  assert (exists r1, jobs (db st1) !! j = Some r1) as [r1 Hr1].
  { apply elem_of_dom. rewrite Hjobs. unfold cancelJobs.
    repeat case_match; rewrite ?dom_alter_L; apply elem_of_dom; by eexists. }
  assert (j ∉ (job_id <$> queue st1)) as Hq1.
  { rewrite Hqueue. destruct (removeFirst _ (queue st)) as [[job q']|] eqn:Eq; [|done].
    destruct (removeFirst_split _ _ _ _ Eq) as (pre & post & Hs & -> & _).
    rewrite Hs in Hq. rewrite fmap_app in *. rewrite fmap_cons in Hq. set_solver. }
  assert (tasks st1 !! j = Some tk) as Ht1 by (by rewrite Htasks).
  destruct (exec_agent_failed tk (cancelledRow row) r1 (agentInvocations j st1) code output st1)
    as (_ & (row2 & Hrow2 & Hs2 & He2 & _) & _); try done.
  fold st2 in Hrow2.
  split; [by rewrite Hrow1|]. split; [done|].
  rewrite Hrow2. cbn. by rewrite He2, Hs2.
Qed.

(** The plan worker once its agent has closed, in a project that does
    not enqueue the execute job by itself: on exit code 0 the extracted
    plan is stored, the ticket waits in 'plan_review' and the job is
    'completed'; on any other code the ticket and the job are 'failed'.
    In both cases the worker has ended. *)
Theorem plan_worker_outcome (tk : Task) (row : TicketRow) (r : JobRow)
    (code : Z) (output : string) (st : State) :
  tasks st !! j = Some tk ->
  tk_pc tk = PlanAwaitClose ->
  job_id (tk_job tk) = j ->
  autoExecuteAfterPlan (p_settings (tk_project tk)) = false ->
  j ∉ (job_id <$> queue st) ->
  tickets (db st) !! t_id (tk_ticket tk) = Some row ->
  jobs (db st) !! j = Some r ->
  let st' := step config slugify extractPlanFromOutput (AgentClosed j code output) st in
  tasks st' !! j = None
  /\ (code = 0%Z ->
      ticketInReview (t_id (tk_ticket tk)) (extractPlanFromOutput output) (db st')
      /\ jobEnded j JobStatus.completed 0 (retry_count r) (db st'))
  /\ (code <> 0%Z ->
      ticketFailed (t_id (tk_ticket tk))
                   ("Plan generation failed with exit code " +:+ string_of_Z code)
                   (metadata row) (db st')
      /\ jobEnded j JobStatus.failed 1 (retry_count r) (db st')).
Proof.
  intros Ht Hpc Hid Hauto Hq Hrow Hr. cbv zeta.
  assert (JobFrame j (Some tk) (agentInvocations j st) st) as F.
  { split; [by apply elem_of_dom; eexists|done]. }
  cbn [step]. unfold withTask. rewrite Ht. unfold agentClosed. rewrite Hpc. cbv zeta.
  rewrite Hauto. case_bool_decide as Hcode.
  - match goal with |- context [workerFailed _ _ _ ?m ?s] =>
      destruct (worker_fails tk m row r (agentInvocations j st) s) as (F' & HT & HJ) end;
      try done.
    split; [by destruct F' as (_ & _ & H & _)|]. split; [done|]. by intros _.
  - assert (code = 0%Z) as -> by (destruct (decide (code = 0%Z)); [done|by elim Hcode]).
    split; [|split; [intros _|done]].
    + eapply (frame_planCompleted config j (Some tk)). unfold JobFrame, agentInvocations in *.
      by cbn.
    + split.
      * unfold planCompleted. cbv zeta.
        apply (db_tick config
                 (ticketInReview (t_id (tk_ticket tk)) (extractPlanFromOutput output)));
          [done|].
        unfold ticketInReview. cbn. rewrite !lookup_alter_eq, Hrow. cbn. by eexists.
      * unfold jobEnded, planCompleted. cbv zeta. rewrite tick_keeps_row by done.
        rewrite Hid. cbn. rewrite lookup_alter_eq, Hr. cbn. by eexists.
Qed.

(** *** The execute phase, step by step *)

Ltac exec_proj :=
  cbn [Orchestrator.db Orchestrator.emit Orchestrator.upd_db Orchestrator.set_tasks
       Orchestrator.set_processes Orchestrator.set_runnerCalls Orchestrator.set_watchers
       Orchestrator.set_events Orchestrator.set_pc Orchestrator.runner_run
       Orchestrator.logStreamer_stop Orchestrator.logStreamer_watch
       Orchestrator.tk_pc Orchestrator.tk_retryCount Orchestrator.tk_job
       Orchestrator.tk_ticket Orchestrator.tk_project Orchestrator.tk_testCommand
       Orchestrator.tk_lintCommand Orchestrator.tk_lastError Orchestrator.tk_worktreePath].

Create HintDb outcome.

Local Hint Resolve frame_processes frame_watchers frame_stop frame_watch frame_emit
  frame_jobStatus frame_retry frame_status frame_plan frame_branch frame_metadata
  frame_workers frame_setpc frame_ended frame_called : outcome.

Lemma inLoop_atPc pc k tid m rc st :
  InLoop pc j k tid m rc st -> AtPc pc true j k tid rc st.
Proof.
  intros (tk & F & Hpc & Hrc & Hid & Htid & Htc & (row & Hrow & _) & HJ).
  exists tk. repeat (split; [done|]). done.
Qed.

Lemma atPc_entered tk row jr path stack st :
  JobFrame j (Some tk) 0 st -> tk_pc tk = ExecAwaitWorktree -> job_id (tk_job tk) = j ->
  tickets (db st) !! t_id (tk_ticket tk) = Some row -> jobs (db st) !! j = Some jr ->
  AtPc ExecAwaitSpawn
       (configured (nullish (testCommand (p_settings (tk_project tk)))
                            (stack_testCommand stack)))
       j 0 (t_id (tk_ticket tk)) (retry_count jr)
       (step config slugify extractPlanFromOutput (WorktreeReady j path stack) st).
Proof.
  intros F Hpc Hj Hrow Hjr. pose proof F as (_ & _ & Ht & _).
  cbn [step]. unfold withTask. rewrite Ht. unfold worktreeReady. rewrite Hpc. cbv zeta.
  unfold execLoopHead. exec_proj. cbn [Nat.leb].
  eexists. split; [eapply frame_setpc, frame_called; eauto 10 with outcome|].
  exec_proj. repeat (split; [done|]). split.
  - cbn. rewrite !lookup_alter_eq, Hrow. by eexists.
  - rewrite Nat.add_0_r. by exists jr.
Qed.

Lemma atPc_spawned tests k tid rc st :
  AtPc ExecAwaitSpawn tests j k tid rc st ->
  AtPc ExecAwaitClose tests j k tid rc
       (step config slugify extractPlanFromOutput (AgentSpawned j) st).
Proof.
  intros (tk & F & Hpc & Hrc & Hj & Hid & Htc & HT & HJ). pose proof F as (_ & _ & Ht & _).
  cbn [step]. unfold withTask. rewrite Ht. unfold agentSpawned. rewrite Hpc.
  eexists. split; [eapply frame_setpc; eauto with outcome|].
  exec_proj. by repeat (split; [done|]).
Qed.

Lemma is_Some_updateStatus tid t s e d :
  is_Some (tickets d !! tid) -> is_Some (tickets (tickets_updateStatus t s e d) !! tid).
Proof.
  intros [row Hrow]. cbn. destruct (decide (t = tid)) as [->|Hne].
  - rewrite lookup_alter_eq, Hrow. by eexists.
  - rewrite lookup_alter_ne by done. by eexists.
Qed.

Lemma atPc_closed_tests k tid rc output st :
  AtPc ExecAwaitClose true j k tid rc st ->
  AtPc ExecAwaitTest true j k tid rc
       (step config slugify extractPlanFromOutput (AgentClosed j 0%Z output) st).
Proof.
  intros (tk & F & Hpc & Hrc & Hj & Hid & Htc & HT & HJ). pose proof F as (_ & _ & Ht & _).
  cbn [step]. unfold withTask. rewrite Ht. unfold agentClosed. rewrite Hpc. cbv zeta.
  case_bool_decide; [done|]. rewrite Htc.
  eexists. split; [eapply frame_setpc; eauto with outcome|].
  exec_proj. repeat (split; [done|]). split; [|done]. by apply is_Some_updateStatus.
Qed.

Lemma atPc_succeeded tests k tid rc tk st :
  JobFrame j (Some tk) (S k) st ->
  tk_retryCount tk = k -> job_id (tk_job tk) = j -> t_id (tk_ticket tk) = tid ->
  configured (tk_testCommand tk) = tests ->
  is_Some (tickets (db st) !! tid) -> jobRetries j (rc + k) (db st) ->
  AtPc ExecAwaitLint tests j k tid rc (execSucceeded j tk st)
  \/ AtPc ExecAwaitSummary tests j k tid rc (execSucceeded j tk st).
Proof.
  intros F Hrc Hj Hid Htc HT HJ. unfold execSucceeded.
  destruct (configured (tk_lintCommand tk)); [left|right];
    (eexists; split; [eapply frame_setpc; eauto with outcome|]);
    exec_proj; by repeat (split; [done|]).
Qed.

Lemma atPc_test_passed k tid rc out st :
  AtPc ExecAwaitTest true j k tid rc st ->
  let st' := step config slugify extractPlanFromOutput (TestExited j 0%Z out) st in
  AtPc ExecAwaitLint true j k tid rc st' \/ AtPc ExecAwaitSummary true j k tid rc st'.
Proof.
  intros (tk & F & Hpc & Hrc & Hj & Hid & Htc & HT & HJ). pose proof F as (_ & _ & Ht & _).
  cbv zeta. cbn [step]. unfold withTask. rewrite Ht. unfold testExited. rewrite Hpc.
  cbv zeta. rewrite bool_decide_eq_true_2 by done. by apply atPc_succeeded.
Qed.

Lemma atPc_closed_untested k tid rc output st :
  AtPc ExecAwaitClose false j k tid rc st ->
  let st' := step config slugify extractPlanFromOutput (AgentClosed j 0%Z output) st in
  AtPc ExecAwaitLint false j k tid rc st' \/ AtPc ExecAwaitSummary false j k tid rc st'.
Proof.
  intros (tk & F & Hpc & Hrc & Hj & Hid & Htc & HT & HJ). pose proof F as (_ & _ & Ht & _).
  cbv zeta. cbn [step]. unfold withTask. rewrite Ht. unfold agentClosed. rewrite Hpc.
  cbv zeta. case_bool_decide; [done|]. rewrite Htc.
  by apply atPc_succeeded.
Qed.

Lemma atPc_lint tests k tid rc st :
  AtPc ExecAwaitLint tests j k tid rc st ->
  AtPc ExecAwaitSummary tests j k tid rc
       (step config slugify extractPlanFromOutput (LintDone j) st).
Proof.
  intros (tk & F & Hpc & Hrc & Hj & Hid & Htc & HT & HJ). pose proof F as (_ & _ & Ht & _).
  cbn [step]. unfold withTask. rewrite Ht. unfold lintDone. rewrite Hpc.
  eexists. split; [eapply frame_setpc; eauto with outcome|].
  exec_proj. by repeat (split; [done|]).
Qed.

(** A transition meant for another place of the worker does nothing. *)
Lemma atPc_lint_skipped tests k tid rc st :
  AtPc ExecAwaitSummary tests j k tid rc st ->
  step config slugify extractPlanFromOutput (LintDone j) st = st.
Proof.
  intros (tk & (_ & _ & Ht & _) & Hpc & _).
  cbn [step]. unfold withTask. rewrite Ht. unfold lintDone. by rewrite Hpc.
Qed.

Lemma atPc_test_skipped pc tests k tid rc code out st :
  AtPc pc tests j k tid rc st -> pc <> ExecAwaitTest ->
  step config slugify extractPlanFromOutput (TestExited j code out) st = st.
Proof.
  intros (tk & (_ & _ & Ht & _) & Hpc & _) Hne.
  cbn [step]. unfold withTask. rewrite Ht. unfold testExited. rewrite Hpc.
  by destruct pc.
Qed.

(** From the close of the agent with code 0 to the wait for the change
    summary, with and without a test command, with and without a lint
    command. *)
Lemma atPc_passed tests k tid rc out st :
  AtPc ExecAwaitClose tests j k tid rc st ->
  AtPc ExecAwaitSummary tests j k tid rc
       (run config slugify extractPlanFromOutput
            [AgentClosed j 0%Z ""; TestExited j 0%Z out; LintDone j] st).
Proof.
  intros H. unfold run. cbn [fold_left]. destruct tests.
  - apply (atPc_closed_tests k tid rc "") in H.
    destruct (atPc_test_passed k tid rc out _ H) as [H'|H'].
    + by apply atPc_lint.
    + by rewrite (atPc_lint_skipped _ _ _ _ _ H').
  - destruct (atPc_closed_untested k tid rc "" _ H) as [H'|H'].
    + rewrite (atPc_test_skipped _ _ _ _ _ 0%Z out _ H') by done. by apply atPc_lint.
    + rewrite (atPc_test_skipped _ _ _ _ _ 0%Z out _ H') by done.
      by rewrite (atPc_lint_skipped _ _ _ _ _ H').
Qed.

(** The change summary arrives: the metadata is written and the worker
    ends in [finishWorker]. *)
Lemma atPc_summary tests k tid rc files st :
  AtPc ExecAwaitSummary tests j k tid rc st ->
  let st' := step config slugify extractPlanFromOutput (SummaryDone j (Some files)) st in
  JobFrame j None (S k) st'
  /\ ticketCompleted tid (mkMetadata (Some files) (Some tests) (Some k)) (db st')
  /\ jobEnded j JobStatus.completed 0 (rc + k) (db st').
Proof.
  intros (tk & F & Hpc & Hrc & Hj & Hid & Htc & [row Hrow] & (r & Hr & Hn)).
  pose proof F as (_ & _ & Ht & _).
  cbv zeta. cbn [step]. unfold withTask. rewrite Ht. unfold summaryDone. rewrite Hpc.
  cbv zeta. rewrite Htc, Hrc. rewrite <- Hid in *.
  match goal with |- context [finishWorker _ _ _ _ _ _ (set_tasks _ ?s)] =>
    pose proof (worker_completes tk
      (mkTicketRow (project_id row) (title row) (status row) (plan row) (branch row)
                   (worktree_path row) (error row)
                   (mkMetadata (Some files) (Some tests) (Some k))) r (S k) s) as H end.
  cbv zeta in H. rewrite <- Hn. apply H; try done.
  cbn. by rewrite lookup_alter_eq, Hrow.
Qed.

(** [n] failing attempts in a row, while retries are left. *)
Lemma loop_fails_on codes outs tid m rc n : forall i st,
  (forall i, codes i <> 0%Z) ->
  i + n <= maxRetries config ->
  InLoop ExecAwaitSpawn j i tid m rc st ->
  InLoop ExecAwaitSpawn j (i + n) tid m rc
         (run config slugify extractPlanFromOutput (failingAttempts j codes outs i n) st).
Proof.
  induction n as [|n IH]; intros i st Hc Hi HL.
  - by rewrite Nat.add_0_r.
  - rewrite run_failingAttempt. rewrite Nat.add_succ_r, <- Nat.add_succ_l.
    apply IH; [done|lia|].
    apply loop_retried; [lia|done|]. by apply loop_closed, loop_spawned.
Qed.

Lemma run_app acts acts' st :
  run config slugify extractPlanFromOutput (acts ++ acts') st
  = run config slugify extractPlanFromOutput acts'
        (run config slugify extractPlanFromOutput acts st).
Proof. apply fold_left_app. Qed.

Lemma run_passingAttempt out files st :
  run config slugify extractPlanFromOutput (passingAttempt j out files) st
  = step config slugify extractPlanFromOutput (SummaryDone j (Some files))
      (run config slugify extractPlanFromOutput
           [AgentClosed j 0%Z ""; TestExited j 0%Z out; LintDone j]
           (step config slugify extractPlanFromOutput (AgentSpawned j) st)).
Proof. reflexivity. Qed.

(** An execute job with a test command whose tests fail [k] times
    ([k <= maxRetries]) and then pass: the agent is invoked [k + 1] times,
    the ticket is 'completed' without an error, its metadata records the
    changed files, [testsPassed = true] and [retryCount = k], and the job is
    'completed' with exit code 0 and [k] more retries on its row. *)
Theorem execute_completes_when_tests_pass (tk : Task) (row : TicketRow) (jr : JobRow)
    (st : State) :
  tasks st !! j = Some tk ->
  tk_pc tk = ExecAwaitWorktree ->
  job_id (tk_job tk) = j ->
  j ∉ (job_id <$> queue st) ->
  agentInvocations j st = 0 ->
  tickets (db st) !! t_id (tk_ticket tk) = Some row ->
  jobs (db st) !! j = Some jr ->
  forall path stack codes outs k out files,
    configured (nullish (testCommand (p_settings (tk_project tk)))
                        (stack_testCommand stack)) = true ->
    (forall i, codes i <> 0%Z) ->
    k <= maxRetries config ->
    let st' := run config slugify extractPlanFromOutput
                   (WorktreeReady j path stack
                      :: failingAttempts j codes outs 0 k ++ passingAttempt j out files) st in
    agentInvocations j st' = S k
    /\ tasks st' !! j = None
    /\ ticketCompleted (t_id (tk_ticket tk))
                       (mkMetadata (Some files) (Some true) (Some k)) (db st')
    /\ jobEnded j JobStatus.completed 0 (retry_count jr + k) (db st').
Proof.
  intros Ht Hpc Hj Hq Hn Hrow Hjr path stack codes outs k out files Hc Hcodes Hk. cbv zeta.
  assert (JobFrame j (Some tk) 0 st) as F.
  { split; [by apply elem_of_dom; eexists|done]. }
  change (run config slugify extractPlanFromOutput (WorktreeReady j path stack :: ?l) st)
    with (run config slugify extractPlanFromOutput l
            (step config slugify extractPlanFromOutput (WorktreeReady j path stack) st)).
  rewrite run_app, run_passingAttempt.
  assert (InLoop ExecAwaitSpawn j 0 (t_id (tk_ticket tk)) (metadata row) (retry_count jr)
                 (step config slugify extractPlanFromOutput (WorktreeReady j path stack) st))
    as H0.
  { apply loop_entered; try done; by eexists. }
  apply (loop_fails_on codes outs _ _ _ k 0) in H0; [|done|done].
  apply inLoop_atPc, atPc_spawned, (atPc_passed _ _ _ _ out) in H0.
  destruct (atPc_summary _ _ _ _ files _ H0) as ((_ & _ & H1 & H2) & H3 & H4).
  done.
Qed.

(** The lint command of the worker, from the entry into the loop to the
    close of the agent. *)
Lemma entered_lint tk path stack st :
  tasks st !! j = Some tk -> tk_pc tk = ExecAwaitWorktree ->
  exists tk', tasks (step config slugify extractPlanFromOutput (WorktreeReady j path stack) st)
                !! j = Some tk'
    /\ tk_lintCommand tk' = nullish (lintCommand (p_settings (tk_project tk)))
                                    (stack_lintCommand stack).
Proof.
  intros Ht Hpc. cbn [step]. unfold withTask. rewrite Ht. unfold worktreeReady.
  rewrite Hpc. cbv zeta. unfold execLoopHead. exec_proj. cbn [Nat.leb].
  eexists. split; [apply lookup_insert_eq|]. reflexivity.
Qed.

Lemma spawned_lint tk st :
  tasks st !! j = Some tk -> tk_pc tk = ExecAwaitSpawn ->
  exists tk', tasks (step config slugify extractPlanFromOutput (AgentSpawned j) st) !! j
              = Some tk'
    /\ tk_lintCommand tk' = tk_lintCommand tk.
Proof.
  intros Ht Hpc. cbn [step]. unfold withTask. rewrite Ht. unfold agentSpawned. rewrite Hpc.
  exec_proj. eexists. split; [apply lookup_insert_eq|]. reflexivity.
Qed.

(** Without a test command the close of the agent with code 0 leads to
    the lint command, or to the change summary when there is none: the
    worker does not wait for a test. *)
Lemma atPc_closed_to_lint k tid rc output tk st :
  AtPc ExecAwaitClose false j k tid rc st -> tasks st !! j = Some tk ->
  AtPc (if configured (tk_lintCommand tk) then ExecAwaitLint else ExecAwaitSummary)
       false j k tid rc
       (step config slugify extractPlanFromOutput (AgentClosed j 0%Z output) st).
Proof.
  intros (tk0 & F & Hpc & Hrc & Hj & Hid & Htc & HT & HJ) Htk.
  pose proof F as (_ & _ & Ht & _).
  assert (tk0 = tk) as -> by congruence.
  cbn [step]. unfold withTask. rewrite Ht. unfold agentClosed. rewrite Hpc.
  cbv zeta. case_bool_decide; [done|]. rewrite Htc. unfold execSucceeded.
  destruct (configured (tk_lintCommand tk));
    (eexists; split; [eapply frame_setpc; eauto with outcome|]);
    exec_proj; by repeat (split; [done|]).
Qed.

(** An execute job without a test command (none in the settings of the
    project, none detected), whose agent exits with 0: the worker does not
    wait for a test but goes on to the lint command, or to the change
    summary when there is none, and the run needs no result of a test to
    end.  The agent is invoked once, the ticket is 'completed', and its
    metadata records [testsPassed = false] and [retryCount = 0]. *)
Theorem execute_without_test_command (tk : Task) (row : TicketRow) (jr : JobRow)
    (st : State) :
  tasks st !! j = Some tk ->
  tk_pc tk = ExecAwaitWorktree ->
  job_id (tk_job tk) = j ->
  j ∉ (job_id <$> queue st) ->
  agentInvocations j st = 0 ->
  tickets (db st) !! t_id (tk_ticket tk) = Some row ->
  jobs (db st) !! j = Some jr ->
  forall path stack output files,
    configured (nullish (testCommand (p_settings (tk_project tk)))
                        (stack_testCommand stack)) = false ->
    let lint := configured (nullish (lintCommand (p_settings (tk_project tk)))
                                    (stack_lintCommand stack)) in
    let closed := run config slugify extractPlanFromOutput
                      [WorktreeReady j path stack; AgentSpawned j; AgentClosed j 0%Z output]
                      st in
    let st' := run config slugify extractPlanFromOutput
                   ((if lint then [LintDone j] else []) ++ [SummaryDone j (Some files)])
                   closed in
    (exists tk', tasks closed !! j = Some tk'
                 /\ tk_pc tk' = if lint then ExecAwaitLint else ExecAwaitSummary)
    /\ agentInvocations j st' = 1
    /\ tasks st' !! j = None
    /\ ticketCompleted (t_id (tk_ticket tk))
                       (mkMetadata (Some files) (Some false) (Some 0)) (db st')
    /\ jobEnded j JobStatus.completed 0 (retry_count jr) (db st').
Proof.
  intros Ht Hpc Hj Hq Hn Hrow Hjr path stack output files Hc lint closed st'.
  assert (JobFrame j (Some tk) 0 st) as F.
  { split; [by apply elem_of_dom; eexists|done]. }
  pose proof (atPc_entered tk row jr path stack st F Hpc Hj Hrow Hjr) as H0.
  rewrite Hc in H0.
  destruct (entered_lint tk path stack st Ht Hpc) as (tk1 & Ht1 & Hl1).
  pose proof H0 as (tk1' & (_ & _ & Ht1' & _) & Hpc1 & _).
  assert (tk1' = tk1) as -> by congruence.
  destruct (spawned_lint tk1 _ Ht1 Hpc1) as (tk2 & Ht2 & Hl2).
  apply atPc_spawned in H0.
  apply (atPc_closed_to_lint _ _ _ output tk2) in H0; [|exact Ht2].
  rewrite Hl2, Hl1 in H0. fold lint in H0.
  change (AtPc (if lint then ExecAwaitLint else ExecAwaitSummary) false j 0
               (t_id (tk_ticket tk)) (retry_count jr) closed) in H0.
  split.
  { destruct H0 as (tk3 & (_ & _ & Ht3 & _) & Hpc3 & _). by exists tk3. }
  assert (AtPc ExecAwaitSummary false j 0 (t_id (tk_ticket tk)) (retry_count jr)
               (run config slugify extractPlanFromOutput
                    (if lint then [LintDone j] else []) closed)) as H1.
  { destruct lint; [by apply atPc_lint|exact H0]. }
  unfold st'. rewrite run_app.
  destruct (atPc_summary _ _ _ _ files _ H1) as ((_ & _ & H2 & H3) & H4 & H5).
  rewrite Nat.add_0_r in H5. done.
Qed.

End Outcomes.

Section OutcomesExamples.
Import Store Orchestrator OrchestratorInv Sample.
Local Open Scope string_scope.
Local Open Scope list_scope.
Local Open Scope nat_scope.

(** The theorem at the execute worker of ticket A, whose agent exits 1. *)
Lemma agent_failure_is_not_retried_witness :
  let config := mkConfig 2 2 "autodev/" in
  let st := run config plainText plainText
                [EnqueueExecute "A"; WorktreeReady 0 "/repo/.worktrees/ticket-A" noStack;
                 AgentSpawned 0]
                (initial (sampleDb 2 false (Some "npm test"))) in
  let st' := step config plainText plainText (AgentClosed 0 1%Z "") st in
  (forall acts, agentInvocations 0 (run config plainText plainText acts st') = 1)
  /\ status <$> tickets (db st') !! "A" = Some TicketStatus.failed
  /\ error <$> tickets (db st') !! "A" = Some (Some "Claude Code exited with code 1").
Proof.
  intros config st st'.
  assert (exists tk row r, tasks st !! 0 = Some tk /\ tk_pc tk = ExecAwaitClose
            /\ job_id (tk_job tk) = 0 /\ t_id (tk_ticket tk) = "A"
            /\ tickets (db st) !! "A" = Some row /\ jobs (db st) !! 0 = Some r)
    as (tk & row & r & Htk & Hpc & Hid & Htid & Hrow & Hr).
  { do 3 eexists. split; [vm_compute; reflexivity|]. do 3 (split; [reflexivity|]).
    split; vm_compute; reflexivity. }
  rewrite <- Htid in Hrow.
  assert (0 ∉ (job_id <$> queue st)) as Hq.
  { vm_compute. intros H. inversion H. }
  assert (agentInvocations 0 st = 1) as Hn by (vm_compute; reflexivity).
  assert (1%Z <> 0%Z) as Hcode by discriminate.
  destruct (agent_failure_is_not_retried config plainText plainText 0 tk row r 1 1%Z "" st
              Htk Hpc Hid Hq Hn Hrow Hr Hcode) as (Hrun & (row' & Hrow' & Hs & He & _) & _).
  fold st' in Hrun, Hrow'. rewrite Htid in Hrow'.
  split; [intros acts; apply Hrun|]. rewrite Hrow'. cbn. rewrite Hs, He. repeat split.
Defined.

(** The theorem at the execute worker of ticket A: the ticket is
    cancelled while the agent runs, and the killed agent closes. *)
Lemma cancel_message_is_overwritten_witness :
  let config := mkConfig 2 2 "autodev/" in
  let st := run config plainText plainText
                [EnqueueExecute "A"; WorktreeReady 0 "/repo/.worktrees/ticket-A" noStack;
                 AgentSpawned 0]
                (initial (sampleDb 2 false (Some "npm test"))) in
  let st1 := cancel "A" st in
  let st2 := step config plainText plainText (AgentClosed 0 1%Z "") st1 in
  error <$> tickets (db st1) !! "A" = Some (Some "Cancelled by user.")
  /\ error <$> tickets (db st2) !! "A" = Some (Some "Claude Code exited with code 1").
Proof.
  intros config st st1 st2.
  assert (exists tk row r, tasks st !! 0 = Some tk /\ tk_pc tk = ExecAwaitClose
            /\ job_id (tk_job tk) = 0 /\ t_id (tk_ticket tk) = "A"
            /\ tickets (db st) !! "A" = Some row /\ jobs (db st) !! 0 = Some r)
    as (tk & row & r & Htk & Hpc & Hid & Htid & Hrow & Hr).
  { do 3 eexists. split; [vm_compute; reflexivity|]. do 3 (split; [reflexivity|]).
    split; vm_compute; reflexivity. }
  rewrite <- Htid in Hrow.
  assert (0 ∉ (job_id <$> queue st)) as Hq.
  { vm_compute. intros H. inversion H. }
  assert (1%Z <> 0%Z) as Hcode by discriminate.
  destruct (cancel_message_is_overwritten config plainText plainText 0 tk row r 1%Z "" st
              Htk Hpc Hid Hq Hrow Hr Hcode) as (H1 & _ & H2 & _).
  rewrite Htid in H1, H2. split; [exact H1|exact H2].
Defined.

(** The theorem at the plan worker of ticket A, whose agent exits 0. *)
Lemma plan_worker_outcome_witness :
  let config := mkConfig 2 2 "autodev/" in
  let st := run config plainText plainText [EnqueuePlan "A"; AgentSpawned 0]
                (initial (sampleDb 2 false None)) in
  let st' := step config plainText plainText (AgentClosed 0 0%Z "the plan") st in
  tasks st' !! 0 = None
  /\ status <$> tickets (db st') !! "A" = Some TicketStatus.plan_review
  /\ plan <$> tickets (db st') !! "A" = Some (Some "the plan")
  /\ job_status <$> jobs (db st') !! 0 = Some JobStatus.completed.
Proof.
  intros config st st'.
  assert (exists tk row r, tasks st !! 0 = Some tk /\ tk_pc tk = PlanAwaitClose
            /\ job_id (tk_job tk) = 0 /\ t_id (tk_ticket tk) = "A"
            /\ autoExecuteAfterPlan (p_settings (tk_project tk)) = false
            /\ tickets (db st) !! "A" = Some row /\ jobs (db st) !! 0 = Some r)
    as (tk & row & r & Htk & Hpc & Hid & Htid & Hauto & Hrow & Hr).
  { do 3 eexists. split; [vm_compute; reflexivity|]. do 4 (split; [reflexivity|]).
    split; vm_compute; reflexivity. }
  rewrite <- Htid in Hrow.
  assert (0 ∉ (job_id <$> queue st)) as Hq.
  { vm_compute. intros H. inversion H. }
  destruct (plan_worker_outcome config plainText plainText 0 tk row r 0%Z "the plan" st
              Htk Hpc Hid Hauto Hq Hrow Hr) as (Hended & Hok & _).
  destruct (Hok eq_refl) as ((row' & Hrow' & Hs & _ & Hp) & (r' & Hr' & Hjs & _)).
  fold st' in Hended, Hrow', Hr'. rewrite Htid in Hrow'.
  split; [exact Hended|]. rewrite Hrow', Hr'. cbn. rewrite Hs, Hp, Hjs. repeat split.
Defined.

(** The theorem at ticket A with [maxRetries = 2]: the tests fail once
    and pass at the second attempt. *)
Lemma execute_completes_when_tests_pass_witness :
  let config := mkConfig 2 2 "autodev/" in
  let st := run config plainText plainText [EnqueueExecute "A"]
                (initial (sampleDb 2 false (Some "npm test"))) in
  let st' := run config plainText plainText
                 (WorktreeReady 0 "/repo/.worktrees/ticket-A" noStack
                    :: failingAttempts 0 (fun _ => 1%Z) (fun _ => "1 failing") 0 1
                    ++ passingAttempt 0 "ok" ["src/a.ts"]) st in
  agentInvocations 0 st' = 2
  /\ status <$> tickets (db st') !! "A" = Some TicketStatus.completed
  /\ metadata <$> tickets (db st') !! "A"
     = Some (mkMetadata (Some ["src/a.ts"]) (Some true) (Some 1))
  /\ retry_count <$> jobs (db st') !! 0 = Some 1.
Proof.
  intros config st st'.
  assert (exists tk row r, tasks st !! 0 = Some tk /\ tk_pc tk = ExecAwaitWorktree
            /\ job_id (tk_job tk) = 0 /\ t_id (tk_ticket tk) = "A"
            /\ testCommand (p_settings (tk_project tk)) = Some "npm test"
            /\ tickets (db st) !! "A" = Some row /\ jobs (db st) !! 0 = Some r
            /\ retry_count r = 0)
    as (tk & row & r & Htk & Hpc & Hid & Htid & Htest & Hrow & Hr & Hrc).
  { do 3 eexists. split; [vm_compute; reflexivity|]. do 4 (split; [reflexivity|]).
    split; [vm_compute; reflexivity|]. split; [vm_compute; reflexivity|reflexivity]. }
  rewrite <- Htid in Hrow.
  assert (0 ∉ (job_id <$> queue st)) as Hq.
  { vm_compute. intros H. inversion H. }
  assert (agentInvocations 0 st = 0) as Hn by (vm_compute; reflexivity).
  assert (configured (nullish (testCommand (p_settings (tk_project tk)))
                              (stack_testCommand noStack)) = true) as Hc.
  { rewrite Htest. reflexivity. }
  assert (forall i : nat, (fun _ : nat => 1%Z) i <> 0%Z) as Hcodes by (intros _; discriminate).
  assert (1 <= maxRetries config) as Hk by (apply le_S, le_n).
  destruct (execute_completes_when_tests_pass config plainText plainText 0 tk row r st
              Htk Hpc Hid Hq Hn Hrow Hr "/repo/.worktrees/ticket-A" noStack
              (fun _ => 1%Z) (fun _ => "1 failing") 1 "ok" ["src/a.ts"] Hc Hcodes Hk)
    as (H1 & _ & (row' & Hrow' & Hs & _ & Hm) & (r' & Hr' & _ & _ & Hrc')).
  fold st' in H1, Hrow', Hr'. rewrite Htid in Hrow'.
  split; [exact H1|]. rewrite Hrow', Hr'. cbn. rewrite Hs, Hm, Hrc', Hrc.
  repeat split.
Defined.

(** The theorem at the execute worker of ticket A in a project without
    a test and a lint command. *)
Lemma execute_without_test_command_witness :
  let config := mkConfig 2 2 "autodev/" in
  let st := run config plainText plainText [EnqueueExecute "A"]
                (initial (sampleDb 2 false None)) in
  let closed := run config plainText plainText
                    [WorktreeReady 0 "/repo/.worktrees/ticket-A" noStack; AgentSpawned 0;
                     AgentClosed 0 0%Z ""] st in
  let st' := run config plainText plainText [SummaryDone 0 (Some ["src/a.ts"])] closed in
  (exists tk', tasks closed !! 0 = Some tk' /\ tk_pc tk' = ExecAwaitSummary)
  /\ agentInvocations 0 st' = 1
  /\ status <$> tickets (db st') !! "A" = Some TicketStatus.completed
  /\ metadata <$> tickets (db st') !! "A"
     = Some (mkMetadata (Some ["src/a.ts"]) (Some false) (Some 0)).
Proof.
  intros config st closed st'.
  assert (exists tk row r, tasks st !! 0 = Some tk /\ tk_pc tk = ExecAwaitWorktree
            /\ job_id (tk_job tk) = 0 /\ t_id (tk_ticket tk) = "A"
            /\ testCommand (p_settings (tk_project tk)) = None
            /\ lintCommand (p_settings (tk_project tk)) = None
            /\ tickets (db st) !! "A" = Some row /\ jobs (db st) !! 0 = Some r)
    as (tk & row & r & Htk & Hpc & Hid & Htid & Htest & Hlint & Hrow & Hr).
  { do 3 eexists. split; [vm_compute; reflexivity|]. do 5 (split; [reflexivity|]).
    split; vm_compute; reflexivity. }
  rewrite <- Htid in Hrow.
  assert (0 ∉ (job_id <$> queue st)) as Hq.
  { vm_compute. intros H. inversion H. }
  assert (agentInvocations 0 st = 0) as Hn by (vm_compute; reflexivity).
  assert (configured (nullish (testCommand (p_settings (tk_project tk)))
                              (stack_testCommand noStack)) = false) as Hc.
  { rewrite Htest. reflexivity. }
  pose proof (execute_without_test_command config plainText plainText 0 tk row r st
                Htk Hpc Hid Hq Hn Hrow Hr "/repo/.worktrees/ticket-A" noStack
                "" ["src/a.ts"] Hc) as H.
  cbv zeta in H. rewrite Hlint in H. cbn [nullish stack_lintCommand noStack configured app] in H.
  destruct H as (Hpc' & H1 & _ & (row' & Hrow' & Hs & _ & Hm) & _).
  fold closed in Hpc', H1, Hrow'. fold st' in H1, Hrow'. rewrite Htid in Hrow'.
  split; [exact Hpc'|]. split; [exact H1|]. rewrite Hrow'. cbn. rewrite Hs, Hm. repeat split.
Defined.

End OutcomesExamples.

(** ** What every run keeps *)

Section Kept.
Import Store Orchestrator OrchestratorInv.
Local Open Scope string_scope.
Local Open Scope list_scope.
Local Open Scope nat_scope.

Variable config : OrchestratorConfig.
Variables slugify extractPlanFromOutput : string -> string.

Lemma jobsKept_alter (f : JobRow -> JobRow) j d (m' : gmap nat JobRow) :
  (forall r, ticket_id (f r) = ticket_id r /\ phase (f r) = phase r
             /\ retry_count r <= retry_count (f r)) ->
  (forall j0 r, jobs d !! j0 = Some r ->
     exists r', m' !! j0 = Some r' /\ ticket_id r' = ticket_id r /\ phase r' = phase r
                /\ retry_count r <= retry_count r') ->
  forall j0 r, jobs d !! j0 = Some r ->
     exists r', alter f j m' !! j0 = Some r' /\ ticket_id r' = ticket_id r
                /\ phase r' = phase r /\ retry_count r <= retry_count r'.
Proof.
  intros Hf H j0 r Hr. destruct (H j0 r Hr) as (r' & Hr' & Ht & Hp & Hc).
  destruct (decide (j = j0)) as [->|Hne].
  - exists (f r'). rewrite lookup_alter_eq, Hr'. destruct (Hf r') as (H1 & H2 & H3).
    split; [done|]. split; [congruence|]. split; [congruence|lia].
  - exists r'. by rewrite lookup_alter_ne.
Qed.

(** No run of the orchestrator removes a job row, moves it to another
    ticket or phase, or lowers its retry counter. *)
Theorem job_rows_are_kept (acts : list Action) (st : State) :
  JobsKept (db st) (db (run config slugify extractPlanFromOutput acts st)).
Proof.
  apply (db_run config slugify extractPlanFromOutput (JobsKept (db st))).
  - intros j s c d H. unfold JobsKept. cbn. apply jobsKept_alter; [|done].
    intros r. cbn. repeat split; lia.
  - by intros t s e d H.
  - intros j d H. unfold JobsKept. cbn. apply jobsKept_alter; [|done].
    intros r. cbn. repeat split; lia.
  - by intros t p d H.
  - by intros t b w d H.
  - by intros t m d H.
  - intros ph t job d d' _ Hc H j r Hr.
    destruct (jobs_create_tickets _ _ _ _ _ Hc) as (_ & _ & _ & _ & Hj & _).
    destruct (H j r Hr) as (r' & Hr' & Hrest). exists r'. split; [|done].
    rewrite Hj, lookup_insert_ne; [done|].
    intros <-. apply (is_fresh (dom (jobs d))). apply elem_of_dom. by eexists.
  - intros j r Hr. exists r. repeat split; [done|lia].
Qed.

Lemma ticketsKept_alter (f : TicketRow -> TicketRow) t d (m' : gmap string TicketRow) :
  (forall row, project_id (f row) = project_id row /\ title (f row) = title row) ->
  (forall t0, match tickets d !! t0, m' !! t0 with
              | Some row, Some row' => project_id row' = project_id row /\ title row' = title row
              | None, None => True
              | _, _ => False
              end) ->
  forall t0, match tickets d !! t0, alter f t m' !! t0 with
             | Some row, Some row' => project_id row' = project_id row /\ title row' = title row
             | None, None => True
             | _, _ => False
             end.
Proof.
  intros Hf H t0. specialize (H t0). destruct (decide (t = t0)) as [->|Hne].
  - rewrite lookup_alter_eq. destruct (tickets d !! t0), (m' !! t0) as [row'|]; try done.
    cbn. destruct (Hf row') as [H1 H2]. destruct H. split; congruence.
  - by rewrite lookup_alter_ne.
Qed.

(** No run of the orchestrator adds or removes a ticket, moves a ticket
    to another project, renames it, or touches the projects. *)
Theorem tickets_and_projects_are_kept (acts : list Action) (st : State) :
  TicketsKept (db st) (db (run config slugify extractPlanFromOutput acts st)).
Proof.
  apply (db_run config slugify extractPlanFromOutput (TicketsKept (db st))).
  - by intros j s c d H.
  - intros t s e d [Hp H]. split; [done|]. cbn. by apply ticketsKept_alter.
  - by intros j d H.
  - intros t p d [Hp H]. split; [done|]. cbn. by apply ticketsKept_alter.
  - intros t b w d [Hp H]. split; [done|]. cbn. by apply ticketsKept_alter.
  - intros t m d [Hp H]. split; [done|]. cbn. by apply ticketsKept_alter.
  - intros ph t job d d' _ Hc [Hp H].
    destruct (jobs_create_tickets _ _ _ _ _ Hc) as (Ht & Hpr & _).
    split; [congruence|]. by rewrite Ht.
  - split; [done|]. intros t. by destruct (tickets (db st) !! t).
Qed.

Lemma tick_loop_sublist q st : (tick_loop config q st).1 `sublist_of` q.
Proof.
  revert st. induction q as [|job rest IH]; intros st; simpl; [done|].
  destruct (maxWorkers config <=? size (activeWorkers st)); [done|].
  destruct (tickets_findById (job_ticketId job) (db st)) as [ticket|];
    [|by apply sublist_cons].
  destruct (projects_findById (project_id (t_row ticket)) (db st)) as [project|];
    [|by apply sublist_cons].
  destruct (maxParallelJobs (p_settings project)
              <=? projectWorkerCount (p_id project) (activeWorkers st)).
  - specialize (IH st). destruct (tick_loop config rest st) as [q' st']. simpl in *.
    by apply sublist_skip.
  - by apply sublist_cons.
Qed.

Lemma tick_queue_sublist st : queue (tick config st) `sublist_of` queue st.
Proof.
  unfold tick. destruct (queue st) as [|job rest] eqn:Eq; [by rewrite Eq|].
  destruct (maxWorkers config <=? size (activeWorkers st)); [by rewrite Eq|].
  pose proof (tick_loop_sublist (job :: rest) st) as H.
  by destruct (tick_loop config (job :: rest) st) as [q' st'].
Qed.

Lemma tick_jobs_dom st : dom (jobs (db (tick config st))) = dom (jobs (db st)).
Proof.
  apply (db_tick config (fun d => dom (jobs d) = dom (jobs (db st)))); [|done].
  intros j s c d H. cbn. by rewrite dom_alter_L.
Qed.

Lemma queueKept_shrink q d q1 d1 q2 d2 :
  QueueKept q d q1 d1 -> q2 `sublist_of` q1 -> dom (jobs d1) ⊆ dom (jobs d2) ->
  QueueKept q d q2 d2.
Proof.
  intros (Hd & kept & newer & -> & Hk & Hn) Hs Hd2. split; [set_solver|].
  apply sublist_app_r in Hs as (k1 & k2 & -> & Hk1 & Hk2).
  exists k1, k2. split; [done|]. split; [by etrans|].
  apply Forall_forall. intros job Hin. rewrite Forall_forall in Hn.
  apply Hn. by eapply elem_of_sublist.
Qed.

Lemma queueKept_step q d a st :
  QueueKept q d (queue st) (db st) ->
  let st' := step config slugify extractPlanFromOutput a st in
  QueueKept q d (queue st') (db st').
Proof.
  cbv zeta.
  apply (step_preserves_ok config slugify extractPlanFromOutput
           (fun st => QueueKept q d (queue st) (db st)) (fun _ => True)); try done.
  - intros t job q' st' Hr H. eapply queueKept_shrink; [exact H| |done].
    destruct (removeFirst_split _ _ _ _ Hr) as (pre & post & -> & -> & _).
    apply sublist_app; [done|by apply sublist_cons].
  - intros j s c st' H. eapply queueKept_shrink; [exact H|done|].
    cbn. by rewrite dom_alter_L.
  - intros j st' H. eapply queueKept_shrink; [exact H|done|].
    cbn. by rewrite dom_alter_L.
  - intros ph s t job d' st' _ Hc (Hd & kept & newer & Hq & Hk & Hn).
    destruct (jobs_create_tickets _ _ _ _ _ Hc) as (_ & _ & _ & -> & Hj & _).
    split.
    + cbn. rewrite Hj, dom_insert_L. set_solver.
    + exists kept, (newer ++ [mkJob (fresh (dom (jobs (db st')))) t ph]).
      cbn. rewrite Hq, app_assoc. split; [done|]. split; [done|].
      apply Forall_app. split; [done|]. apply Forall_singleton. cbn.
      intros Hin. apply (is_fresh (dom (jobs (db st')))). set_solver.
  - intros st' H. eapply queueKept_shrink; [exact H|apply tick_queue_sublist|].
    by rewrite tick_jobs_dom.
Qed.

(** Along every run the queue is only shortened and extended at its end:
    what is left of the queue the run started from is still in its order,
    and everything behind it is a job created during the run. *)
Theorem queue_order_is_kept (acts : list Action) (st : State) :
  let st' := run config slugify extractPlanFromOutput acts st in
  QueueKept (queue st) (db st) (queue st') (db st').
Proof.
  cbv zeta.
  assert (QueueKept (queue st) (db st) (queue st) (db st)) as H.
  { split; [done|]. exists (queue st), []. by rewrite app_nil_r. }
  revert H. generalize (queue st) at 1 3 as q. generalize (db st) at 1 3 as d.
  intros d q. revert st. induction acts as [|a acts IH]; intros st H; [done|].
  simpl. apply IH. by apply queueKept_step.
Qed.

End Kept.

(** ** The log file, its tailer and its history *)

Section LogFile.
Import Js Runner LogStreamer LogHistory.

Lemma filter_truthy_lines (s : jsstring) :
  List.filter truthy (split_lf s)
  = List.filter truthy (complete_lines s) ++ (if truthy (trailing s) then [trailing s] else []).
Proof.
  rewrite (split_lf_last s) at 1. rewrite List.filter_app. simpl.
  by destruct (truthy (trailing s)).
Qed.

(** Once the process has closed, the history read back from the log file
    the runner wrote is what the runner delivered to [onLine], line by
    line, for ASCII output of at most 1,000,000 bytes. *)
Theorem history_is_what_onLine_received (chunks : list Buffer) :
  Forall ascii_bytes chunks ->
  (Z.of_nat (length (concat chunks)) <= MAX_TAIL_BYTES)%Z ->
  let st := handleClose (feed chunks run_start) in
  getHistory (Some (logStream st)) = onLine st.
Proof.
  intros Ha Hsize st.
  destruct (feed_spec chunks [] run_start eq_refl eq_refl eq_refl) as (_ & Hl & Hn).
  pose proof (feed_logStream chunks run_start) as Hlog. simpl in Hlog, Hl, Hn.
  rewrite stream_text_ascii in Hl, Hn by done.
  assert (logStream st = concat chunks) as ->.
  { subst st. unfold handleClose. by destruct (truthy _). }
  assert (onLine st = List.filter truthy (complete_lines (concat chunks))
                      ++ (if truthy (trailing (concat chunks))
                          then [trailing (concat chunks)] else [])) as ->.
  { subst st. unfold handleClose. rewrite Hl.
    destruct (truthy (trailing (concat chunks))); simpl; rewrite Hn, ?Hl; [done|].
    by rewrite app_nil_r. }
  unfold getHistory. cbv zeta.
  rewrite Z.max_l by lia. simpl drop.
  rewrite toString_ascii by by apply concat_ascii.
  apply filter_truthy_lines.
Qed.

Lemma file_run_content (ops : list FileOp) (s : Buffer * WatchState) :
  (file_run ops s).1 = s.1 ++ concat (appended ops).
Proof.
  revert s. induction ops as [|op ops IH]; intros s; simpl; [by rewrite app_nil_r|].
  unfold file_run in IH. rewrite IH. destruct op as [bs|]; simpl; [|done].
  by rewrite app_assoc.
Qed.

Lemma appended_ascii (ops : list FileOp) :
  Forall ascii_op ops -> Forall ascii_bytes (appended ops).
Proof.
  induction 1 as [|op ops Hop _ IH]; [constructor|].
  destruct op as [bs|]; simpl; [by constructor|done].
Qed.

(** The tailer of the log file and the [onLine] callback of the runner
    that writes it carry the same lines: whatever ASCII chunks the runner
    has handled and whenever the timer has fired, after a poll the lines
    emitted by the tailer are those [onLine] has received. *)
Theorem tailer_emits_what_onLine_received (ops : list FileOp) :
  Forall ascii_op ops ->
  emitted (file_run (ops ++ [Poll]) ([], watch_start)).2
  = onLine (feed (appended ops) run_start).
Proof.
  intros Hops.
  destruct (feed_spec (appended ops) [] run_start eq_refl eq_refl eq_refl) as (_ & _ & Hn).
  simpl in Hn. rewrite stream_text_ascii in Hn by by apply appended_ascii.
  rewrite Hn. unfold file_run. rewrite fold_left_app. simpl.
  fold (file_run ops ([], watch_start)).
  assert (tail_inv (file_run ops ([], watch_start)).1 (file_run ops ([], watch_start)).2)
    as Hinv.
  { apply file_run_inv; [done|]. split; [constructor|]. by exists [], []. }
  destruct (poll_spec _ _ Hinv) as (He & _).
  by rewrite He, file_run_content.
Qed.

End LogFile.

Section LogFileExamples.
Import Js Runner LogStreamer LogHistory.

Ltac ascii_solve :=
  repeat (apply Forall_cons; split;
          [cbn [ascii_op]; unfold ascii_bytes; try apply (bool_decide_unpack _);
           try (vm_compute; exact I)|]);
  constructor.

(** The theorem at two chunks that cut a line. *)
Lemma history_is_what_onLine_received_witness :
  let chunks := [str "plan: st"; str "ep 1"] in
  let st := handleClose (feed chunks run_start) in
  getHistory (Some (logStream st)) = onLine st /\ onLine st = [str "plan: step 1"].
Proof.
  intros chunks st.
  assert (Forall ascii_bytes chunks) as Ha by ascii_solve.
  assert (Z.of_nat (length (concat chunks)) <= MAX_TAIL_BYTES)%Z as Hsize.
  { vm_compute. congruence. }
  split; [exact (history_is_what_onLine_received chunks Ha Hsize)|].
  vm_compute. reflexivity.
Defined.

(** The theorem at a poll that falls inside a line. *)
Lemma tailer_emits_what_onLine_received_witness :
  let ops := [Append (str "a"); Poll; Append (str "b"); Append [LF]; Append (str "c")] in
  emitted (file_run (ops ++ [Poll]) ([], watch_start)).2 = [str "ab"]
  /\ onLine (feed (appended ops) run_start) = [str "ab"].
Proof.
  intros ops.
  assert (Forall ascii_op ops) as Hops by ascii_solve.
  pose proof (tailer_emits_what_onLine_received ops Hops) as H.
  split; [rewrite H|]; vm_compute; reflexivity.
Defined.

End LogFileExamples.

(** ** What [renderTemplate] does to a template *)

Section TemplateFacts.
Import Js TemplateEngine Text.

Lemma trim_ends (s : jsstring) :
  trim s = []
  \/ exists c m, trim s = c :: m /\ is_ws c = false
                 /\ exists m' c', trim s = m' ++ [c'] /\ is_ws c' = false.
Proof.
  unfold trim. destruct (trimStart_head s) as [->|(c & r & -> & Hc)]; [by left|].
  right. unfold trimEnd. simpl. rewrite trimStart_snoc by done.
  rewrite rev_app_distr. simpl. exists c, (rev (trimStart (rev r))).
  split; [done|]. split; [done|].
  destruct (trimStart_head (rev r)) as [->|(c' & r' & -> & Hc')].
  - by exists [], c.
  - simpl. exists (c :: rev r'), c'. by rewrite app_comm_cons.
Qed.

(** The rendered text never starts or ends with white space, and
    trimming it again changes nothing. *)
Theorem renderTemplate_is_trimmed (template : jsstring) (ctx : TemplateContext) :
  let r := renderTemplate template ctx in
  trim r = r
  /\ (forall c m, r = c :: m -> is_ws c = false)
  /\ (forall m c, r = m ++ [c] -> is_ws c = false).
Proof.
  cbv zeta. unfold renderTemplate. cbv zeta.
  set (t := substitute _ _). split; [apply trim_idem|].
  destruct (trim_ends t) as [->|(c & m & H1 & Hc & m' & c' & H2 & Hc')].
  - split; [done|]. intros m c H. by destruct m.
  - split.
    + intros c0 m0 H. rewrite H1 in H. by injection H as <- _.
    + intros m0 c0 H. rewrite H2 in H. apply app_inj_tail in H as [_ <-]. done.
Qed.

Lemma render_marker_free (template : jsstring) (ctx : TemplateContext) :
  marker_free ctx template -> renderTemplate template ctx = trim template.
Proof.
  intros Hfree.
  unfold marker_free, markers, substitutions in Hfree. cbn [map fst app] in Hfree.
  repeat match goal with
         | H : Forall _ (_ :: _) |- _ => apply Forall_cons in H as [? H]
         end.
  unfold renderTemplate, renderConditionalBlock.
  rewrite (replaceBlocks_absent _ _ _ _ template) by assumption.
  rewrite (replaceBlocks_absent _ _ _ _ template) by assumption.
  unfold substitute, substitutions. cbn [fold_left fst snd].
  by do 8 (rewrite (replaceAll_absent template) by assumption).
Qed.

(** A template that holds none of the eight tokens and neither opening
    tag is returned trimmed, whatever the context. *)
Theorem renderTemplate_without_markers (template : jsstring) (ctx : TemplateContext) :
  marker_free ctx template -> renderTemplate template ctx = trim template.
Proof. apply render_marker_free. Qed.

(** *** One token, one block *)

Lemma strip_prefix_app (pat s : jsstring) : strip_prefix pat (pat ++ s) = Some s.
Proof. induction pat as [|c pat IH]; simpl; [done|]. by rewrite Z.eqb_refl. Qed.

Lemma find_first_unfold (pat s : jsstring) :
  find_first pat s
  = match strip_prefix pat s with
    | Some rest => Some ([], rest)
    | None => match s with
              | [] => None
              | c :: s' => (fun bs : jsstring * jsstring => (c :: bs.1, bs.2))
                             <$> find_first pat s'
              end
    end.
Proof.
  destruct s as [|c s]; simpl; [done|].
  destruct (strip_prefix pat (c :: s)); [done|]. by destruct (find_first pat s) as [[? ?]|].
Qed.

Lemma find_first_lacks (c : Z) (pat s : jsstring) :
  lacks c s -> find_first (c :: pat) s = None.
Proof.
  induction 1 as [|x s Hx _ IH]; [done|].
  rewrite find_first_unfold. simpl.
  destruct (Z.eqb_spec c x) as [->|_]; [done|]. by rewrite IH.
Qed.

Lemma find_first_skip (c : Z) (pat a s : jsstring) :
  lacks c a ->
  find_first (c :: pat) (a ++ s)
  = (fun bs : jsstring * jsstring => (a ++ bs.1, bs.2)) <$> find_first (c :: pat) s.
Proof.
  induction 1 as [|x a Hx _ IH]; simpl app.
  - by destruct (find_first (c :: pat) s) as [[? ?]|].
  - rewrite find_first_unfold. simpl strip_prefix.
    destruct (Z.eqb_spec c x) as [->|_]; [done|]. rewrite IH.
    by destruct (find_first (c :: pat) s) as [[? ?]|].
Qed.

Lemma find_first_at (c : Z) (pat a s : jsstring) :
  lacks c a -> find_first (c :: pat) (a ++ (c :: pat) ++ s) = Some (a, s).
Proof.
  intros Ha. rewrite find_first_skip by done.
  rewrite (find_first_unfold _ ((c :: pat) ++ s)), strip_prefix_app. simpl.
  by rewrite app_nil_r.
Qed.

Lemma find_first_misses (pat t rest : jsstring) :
  misses pat t rest ->
  find_first pat (t ++ rest)
  = (fun bs : jsstring * jsstring => (t ++ bs.1, bs.2)) <$> find_first pat rest.
Proof.
  induction t as [|x t IH]; cbn [misses app].
  - intros _. by destruct (find_first pat rest) as [[? ?]|].
  - intros [Hx Ht]. rewrite find_first_unfold, Hx, (IH Ht).
    by destruct (find_first pat rest) as [[? ?]|].
Qed.

(** A pattern that starts with [c] occurs neither in a text without [c]
    nor across a token it does not match. *)
Lemma occurs_lacks (c : Z) (pat s : jsstring) : lacks c s -> occurs (c :: pat) s = false.
Proof. intros H. unfold occurs. by rewrite find_first_lacks. Qed.

Lemma occurs_around (c : Z) (pat a t b : jsstring) :
  lacks c a -> misses (c :: pat) t b -> lacks c b -> occurs (c :: pat) (a ++ t ++ b) = false.
Proof.
  intros Ha Ht Hb. unfold occurs.
  by rewrite find_first_skip, find_first_misses, find_first_lacks.
Qed.

Lemma getSubstitution_plain (v m b a : jsstring) :
  lacks DOLLAR v -> getSubstitution v m b a = v.
Proof.
  induction 1 as [|x v Hx _ IH]; [done|]. simpl.
  destruct (Z.eqb_spec x DOLLAR) as [->|_]; [done|]. by rewrite IH.
Qed.

Lemma replaceAllFrom_S (fuel : nat) (token value consumed s : jsstring) :
  replaceAllFrom (S fuel) token value consumed s
  = match find_first token s with
    | None => s
    | Some (before, after) =>
        before ++ getSubstitution value token (consumed ++ before) after
               ++ replaceAllFrom fuel token value (consumed ++ before ++ token) after
    end.
Proof. reflexivity. Qed.

Lemma replaceAllFrom_lacks (fuel : nat) (c : Z) (pat value consumed s : jsstring) :
  lacks c s -> replaceAllFrom fuel (c :: pat) value consumed s = s.
Proof. intros H. destruct fuel; [done|]. by rewrite replaceAllFrom_S, find_first_lacks. Qed.

Lemma replaceBlocks_S (fuel : nat) (o cl : jsstring) (include : bool) (s : jsstring) :
  replaceBlocks (S fuel) o cl include s
  = match find_first o s with
    | None => s
    | Some (before, afterOpen) =>
        match find_first cl afterOpen with
        | None => s
        | Some (inner, rest) =>
            before ++ (if include then inner else []) ++ replaceBlocks fuel o cl include rest
        end
    end.
Proof. reflexivity. Qed.

Lemma replaceBlocks_lacks (fuel : nat) (c : Z) (o cl s : jsstring) (include : bool) :
  lacks c s -> replaceBlocks fuel (c :: o) cl include s = s.
Proof. intros H. destruct fuel; [done|]. by rewrite replaceBlocks_S, find_first_lacks. Qed.

Lemma replaceAll_once (c : Z) (pat v a b : jsstring) :
  lacks c a -> lacks c b -> lacks DOLLAR v ->
  replaceAll (a ++ (c :: pat) ++ b) (c :: pat) v = a ++ v ++ b.
Proof.
  intros Ha Hb Hv. unfold replaceAll.
  destruct (length (a ++ (c :: pat) ++ b)) as [|fuel] eqn:El.
  { rewrite !length_app in El. simpl in El. lia. }
  rewrite replaceAllFrom_S, find_first_at by done.
  by rewrite getSubstitution_plain, (replaceAllFrom_lacks _ c) by done.
Qed.

Lemma replaceBlocks_once (c : Z) (o cl a inner b : jsstring) (include : bool) (fuel : nat) :
  lacks c a -> lacks c inner -> lacks c b ->
  replaceBlocks (S fuel) (c :: o) (c :: cl) include
                (a ++ (c :: o) ++ inner ++ (c :: cl) ++ b)
  = a ++ (if include then inner else []) ++ b.
Proof.
  intros Ha Hi Hb.
  rewrite replaceBlocks_S, find_first_at, find_first_at by done.
  by rewrite (replaceBlocks_lacks _ c) by done.
Qed.

Ltac eval_str :=
  repeat match goal with
         | |- context [str ?x] =>
             let t := eval vm_compute in (str x) in change (str x) with t
         end.

(** A conditional block is replaced by its content when [include] holds
    and dropped otherwise, tags included, where the texts around and
    inside it hold no opening brace. *)
Theorem conditional_block_is_kept_or_dropped (tag a inner b : jsstring) (include : bool) :
  lacks LBRACE a -> lacks LBRACE inner -> lacks LBRACE b ->
  renderConditionalBlock
    (a ++ (str "{{#" ++ tag ++ str "}}") ++ inner ++ (str "{{/" ++ tag ++ str "}}") ++ b)
    tag include
  = a ++ (if include then inner else []) ++ b.
Proof.
  intros Ha Hi Hb. unfold renderConditionalBlock. cbv zeta. eval_str.
  match goal with |- context [replaceBlocks (length ?t)] =>
    destruct (length t) as [|fuel] eqn:El end.
  { rewrite !length_app in El. simpl in El. lia. }
  exact (replaceBlocks_once LBRACE ([123; 35] ++ tag ++ [125; 125])
           ([123; 47] ++ tag ++ [125; 125]) a inner b include fuel Ha Hi Hb).
Qed.

Lemma lacks_marker_free (ctx : TemplateContext) (s : jsstring) :
  lacks LBRACE s -> marker_free ctx s.
Proof.
  intros H. unfold marker_free, markers, substitutions. cbn [map fst app]. eval_str.
  repeat (apply Forall_cons; split; [by apply (occurs_lacks LBRACE)|]). constructor.
Qed.

Lemma lacks_app (c : Z) (s t : jsstring) : lacks c s -> lacks c t -> lacks c (s ++ t).
Proof. intros Hs Ht. by apply Forall_app. Qed.

Lemma lacks_if (c : Z) (b : bool) (s : jsstring) :
  lacks c s -> lacks c (if b then s else []).
Proof. intros H. destruct b; [done|constructor]. Qed.

(** [find_first pat s = None] for a text made of parts without the first
    character of [pat] and of tokens that [pat] does not match. *)
Ltac misses_solve := cbn [misses]; repeat split; reflexivity.

Ltac absent_solve :=
  unfold occurs;
  try match goal with
      | |- context [find_first (?x ++ ?y) _] =>
          let p := eval cbn [app] in (x ++ y) in change (x ++ y) with p
      end;
  repeat first [ rewrite find_first_skip by assumption
               | rewrite find_first_misses by misses_solve ];
  rewrite find_first_lacks by assumption; reflexivity.

(** A template with one token: the token is replaced by its value as it
    is, where the value holds no dollar sign (which [replaceAll] expands)
    and neither the value nor the text around the token holds an opening
    brace. *)
Theorem token_is_replaced_by_its_value (ctx : TemplateContext) (tok v a b : jsstring) :
  (tok, v) ∈ substitutions ctx ->
  lacks LBRACE a -> lacks LBRACE b -> lacks LBRACE v -> lacks DOLLAR v ->
  renderTemplate (a ++ tok ++ b) ctx = trim (a ++ v ++ b).
Proof.
  intros Hin Ha Hb Hv Hd.
  assert (lacks LBRACE (a ++ v ++ b)) as Hall by (by repeat apply lacks_app).
  unfold substitutions in Hin.
  unfold renderTemplate, renderConditionalBlock, substitute, substitutions.
  cbv zeta. cbn [fold_left fst snd].
  repeat (apply elem_of_cons in Hin as [Hin|Hin];
          [injection Hin as -> ->;
           eval_str;
           rewrite !(replaceBlocks_absent _ _ _ _ (a ++ _ ++ b)) by absent_solve;
           repeat (rewrite (replaceAll_absent (a ++ _ ++ b)) by absent_solve);
           rewrite (replaceAll_once LBRACE) by assumption;
           repeat (rewrite (replaceAll_absent (a ++ _ ++ b))
                     by (by apply (occurs_lacks LBRACE)));
           reflexivity
          |]).
  by apply elem_of_nil in Hin.
Qed.

(** A template with the block of the context files: the block is
    replaced by its content when the context names files ([contextFiles]
    is set and not empty) and dropped otherwise, where the texts around and
    inside the block hold no opening brace. *)
Theorem context_block_follows_contextFiles (ctx : TemplateContext) (a inner b : jsstring) :
  lacks LBRACE a -> lacks LBRACE inner -> lacks LBRACE b ->
  renderTemplate (a ++ str "{{#CONTEXT_FILES}}" ++ inner ++ str "{{/CONTEXT_FILES}}" ++ b) ctx
  = trim (a ++ (if present (contextFiles ctx) then inner else []) ++ b).
Proof.
  intros Ha Hi Hb.
  set (r := a ++ (if present (contextFiles ctx) then inner else []) ++ b).
  assert (lacks LBRACE r) as Hr.
  { subst r. repeat apply lacks_app; try done. by apply lacks_if. }
  assert (renderConditionalBlock
            (a ++ str "{{#CONTEXT_FILES}}" ++ inner ++ str "{{/CONTEXT_FILES}}" ++ b)
            (str "CONTEXT_FILES") (present (contextFiles ctx)) = r) as Hblock.
  { unfold renderConditionalBlock. cbv zeta. eval_str.
    match goal with |- context [replaceBlocks (length ?t)] =>
      destruct (length t) as [|fuel] eqn:El end.
    { rewrite !length_app in El. simpl in El. lia. }
    exact (replaceBlocks_once LBRACE _ _ a inner b _ fuel Ha Hi Hb). }
  unfold renderTemplate. cbv zeta. rewrite Hblock.
  pose proof (render_marker_free r ctx (lacks_marker_free ctx r Hr)) as H.
  unfold renderTemplate in H. cbv zeta in H.
  unfold renderConditionalBlock in H at 2. cbv zeta in H.
  rewrite (replaceBlocks_absent _ _ _ _ r) in H; [exact H|].
  eval_str. by apply (occurs_lacks LBRACE).
Qed.

End TemplateFacts.

Section TemplateFactsExamples.
Import Js TemplateEngine Text.

(** The theorem at a template in plain words. *)
Lemma renderTemplate_without_markers_witness :
  let template := str "  Write the tests first. " in
  let ctx := mkContext (str "login") (str "d") (str "shop") [] [] [] None None in
  marker_free ctx template
  /\ renderTemplate template ctx = str "Write the tests first.".
Proof.
  intros template ctx.
  assert (marker_free ctx template) as H.
  { vm_compute. repeat constructor. }
  split; [exact H|].
  rewrite (renderTemplate_without_markers template ctx H).
  reflexivity.
Defined.

Ltac lacks_solve := unfold lacks; apply (bool_decide_unpack _); vm_compute; exact I.

(** The theorem at a block around one line. *)
Lemma conditional_block_is_kept_or_dropped_witness :
  renderConditionalBlock (str "Plan.{{#NOTES}} See the notes.{{/NOTES}} Done.") (str "NOTES") true
  = str "Plan. See the notes. Done."
  /\ renderConditionalBlock (str "Plan.{{#NOTES}} See the notes.{{/NOTES}} Done.")
                            (str "NOTES") false
     = str "Plan. Done.".
Proof.
  assert (lacks LBRACE (str "Plan.")) as Ha by lacks_solve.
  assert (lacks LBRACE (str " See the notes.")) as Hi by lacks_solve.
  assert (lacks LBRACE (str " Done.")) as Hb by lacks_solve.
  split.
  - exact (conditional_block_is_kept_or_dropped (str "NOTES") _ _ _ true Ha Hi Hb).
  - exact (conditional_block_is_kept_or_dropped (str "NOTES") _ _ _ false Ha Hi Hb).
Defined.

(** The theorem at the token of the project name. *)
Lemma token_is_replaced_by_its_value_witness :
  let ctx := mkContext (str "login") (str "d") (str "shop") [] [] [] None None in
  renderTemplate (str "Project: " ++ str "{{PROJECT_NAME}}" ++ str ". ") ctx
  = str "Project: shop.".
Proof.
  intros ctx.
  assert ((str "{{PROJECT_NAME}}", str "shop") ∈ substitutions ctx) as Hin.
  { unfold substitutions. right. right. left. }
  assert (lacks LBRACE (str "Project: ")) as Ha by lacks_solve.
  assert (lacks LBRACE (str ". ")) as Hb by lacks_solve.
  assert (lacks LBRACE (str "shop")) as Hv by lacks_solve.
  assert (lacks DOLLAR (str "shop")) as Hd by lacks_solve.
  rewrite (token_is_replaced_by_its_value ctx _ _ _ _ Hin Ha Hb Hv Hd).
  reflexivity.
Defined.

(** The theorem at a context that names no file. *)
Lemma context_block_follows_contextFiles_witness :
  let ctx := mkContext (str "login") (str "d") (str "shop") [] [] [] (Some []) None in
  renderTemplate (str "Plan." ++ str "{{#CONTEXT_FILES}}" ++ str " Read the files."
                    ++ str "{{/CONTEXT_FILES}}" ++ str " Done.") ctx
  = str "Plan. Done.".
Proof.
  intros ctx.
  assert (lacks LBRACE (str "Plan.")) as Ha by lacks_solve.
  assert (lacks LBRACE (str " Read the files.")) as Hi by lacks_solve.
  assert (lacks LBRACE (str " Done.")) as Hb by lacks_solve.
  rewrite (context_block_follows_contextFiles ctx _ _ _ Ha Hi Hb).
  reflexivity.
Defined.

(** A value with a dollar sign is not inserted as it is: [$&] stands for
    the token itself. *)
Example dollar_pattern_is_expanded :
  let ctx := mkContext (str "cost: $&") (str "d") (str "shop") [] [] [] None None in
  renderTemplate (str "{{TICKET_TITLE}}") ctx = str "cost: {{TICKET_TITLE}}".
Proof. vm_compute. reflexivity. Qed.

(** A token can be put together by the substitution of another one: the
    second rendering then replaces it, though no value holds a brace. *)
Example renderTemplate_assembles_token :
  let ctx := mkContext (str "T") (str "d") (str "TITLE") [] [] [] None None in
  renderTemplate (str "{{TICKET_{{PROJECT_NAME}}}}") ctx = str "{{TICKET_TITLE}}"
  /\ renderTemplate (str "{{TICKET_TITLE}}") ctx = str "T".
Proof. vm_compute. split; reflexivity. Qed.

End TemplateFactsExamples.

(** ** What [slugify] makes of a title *)

Section SlugFacts.
Import Js TemplateEngine Slug.

Variable toLowerCase : jsstring -> jsstring.

Lemma trimStart_Forall (P : Z -> Prop) s : Forall P s -> Forall P (trimStart s).
Proof.
  induction 1 as [|c s Hc Hs IH]; cbn [trimStart]; [constructor|].
  destruct (is_ws c); [exact IH|by constructor].
Qed.

Lemma trim_Forall (P : Z -> Prop) s : Forall P s -> Forall P (trim s).
Proof.
  intros H. unfold trim, trimEnd.
  apply Forall_rev, trimStart_Forall, Forall_rev, trimStart_Forall, H.
Qed.

Lemma dashes_slug_char b s : Forall (fun c => kept c = true) s -> Forall slug_char (dashes b s).
Proof.
  intros H. revert b. induction H as [|c s Hc Hs IH]; intros b; cbn [dashes]; [constructor|].
  destruct (is_ws c) eqn:Hws.
  - destruct b; [apply IH|]. constructor; [by right|apply IH].
  - constructor; [|apply IH]. unfold kept in Hc. rewrite Hws in Hc.
    unfold slug_char. destruct (is_lower_or_digit c); [by left|right].
    cbn in Hc. by apply Z.eqb_eq.
Qed.

Lemma slug_char_no_ws c : slug_char c -> is_ws c = false.
Proof.
  unfold slug_char, is_lower_or_digit, is_ws, DASH. intros [H| ->]; [|reflexivity].
  apply orb_true_iff in H as [H|H]; apply andb_true_iff in H as [H1 H2];
    apply Z.leb_le in H1; apply Z.leb_le in H2;
    repeat (apply orb_false_iff; split);
    try (apply andb_false_iff); try (apply Z.eqb_neq); try lia.
  all: first [ left; apply Z.leb_gt; lia | right; apply Z.leb_gt; lia ].
Qed.

Lemma slug_char_kept c : slug_char c -> kept c = true.
Proof.
  unfold slug_char, kept. intros [-> | ->]; [reflexivity|].
  rewrite orb_true_iff. right. reflexivity.
Qed.

Lemma slug_filter s : Forall slug_char s -> List.filter kept s = s.
Proof.
  induction 1 as [|c s Hc Hs IH]; [reflexivity|].
  cbn [List.filter]. rewrite (slug_char_kept c Hc). by rewrite IH.
Qed.

Lemma slug_trimStart s : Forall slug_char s -> trimStart s = s.
Proof.
  intros H. destruct H as [|c s Hc Hs]; [reflexivity|].
  cbn [trimStart]. by rewrite (slug_char_no_ws c Hc).
Qed.

Lemma slug_trim s : Forall slug_char s -> trim s = s.
Proof.
  intros H. unfold trim, trimEnd. rewrite (slug_trimStart s H).
  rewrite slug_trimStart by (by apply Forall_rev). apply rev_involutive.
Qed.

Lemma slug_dashes s : Forall slug_char s -> dashes false s = s.
Proof.
  induction 1 as [|c s Hc Hs IH]; [reflexivity|].
  cbn [dashes]. rewrite (slug_char_no_ws c Hc). by rewrite IH.
Qed.

Lemma slugify_chars title : Forall slug_char (slugify toLowerCase title).
Proof.
  unfold slugify. apply Forall_take, dashes_slug_char, trim_Forall.
  apply Forall_forall. intros c Hc. apply list_elem_of_In, filter_In in Hc. apply Hc.
Qed.

Lemma slugify_length title : (length (slugify toLowerCase title) <= 50)%nat.
Proof. unfold slugify. rewrite length_take. lia. Qed.

(** Whatever the title and whatever [toLowerCase] returns for it, the slug
    is made of the characters [a-z], [0-9] and the dash only (no white
    space, no upper case, no slash), and it has at most 50 characters. *)
Theorem slugify_is_short_and_plain (title : jsstring) :
  Forall slug_char (slugify toLowerCase title)
  /\ (length (slugify toLowerCase title) <= 50)%nat.
Proof. split; [apply slugify_chars|apply slugify_length]. Qed.

(** When [toLowerCase] leaves texts of [a-z], [0-9] and dashes as they
    are, a slug is its own slug. *)
Theorem slugify_idempotent (title : jsstring) :
  (forall s, Forall slug_char s -> toLowerCase s = s) ->
  slugify toLowerCase (slugify toLowerCase title) = slugify toLowerCase title.
Proof.
  intros Hlower.
  pose proof (slugify_chars title) as Hc. pose proof (slugify_length title) as Hl.
  set (r := slugify toLowerCase title) in *. unfold slugify at 1.
  rewrite (Hlower r Hc), (slug_filter r Hc), (slug_trim r Hc), (slug_dashes r Hc).
  by apply take_ge.
Qed.

End SlugFacts.

Section SlugExamples.
Import Js TemplateEngine Slug.

Lemma lowerAscii_slug s : Forall slug_char s -> lowerAscii s = s.
Proof.
  induction 1 as [|c s Hc Hs IH]; [reflexivity|].
  unfold lowerAscii in *. cbn [map]. rewrite IH.
  replace ((65 <=? c) && (c <=? 90)) with false; [reflexivity|].
  symmetry. apply andb_false_iff. unfold slug_char, is_lower_or_digit, DASH in Hc.
  destruct Hc as [H| ->]; [|by left].
  apply orb_true_iff in H as [H|H]; apply andb_true_iff in H as [H1 H2];
    apply Z.leb_le in H1; apply Z.leb_le in H2; [right|left]; apply Z.leb_gt; lia.
Qed.

(** The theorem at a title with upper case, blanks and punctuation. *)
Lemma slugify_idempotent_witness :
  slugify lowerAscii (str "Fix the Login page (v2)!") = str "fix-the-login-page-v2"
  /\ slugify lowerAscii (slugify lowerAscii (str "Fix the Login page (v2)!"))
     = slugify lowerAscii (str "Fix the Login page (v2)!").
Proof.
  split; [vm_compute; reflexivity|].
  exact (slugify_idempotent lowerAscii (str "Fix the Login page (v2)!") lowerAscii_slug).
Defined.

(** Dashes of the title are kept beside those that stand for blanks, and
    a title of punctuation only has the empty slug. *)
Example slugify_keeps_dashes_and_may_be_empty :
  slugify lowerAscii (str " a - b ") = str "a---b"
  /\ slugify lowerAscii (str "?!") = [].
Proof. vm_compute. split; reflexivity. Qed.

End SlugExamples.

(** ** What the recovery at activation does to the store *)

Section RecoveryFacts.
Import Store Extension Recovery.
Local Open Scope string_scope.

Lemma recover_fold (l : list (string * TicketRow)) (d : Db) :
  NoDup l.*1 ->
  (forall k r, (k, r) ∈ l -> tickets d !! k = Some r) ->
  let d' := fold_left recoverStep l d in
  projects d' = projects d /\ jobs d' = jobs d
  /\ forall id, tickets d' !! id
                = if bool_decide (id ∈ l.*1) then recovered <$> tickets d !! id
                  else tickets d !! id.
Proof.
  revert d. induction l as [|[k r] l IH]; intros d Hnd Hl; cbn [fold_left].
  - repeat split.
  - apply NoDup_cons in Hnd as [Hk Hnd]. cbn [fmap list_fmap fst] in *.
    assert (tickets d !! k = Some r) as Hr by (apply Hl; left).
    destruct (IH (recoverStep d (k, r)) Hnd) as (Hp & Hj & Ht).
    { intros k' r' Hin.
      assert (k' <> k) as Hne.
      { intros ->. apply Hk. apply list_elem_of_fmap. by exists (k, r'). }
      unfold recoverStep. cbn [fst snd]. destruct (interrupted (status r)).
      - cbn [tickets_updateStatus tickets]. rewrite lookup_alter_ne by done. apply Hl. by right.
      - apply Hl. by right. }
    split; [|split].
    + rewrite Hp. unfold recoverStep. by destruct (interrupted _).
    + rewrite Hj. unfold recoverStep. by destruct (interrupted _).
    + intros id. rewrite Ht. destruct (decide (id = k)) as [->|Hne].
      * rewrite (bool_decide_eq_false_2 _ Hk).
        rewrite (bool_decide_eq_true_2 (k ∈ k :: l.*1)) by left.
        rewrite Hr. unfold recoverStep, recovered. cbn [fst snd fmap option_fmap option_map].
        destruct (interrupted (status r)); [|done].
        cbn [tickets_updateStatus tickets]. rewrite lookup_alter_eq, Hr. done.
      * assert (tickets (recoverStep d (k, r)) !! id = tickets d !! id) as ->.
        { unfold recoverStep. cbn [fst snd]. destruct (interrupted _); [|done].
          cbn [tickets_updateStatus tickets]. by rewrite lookup_alter_ne. }
        destruct (decide (id ∈ l.*1)) as [Hin|Hin].
        -- rewrite (bool_decide_eq_true_2 _ Hin).
           by rewrite (bool_decide_eq_true_2 (id ∈ k :: l.*1)) by (by right).
        -- rewrite (bool_decide_eq_false_2 _ Hin).
           rewrite (bool_decide_eq_false_2 (id ∈ k :: l.*1)); [done|].
           intros [?|?]%elem_of_cons; done.
Qed.

Lemma recover_unfold (d : Db) :
  recoverInterruptedJobs d = fold_left recoverStep (map_to_list (tickets d)) d.
Proof. reflexivity. Qed.

Lemma recover_tables (d : Db) :
  let d' := recoverInterruptedJobs d in
  tickets d' = recovered <$> tickets d /\ jobs d' = jobs d /\ projects d' = projects d.
Proof.
  intros d'.
  destruct (recover_fold (map_to_list (tickets d)) d) as (Hp & Hj & Ht).
  { apply NoDup_fst_map_to_list. }
  { intros k r. apply elem_of_map_to_list. }
  split; [|split]; [|exact Hj|exact Hp].
  apply map_eq. intros id. unfold d'. rewrite recover_unfold, Ht, lookup_fmap.
  destruct (tickets d !! id) as [r|] eqn:Hr.
  - rewrite bool_decide_eq_true_2; [done|].
    apply list_elem_of_fmap. exists (id, r). split; [done|]. by apply elem_of_map_to_list.
  - by destruct (bool_decide _).
Qed.

Lemma recover_nothing (l : list (string * TicketRow)) (d : Db) :
  Forall (fun kr => interrupted (status kr.2) = false) l -> fold_left recoverStep l d = d.
Proof.
  induction 1 as [|kr l Hkr _ IH]; [done|].
  cbn [fold_left]. unfold recoverStep at 2. by rewrite Hkr.
Qed.

(** The recovery turns every ticket in 'in_progress', 'planning' or
    'testing' into a failed ticket with the restart message, and leaves
    every other ticket row as it is; it writes no job row (a job that was
    'running' stays 'running') and no project. *)
Theorem recovery_fails_interrupted_tickets (d : Db) :
  let d' := recoverInterruptedJobs d in
  tickets d' = recovered <$> tickets d /\ jobs d' = jobs d /\ projects d' = projects d.
Proof. apply recover_tables. Qed.

(** After the recovery no ticket is in 'in_progress', 'planning' or
    'testing', and a second recovery changes nothing and writes no status. *)
Theorem recovery_is_idempotent (d : Db) :
  map_Forall (fun _ r => interrupted (status r) = false) (tickets (recoverInterruptedJobs d))
  /\ recoverInterruptedJobs (recoverInterruptedJobs d) = recoverInterruptedJobs d.
Proof.
  assert (map_Forall (fun _ r => interrupted (status r) = false)
                     (tickets (recoverInterruptedJobs d))) as Hall.
  { destruct (recover_tables d) as (-> & _).
    intros id r. rewrite lookup_fmap. intros Hr.
    destruct (tickets d !! id) as [r0|]; [|done].
    injection Hr as <-. unfold recovered. by destruct (interrupted (status r0)) eqn:E. }
  split; [done|].
  rewrite (recover_unfold (recoverInterruptedJobs d)).
  apply recover_nothing. apply Forall_forall. intros [k r] Hin.
  apply elem_of_map_to_list in Hin. exact (Hall k r Hin).
Qed.

End RecoveryFacts.
